(** * beartype: LRU cache, class testers and PEP-compliant code snippets

    A verification development over three modules of the repository:

    - [beartype/_util/cache/utilcachelru.py]   (module [LRU])
    - [beartype/_util/cls/utilclstest.py]      (module [ClsTest])
    - [beartype/_decor/_code/_pep/_pepsnip.py] (modules [Str] and [Snip])

    Python values are modelled by the inductive type [pyobj], exceptions by
    the error monad [result]. *)

From Stdlib Require Import ZArith List String Ascii Bool Lia Arith Permutation.
Import ListNotations.

Set Warnings "-register-all".

Open Scope string_scope.
Open Scope list_scope.
Open Scope Z_scope.

(** ** Exceptions and the error monad *)

Inductive pyexc :=
| TypeError
| KeyError
| IndexError
| ZeroDivisionError
| NameError
| StopIteration
| AssertionError
| _BeartypeUtilLRUCacheException
| MalformedHint.

Inductive result (A : Type) :=
| Ok (a : A)
| Raise (e : pyexc).

Arguments Ok {A} a.
Arguments Raise {A} e.

Definition bind {A B : Type} (m : result A) (f : A -> result B) : result B :=
  match m with
  | Ok a => f a
  | Raise e => Raise e
  end.

Notation "x <- m ;; k" := (bind m (fun x => k))
  (at level 61, m at next level, right associativity).

(** ** Python objects *)

Module Py.

(** A class is identified by its name; [supers] lists the names of all its
    proper superclasses, so that [__mro__] is the method resolution order. *)
Record pytype := MkType { __name__ : string; supers : list string }.

Definition __mro__ (c : pytype) : list string := __name__ c :: supers c.

Definition object_t : pytype := MkType "object" [].
Definition type_t : pytype := MkType "type" ["object"].
Definition int_t : pytype := MkType "int" ["object"].
Definition bool_t : pytype := MkType "bool" ["int"; "object"].
Definition str_t : pytype := MkType "str" ["object"].
Definition tuple_t : pytype := MkType "tuple" ["object"].
Definition list_t : pytype := MkType "list" ["object"].
Definition NoneType_t : pytype := MkType "NoneType" ["object"].

(** The values the snippets and testers are run on: integers, booleans,
    strings, [None], tuples, lists, classes (whose metaclass is [type]) and
    plain [object()] instances (told apart by an identity). *)
Inductive pyobj :=
| PInt (z : Z)
| PBool (b : bool)
| PStr (s : string)
| PNone
| PTuple (elts : list pyobj)
| PList (elts : list pyobj)
| PType (c : pytype)
| PObject (id : nat).

Definition type_of (o : pyobj) : pytype :=
  match o with
  | PInt _ => int_t
  | PBool _ => bool_t
  | PStr _ => str_t
  | PNone => NoneType_t
  | PTuple _ => tuple_t
  | PList _ => list_t
  | PType _ => type_t
  | PObject _ => object_t
  end.

(** [b in c.__mro__] *)
Definition type_issubclass (c b : pytype) : bool :=
  existsb (String.eqb (__name__ b)) (__mro__ c).

(** The builtin [isinstance(o, classinfo)]: [classinfo] is a class or a
    (possibly nested) tuple of classes, scanned left to right and stopping at
    the first match; anything else raises [TypeError]. *)
Fixpoint isinstance (o : pyobj) (classinfo : pyobj) : result bool :=
  match classinfo with
  | PType b => Ok (type_issubclass (type_of o) b)
  | PTuple l =>
      (fix any (l : list pyobj) : result bool :=
         match l with
         | [] => Ok false
         | x :: l' =>
             match isinstance o x with
             | Ok true => Ok true
             | Ok false => any l'
             | Raise e => Raise e
             end
         end) l
  | _ => Raise TypeError
  end.

(** The builtin [issubclass(cls, classinfo)]: raises [TypeError] as soon as
    [cls] is tested against a class without being a class itself. *)
Fixpoint issubclass (cls : pyobj) (classinfo : pyobj) : result bool :=
  match classinfo with
  | PType b =>
      match cls with
      | PType c => Ok (type_issubclass c b)
      | _ => Raise TypeError
      end
  | PTuple l =>
      (fix any (l : list pyobj) : result bool :=
         match l with
         | [] => Ok false
         | x :: l' =>
             match issubclass cls x with
             | Ok true => Ok true
             | Ok false => any l'
             | Raise e => Raise e
             end
         end) l
  | _ => Raise TypeError
  end.

(** Integer value of an [int] instance ([bool] subclasses [int]). *)
Definition int_value (o : pyobj) : option Z :=
  match o with
  | PInt z => Some z
  | PBool b => Some (if b then 1 else 0)
  | _ => None
  end.

(** Truth value testing, as done by [not], [and], [or] and [if]. *)
Definition truthy (o : pyobj) : bool :=
  match o with
  | PInt z => negb (z =? 0)
  | PBool b => b
  | PStr s => negb (String.length s =? 0)%nat
  | PNone => false
  | PTuple l => negb (List.length l =? 0)%nat
  | PList l => negb (List.length l =? 0)%nat
  | PType _ => true
  | PObject _ => true
  end.

(** Items of a sequence object; a string is the sequence of its
    one-character substrings. *)
Definition seq_items (o : pyobj) : option (list pyobj) :=
  match o with
  | PTuple l => Some l
  | PList l => Some l
  | PStr s => Some (map (fun ch => PStr (String ch EmptyString)) (list_ascii_of_string s))
  | _ => None
  end.

(** The builtin [len]. *)
Definition len (o : pyobj) : result pyobj :=
  match seq_items o with
  | Some l => Ok (PInt (Z.of_nat (List.length l)))
  | None => Raise TypeError
  end.

(** Subscription [o[i]] of a sequence by an integer: a negative index counts
    from the end, an index out of range raises [IndexError]. *)
Definition getitem (o i : pyobj) : result pyobj :=
  match seq_items o, int_value i with
  | Some l, Some z =>
      let n := Z.of_nat (List.length l) in
      let j := if z <? 0 then z + n else z in
      if (j <? 0) || (n <=? j) then Raise IndexError
      else match nth_error l (Z.to_nat j) with
           | Some x => Ok x
           | None => Raise IndexError
           end
  | _, _ => Raise TypeError
  end.

(** [a % b] on integers: floored remainder, [ZeroDivisionError] when [b] is
    zero.  Other operand types are outside the snippets and raise. *)
Definition mod_ (a b : pyobj) : result pyobj :=
  match int_value a, int_value b with
  | Some x, Some y => if y =? 0 then Raise ZeroDivisionError else Ok (PInt (x mod y))
  | _, _ => Raise TypeError
  end.

(** [a == b]: numeric on integers and booleans, structural on strings, tuples
    and lists, identity on classes and plain objects. *)
Fixpoint __eq__ (a b : pyobj) : bool :=
  match a, b with
  | PInt x, PInt y => x =? y
  | PInt x, PBool y => x =? (if y then 1 else 0)
  | PBool x, PInt y => (if x then 1 else 0) =? y
  | PBool x, PBool y => Bool.eqb x y
  | PStr s, PStr t => String.eqb s t
  | PNone, PNone => true
  | PTuple l1, PTuple l2 =>
      (fix go (l1 l2 : list pyobj) : bool :=
         match l1, l2 with
         | [], [] => true
         | x :: l1', y :: l2' => __eq__ x y && go l1' l2'
         | _, _ => false
         end) l1 l2
  | PList l1, PList l2 =>
      (fix go (l1 l2 : list pyobj) : bool :=
         match l1, l2 with
         | [], [] => true
         | x :: l1', y :: l2' => __eq__ x y && go l1' l2'
         | _, _ => false
         end) l1 l2
  | PType c, PType d => String.eqb (__name__ c) (__name__ d)
  | PObject i, PObject j => (i =? j)%nat
  | _, _ => false
  end.

Definition is_class (o : pyobj) : bool :=
  match o with
  | PType _ => true
  | _ => false
  end.

End Py.

Import Py.

(** ** beartype/_util/cache/utilcachelru.py *)

Module LRU.

Section Cache.

(** The keys [K] are the objects that can be hashed, under the equality of
    keys.  On an object that cannot be hashed, [dict.__getitem__] and
    [dict.__contains__], the first statements of the two methods below, raise
    [TypeError] and leave the cache as it is; such calls have no counterpart
    here. *)
Variable K V : Type.
Variable K_eq_dec : forall a b : K, {a = b} + {a <> b}.

(** *** The [dict] superclass: an insertion-ordered mapping *)

Definition dict := list (K * V).

Definition keys (d : dict) : list K := map fst d.

Fixpoint dict_hasitem (d : dict) (key : K) : bool :=
  match d with
  | [] => false
  | (k, _) :: d' => if K_eq_dec key k then true else dict_hasitem d' key
  end.

Fixpoint dict_getitem (d : dict) (key : K) : result V :=
  match d with
  | [] => Raise KeyError
  | (k, v) :: d' => if K_eq_dec key k then Ok v else dict_getitem d' key
  end.

Fixpoint dict_remove (d : dict) (key : K) : dict :=
  match d with
  | [] => []
  | (k, v) :: d' => if K_eq_dec key k then d' else (k, v) :: dict_remove d' key
  end.

Definition dict_delitem (d : dict) (key : K) : result dict :=
  if dict_hasitem d key then Ok (dict_remove d key) else Raise KeyError.

(** [dict.__setitem__]: a key already present keeps its position and takes
    the new value, a new key is appended at the tail. *)
Fixpoint dict_setitem (d : dict) (key : K) (value : V) : dict :=
  match d with
  | [] => [(key, value)]
  | (k, v) :: d' =>
      if K_eq_dec key k then (k, value) :: d'
      else (k, v) :: dict_setitem d' key value
  end.

Definition dict_len (d : dict) : Z := Z.of_nat (List.length d).

(** [next(dict.__iter__(d))] *)
Definition dict_iter_next (d : dict) : result K :=
  match d with
  | [] => Raise StopIteration
  | (k, _) :: _ => Ok k
  end.

(** *** [class LRUCacheStrong(dict)] *)

Record LRUCacheStrong := MkCache { items : dict; _size : Z }.

Definition __init__ (size : pyobj) : result LRUCacheStrong :=
  b <- isinstance size (PType int_t) ;;
  if negb b then Raise _BeartypeUtilLRUCacheException
  else
    match int_value size with
    | Some z =>
        if z <=? 0 then Raise _BeartypeUtilLRUCacheException
        else Ok (MkCache [] z)
    | None => Raise TypeError
    end.

Definition __getitem__ (self : LRUCacheStrong) (key : K)
  : result (V * LRUCacheStrong) :=
  value <- dict_getitem (items self) key ;;
  d1 <- dict_delitem (items self) key ;;
  let d2 := dict_setitem d1 key value in
  Ok (value, MkCache d2 (_size self)).

Definition __setitem__ (self : LRUCacheStrong) (key : K) (value : V)
  : result LRUCacheStrong :=
  d1 <- (if dict_hasitem (items self) key
         then dict_delitem (items self) key
         else Ok (items self)) ;;
  let d2 := dict_setitem d1 key value in
  if dict_len d2 >? _size self then
    first <- dict_iter_next d2 ;;
    d3 <- dict_delitem d2 first ;;
    Ok (MkCache d3 (_size self))
  else Ok (MkCache d2 (_size self)).

(** Successive [cache[k] = v] statements, stopping at the first exception. *)
Fixpoint put_all (self : LRUCacheStrong) (kvs : list (K * V))
  : result LRUCacheStrong :=
  match kvs with
  | [] => Ok self
  | (k, v) :: kvs' => c <- __setitem__ self k v ;; put_all c kvs'
  end.

(** The states a cache goes through: distinct keys, never more entries than
    the capacity, which is positive. *)
Definition lru_inv (c : LRUCacheStrong) : Prop :=
  NoDup (keys (items c)) /\ dict_len (items c) <= _size c /\ 1 <= _size c.

End Cache.

Arguments MkCache {K V} items _size.
Arguments items {K V} _.
Arguments _size {K V} _.
Arguments __init__ {K V} size.
Arguments __getitem__ {K V} K_eq_dec self key.
Arguments __setitem__ {K V} K_eq_dec self key value.
Arguments put_all {K V} K_eq_dec self kvs.
Arguments lru_inv {K V} c.
Arguments keys {K V} d.
Arguments dict_hasitem {K V} K_eq_dec d key.
Arguments dict_getitem {K V} K_eq_dec d key.
Arguments dict_remove {K V} K_eq_dec d key.
Arguments dict_delitem {K V} K_eq_dec d key.
Arguments dict_setitem {K V} K_eq_dec d key value.
Arguments dict_len {K V} d.
Arguments dict_iter_next {K V} d.

End LRU.

(** ** beartype/_util/cls/utilclstest.py *)

Module ClsTest.

(** Modelled from the spec: [TestableTypes] of [beartype._cave._cavefast],
    imported here as [TestableTypesTuple], is declared outside this module.
    By its use below and the assertion message (neither class nor tuple of
    classes) it is the tuple of the types accepted as second parameter of
    [isinstance] and [issubclass]: classes and tuples. *)
Definition TestableTypesTuple : pyobj := PTuple [PType type_t; PType tuple_t].

Definition is_type_subclass (cls : pyobj) (base_classes : pyobj) : result bool :=
  ok <- isinstance base_classes TestableTypesTuple ;;
  if negb ok then Raise AssertionError
  else
    is_type <- isinstance cls (PType type_t) ;;
    if is_type then issubclass cls base_classes else Ok false.

(** A class or a non-empty tuple of classes. *)
Definition valid_base_classes (base_classes : pyobj) : bool :=
  match base_classes with
  | PType _ => true
  | PTuple (x :: l) => forallb is_class (x :: l)
  | _ => false
  end.

(** The classes named by a valid [base_classes] argument. *)
Definition classes_of (base_classes : pyobj) : list pytype :=
  match base_classes with
  | PType b => [b]
  | PTuple l =>
      flat_map (fun x => match x with PType b => [b] | _ => [] end) l
  | _ => []
  end.

End ClsTest.

(** ** beartype/_decor/_code/_pep/_pepsnip.py: placeholders *)

Module Str.

(** [old in s] *)
Fixpoint is_substring (old s : string) : bool :=
  prefix old s ||
  match s with
  | EmptyString => false
  | String _ s' => is_substring old s'
  end.

Fixpoint drop (n : nat) (s : string) : string :=
  match n, s with
  | O, _ => s
  | S _, EmptyString => EmptyString
  | S k, String _ s' => drop k s'
  end.

(** Left-to-right scan of [str.replace] for a non-empty [old]: [skip] counts
    the characters of the current match still to be passed over. *)
Fixpoint replace_scan (old new : string) (skip : nat) (s : string) : string :=
  match s with
  | EmptyString => EmptyString
  | String c s' =>
      match skip with
      | S k => replace_scan old new k s'
      | O =>
          if prefix old s
          then (new ++ replace_scan old new (String.length old - 1) s')%string
          else String c (replace_scan old new 0 s')
      end
  end.

(** [str.replace] for the empty [old]: [new] goes before every character and
    at the end. *)
Fixpoint replace_empty (new s : string) : string :=
  match s with
  | EmptyString => new
  | String c s' => (new ++ String c (replace_empty new s'))%string
  end.

(** [c in s] for a character [c] *)
Fixpoint has_char (c : ascii) (s : string) : bool :=
  match s with
  | EmptyString => false
  | String d s' => Ascii.eqb c d || has_char c s'
  end.

(** [s.replace(old, new)]: every non-overlapping occurrence, leftmost first. *)
Definition str_replace (s old new : string) : string :=
  match old with
  | EmptyString => replace_empty new s
  | String _ _ => replace_scan old new 0 s
  end.

Definition PEP_CODE_PITH_ROOT_PARAM_NAME_PLACEHOLDER : string := "?|PITH_ROOT_NAME`^".

Definition PEP_CODE_HINT_CHILD_PLACEHOLDER_PREFIX : string := "@[".

Definition PEP_CODE_HINT_CHILD_PLACEHOLDER_SUFFIX : string := ")!".

Definition PEP_CODE_HINT_FORWARDREF_UNQUALIFIED_PLACEHOLDER_PREFIX : string := "${FORWARDREF:".

Definition PEP_CODE_HINT_FORWARDREF_UNQUALIFIED_PLACEHOLDER_SUFFIX : string := "]?".

(** The three placeholder families and their delimiters. *)
Inductive family := ChildSlot | ForwardRef | RootName.

Definition delimiters (f : family) : list string :=
  match f with
  | ChildSlot =>
      [PEP_CODE_HINT_CHILD_PLACEHOLDER_PREFIX;
       PEP_CODE_HINT_CHILD_PLACEHOLDER_SUFFIX]
  | ForwardRef =>
      [PEP_CODE_HINT_FORWARDREF_UNQUALIFIED_PLACEHOLDER_PREFIX;
       PEP_CODE_HINT_FORWARDREF_UNQUALIFIED_PLACEHOLDER_SUFFIX]
  | RootName => [PEP_CODE_PITH_ROOT_PARAM_NAME_PLACEHOLDER]
  end.

Definition family_eqb (f g : family) : bool :=
  match f, g with
  | ChildSlot, ChildSlot | ForwardRef, ForwardRef | RootName, RootName => true
  | _, _ => false
  end.

Definition families : list family := [ChildSlot; ForwardRef; RootName].

(** Modelled from the spec: the call sites substituting the root pith name
    ([pep_code_check_param] and [pep_code_check_return]) are outside this
    module.  By the docstring of the placeholder and section 4.2 of
    the specification, the substitution is a global string replacement of the
    placeholder by the name, done on the cached template. *)
Definition substitute_root_name (template name : string) : string :=
  str_replace template PEP_CODE_PITH_ROOT_PARAM_NAME_PLACEHOLDER name.

Definition is_identifier_start (c : ascii) : bool :=
  let n := nat_of_ascii c in
  ((65 <=? n) && (n <=? 90) || (97 <=? n) && (n <=? 122) || (n =? 95) || (128 <=? n))%nat.

Definition is_identifier_continue (c : ascii) : bool :=
  let n := nat_of_ascii c in
  (is_identifier_start c || (48 <=? n) && (n <=? 57))%nat.

Fixpoint all_chars (p : ascii -> bool) (s : string) : bool :=
  match s with
  | EmptyString => true
  | String c s' => p c && all_chars p s'
  end.

(** [name.isidentifier()], on the UTF-8 bytes of the name: a letter, an
    underscore or a non-ASCII byte, followed by these or digits. *)
Definition is_identifier (name : string) : bool :=
  match name with
  | EmptyString => false
  | String c s' => is_identifier_start c && all_chars is_identifier_continue s'
  end.

End Str.

(** ** beartype/_decor/_code/_pep/_pepsnip.py: templates *)

Module Template.

Import Str.

Local Open Scope string_scope.

(** Modelled from the spec: the placeholders of the three families
    ([CodeTemplate], section 3 of the specification).  The text between the
    delimiters of a child slot and of a forward reference is set by the
    generator, outside this module: the identifier of the child, resp. the
    unqualified classname referred to. *)
Inductive placeholder :=
| Child (id : string)
| Forward (classname : string)
| Root.

Definition family_of (p : placeholder) : family :=
  match p with
  | Child _ => ChildSlot
  | Forward _ => ForwardRef
  | Root => RootName
  end.

Definition placeholder_text (p : placeholder) : string :=
  match p with
  | Child id =>
      PEP_CODE_HINT_CHILD_PLACEHOLDER_PREFIX ++ id
      ++ PEP_CODE_HINT_CHILD_PLACEHOLDER_SUFFIX
  | Forward classname =>
      PEP_CODE_HINT_FORWARDREF_UNQUALIFIED_PLACEHOLDER_PREFIX ++ classname
      ++ PEP_CODE_HINT_FORWARDREF_UNQUALIFIED_PLACEHOLDER_SUFFIX
  | Root => PEP_CODE_PITH_ROOT_PARAM_NAME_PLACEHOLDER
  end.

Definition placeholder_eqb (p q : placeholder) : bool :=
  match p, q with
  | Child a, Child b => String.eqb a b
  | Forward a, Forward b => String.eqb a b
  | Root, Root => true
  | _, _ => false
  end.

(** Modelled from the spec: a code template ([CodeTemplate], section 3 of
    the specification) is code text holding zero or more placeholders: the
    text of snippets, with names and expressions filled in, and a placeholder
    wherever code, a class or the root pith name is spliced in later. *)
Inductive piece :=
| Text (s : string)
| Slot (p : placeholder).

Definition piece_text (x : piece) : string :=
  match x with
  | Text s => s
  | Slot p => placeholder_text p
  end.

(** The string a template is. *)
Fixpoint render (t : list piece) : string :=
  match t with
  | [] => ""
  | x :: t' => piece_text x ++ render t'
  end.

(** The template with [new] in every slot of the placeholder [p], the other
    slots and the text as they are. *)
Definition splice (p : placeholder) (new : string) (t : list piece) : list piece :=
  map (fun x => match x with
                | Slot q => if placeholder_eqb q p then Text new else x
                | Text _ => x
                end) t.

(** A character each placeholder of the family holds once, and which the
    code between the placeholders does without: no snippet of this module
    holds any of the three (nor a question mark, a bar or a caret), and
    neither the dollar sign nor the backtick is a token of Python. *)
Definition marker (f : family) : ascii :=
  match f with
  | ChildSlot => "@"%char
  | ForwardRef => "$"%char
  | RootName => "`"%char
  end.

(** The identifier of a child and the classname of a forward reference are
    made of letters, digits and underscores. *)
Definition wf_placeholder (p : placeholder) : bool :=
  match p with
  | Child id => all_chars is_identifier_continue id
  | Forward classname => all_chars is_identifier_continue classname
  | Root => true
  end.

(** A template whose text is free of the marker of the family [f]. *)
Definition wf_piece (f : family) (x : piece) : bool :=
  match x with
  | Text s => negb (has_char (marker f) s)
  | Slot p => wf_placeholder p
  end.

Definition wf_template (f : family) (t : list piece) : bool := forallb (wf_piece f) t.

Definition newline : string := String (ascii_of_nat 10) "".

(** [PEP_CODE_HINT_ROOT_SUFFIX], the one snippet holding the root-name
    placeholder, as a function of the names it is formatted with. *)
Definition PEP_CODE_HINT_ROOT_SUFFIX
  (ARG_NAME_RAISE_EXCEPTION ARG_NAME_FUNC VAR_NAME_PITH_ROOT random_int_if_any : string)
  : list piece :=
  [Text (":" ++ newline
         ++ "            " ++ ARG_NAME_RAISE_EXCEPTION ++ "(" ++ newline
         ++ "                func=" ++ ARG_NAME_FUNC ++ "," ++ newline
         ++ "                pith_name=");
   Slot Root;
   Text ("," ++ newline
         ++ "                pith_value=" ++ VAR_NAME_PITH_ROOT ++ "," ++ random_int_if_any
         ++ newline
         ++ "            )" ++ newline)].

(** [repr(name)] for a name without quote, backslash or unprintable
    character, as identifiers are: the name between single quotes. *)
Definition repr (name : string) : string := "'" ++ name ++ "'".

End Template.

(** ** beartype/_decor/_code/_pep/_pepsnip.py: code snippets *)

Module Snip.

(** Modelled from the spec: the names of the local variables of the generated
    code ([VAR_NAME_PITH_ROOT], [VAR_NAME_RANDOM_INT] and the prefix of the
    depth-scoped pith variables) are declared in [beartype._decor._code.codesnip],
    outside this module.  Section 4.4 of the specification
    asks for one name per depth, deterministic and free of collisions; the
    root pith is the pith variable of depth 0. *)
Inductive var :=
| VarPith (depth : nat)
| VarRandomInt.

Definition VAR_NAME_PITH_ROOT : var := VarPith 0.
Definition VAR_NAME_RANDOM_INT : var := VarRandomInt.

Definition var_eqb (x y : var) : bool :=
  match x, y with
  | VarPith a, VarPith b => (a =? b)%nat
  | VarRandomInt, VarRandomInt => true
  | _, _ => false
  end.

(** The Python expressions the snippets are made of.  A snippet is a format
    string; its embedding is the function from the values of its format
    variables to the expression denoted by the formatted text (comments and
    indentation have no counterpart). *)
Inductive expr :=
| Name (x : var)
| Const (o : pyobj)
| NamedExpr (x : var) (e : expr)
| Isinstance (e classinfo : expr)
| Len (e : expr)
| Subscript (e index : expr)
| BinMod (a b : expr)
| CompareEq (a b : expr)
| UnaryNot (e : expr)
| BoolAnd (a b : expr)
| BoolOr (a b : expr).

(** Local scope of the wrapper function. *)
Definition env := var -> option pyobj.

Definition assign (rho : env) (x : var) (v : pyobj) : env :=
  fun y => if var_eqb x y then Some v else rho y.

Definition lift {A : Type} (rho : env) (m : result A) : result (A * env) :=
  a <- m ;; Ok (a, rho).

(** Evaluation, left to right, threading the local scope through the
    assignment expressions; [and] and [or] short-circuit and yield the
    operand that decided them. *)
Fixpoint eval (e : expr) (rho : env) : result (pyobj * env) :=
  match e with
  | Name x =>
      match rho x with
      | Some v => Ok (v, rho)
      | None => Raise NameError
      end
  | Const o => Ok (o, rho)
  | NamedExpr x e1 =>
      r1 <- eval e1 rho ;;
      Ok (fst r1, assign (snd r1) x (fst r1))
  | Isinstance e1 e2 =>
      r1 <- eval e1 rho ;;
      r2 <- eval e2 (snd r1) ;;
      b <- isinstance (fst r1) (fst r2) ;;
      Ok (PBool b, snd r2)
  | Len e1 =>
      r1 <- eval e1 rho ;;
      lift (snd r1) (len (fst r1))
  | Subscript e1 e2 =>
      r1 <- eval e1 rho ;;
      r2 <- eval e2 (snd r1) ;;
      lift (snd r2) (getitem (fst r1) (fst r2))
  | BinMod e1 e2 =>
      r1 <- eval e1 rho ;;
      r2 <- eval e2 (snd r1) ;;
      lift (snd r2) (mod_ (fst r1) (fst r2))
  | CompareEq e1 e2 =>
      r1 <- eval e1 rho ;;
      r2 <- eval e2 (snd r1) ;;
      Ok (PBool (__eq__ (fst r1) (fst r2)), snd r2)
  | UnaryNot e1 =>
      r1 <- eval e1 rho ;;
      Ok (PBool (negb (truthy (fst r1))), snd r1)
  | BoolAnd e1 e2 =>
      r1 <- eval e1 rho ;;
      if truthy (fst r1) then eval e2 (snd r1) else Ok r1
  | BoolOr e1 e2 =>
      r1 <- eval e1 rho ;;
      if truthy (fst r1) then Ok r1 else eval e2 (snd r1)
  end.

(** [e1 and e2 and ... and en], for [first :: rest = [e1; ...; en]]: the
    snippets of a parent end in the operator, which the caller slices off
    the last one. *)
Fixpoint conj (first : expr) (rest : list expr) : expr :=
  match rest with
  | [] => first
  | e :: rest' => BoolAnd first (conj e rest')
  end.

(** [e1 or e2 or ... or en] *)
Fixpoint disj (first : expr) (rest : list expr) : expr :=
  match rest with
  | [] => first
  | e :: rest' => BoolOr first (disj e rest')
  end.

(** *** The snippets *)

(** [{pith_curr_var_name} := {pith_curr_expr}] *)
Definition PEP_CODE_PITH_ASSIGN_EXPR (pith_curr_var_name : var) (pith_curr_expr : expr) : expr :=
  NamedExpr pith_curr_var_name pith_curr_expr.

(** [isinstance({pith_curr_expr}, {hint_curr_expr})] *)
Definition PEP484_CODE_HINT_INSTANCE (pith_curr_expr hint_curr_expr : expr) : expr :=
  Isinstance pith_curr_expr hint_curr_expr.

(** [( isinstance({pith_curr_assign_expr}, {hint_curr_expr}) and
       (not {pith_curr_var_name} or {hint_child_placeholder}) )] *)
Definition PEP484585_CODE_HINT_SEQUENCE_ARGS_1
  (pith_curr_assign_expr hint_curr_expr : expr) (pith_curr_var_name : var)
  (hint_child_placeholder : expr) : expr :=
  BoolAnd (Isinstance pith_curr_assign_expr hint_curr_expr)
      (BoolOr (UnaryNot (Name pith_curr_var_name)) hint_child_placeholder).

(** [{pith_curr_var_name}[{VAR_NAME_RANDOM_INT} % len({pith_curr_var_name})]] *)
Definition PEP484585_CODE_HINT_SEQUENCE_ARGS_1_PITH_CHILD_EXPR
  (pith_curr_var_name : var) : expr :=
  Subscript (Name pith_curr_var_name)
            (BinMod (Name VAR_NAME_RANDOM_INT) (Len (Name pith_curr_var_name))).

(** [( isinstance({pith_curr_assign_expr}, tuple) and] *)
Definition PEP484585_CODE_HINT_TUPLE_FIXED_PREFIX (pith_curr_assign_expr : expr) : expr :=
  Isinstance pith_curr_assign_expr (Const (PType tuple_t)).

(** [not {pith_curr_var_name} and] *)
Definition PEP484585_CODE_HINT_TUPLE_FIXED_EMPTY (pith_curr_var_name : var) : expr :=
  UnaryNot (Name pith_curr_var_name).

(** [len({pith_curr_var_name}) == {hint_childs_len} and] *)
Definition PEP484585_CODE_HINT_TUPLE_FIXED_LEN
  (pith_curr_var_name : var) (hint_childs_len : nat) : expr :=
  CompareEq (Len (Name pith_curr_var_name)) (Const (PInt (Z.of_nat hint_childs_len))).

(** [{hint_child_placeholder} and] *)
Definition PEP484585_CODE_HINT_TUPLE_FIXED_NONEMPTY_CHILD (hint_child_placeholder : expr) : expr :=
  hint_child_placeholder.

(** [{pith_curr_var_name}[{pith_child_index}]] *)
Definition PEP484585_CODE_HINT_TUPLE_FIXED_NONEMPTY_PITH_CHILD_EXPR
  (pith_curr_var_name : var) (pith_child_index : nat) : expr :=
  Subscript (Name pith_curr_var_name) (Const (PInt (Z.of_nat pith_child_index))).

(** [{hint_child_placeholder} or] *)
Definition PEP484_CODE_HINT_UNION_CHILD_PEP (hint_child_placeholder : expr) : expr :=
  hint_child_placeholder.

(** [isinstance({pith_curr_expr}, {hint_curr_expr}) or] *)
Definition PEP484_CODE_HINT_UNION_CHILD_NONPEP (pith_curr_expr hint_curr_expr : expr) : expr :=
  Isinstance pith_curr_expr hint_curr_expr.

(** *** The generator *)

(** Modelled from the spec: the hint tree of section 3 of the specification,
    restricted to the kinds the properties below are about.  An instance
    check is the only plain (non-polymorphic) kind; a fixed-length tuple
    without children is the explicit empty-tuple form. *)
Inductive hint :=
| HintInstance (origin : pytype)
| HintUnion (children : list hint)
| HintSequence (origin : pytype) (child : hint)
| HintTupleFixed (children : list hint).

Definition is_plain (h : hint) : bool :=
  match h with
  | HintInstance _ => true
  | _ => false
  end.

(** The plain-type children of a union, in order, as classes. *)
Fixpoint plain_types (children : list hint) : list pyobj :=
  match children with
  | [] => []
  | HintInstance c :: rest => PType c :: plain_types rest
  | _ :: rest => plain_types rest
  end.

(** Modelled from the spec: the part of the generator (see
    [pep_code_check_hint] below) for the children of a fixed-length tuple,
    each against the item of its index; [code_check] generates the code of
    a child. *)
Fixpoint tuple_childs (code_check : hint -> expr -> result expr)
  (pith_curr_var_name : var) (cs : list hint) (pith_child_index : nat)
  : result (list expr) :=
  match cs with
  | [] => Ok []
  | c :: cs' =>
      code <- code_check c
                (PEP484585_CODE_HINT_TUPLE_FIXED_NONEMPTY_PITH_CHILD_EXPR
                   pith_curr_var_name pith_child_index) ;;
      codes <- tuple_childs code_check pith_curr_var_name cs' (S pith_child_index) ;;
      Ok (PEP484585_CODE_HINT_TUPLE_FIXED_NONEMPTY_CHILD code :: codes)
  end.

(** Modelled from the spec: the part of the generator for the children of a
    union that are not plain types, in order: the first test of the union
    binds the pith variable, the others read it. *)
Fixpoint union_childs (code_check : hint -> expr -> result expr)
  (pith_curr_assign_expr : expr) (pith_curr_var_name : var)
  (cs : list hint) (first : bool) : result (list expr) :=
  match cs with
  | [] => Ok []
  | c :: cs' =>
      if is_plain c
      then union_childs code_check pith_curr_assign_expr pith_curr_var_name cs' first
      else
        code <- code_check c (if first then pith_curr_assign_expr
                              else Name pith_curr_var_name) ;;
        codes <- union_childs code_check pith_curr_assign_expr pith_curr_var_name cs' false ;;
        Ok (PEP484_CODE_HINT_UNION_CHILD_PEP code :: codes)
  end.

(** Modelled from the spec: [pep_code_check_hint] of
    [beartype._decor._code._pep._pephint], the generator assembling the
    snippets, is outside this module.  Following section 4.1 of
    the specification, per kind:
    - instance check: [isinstance(pith, origin)];
    - union: a left-to-right disjunction, the plain-type children first, by
      one [isinstance] against the tuple of all of them, then the other
      children one by one; a union without children is malformed;
    - sequence: [isinstance(pith, origin)] and (the sequence is empty or the
      child holds of the item at the random index);
    - fixed-length tuple: [isinstance(pith, tuple)] and [len(pith) == N] and,
      for the empty-tuple form, the emptiness test, otherwise each child
      against the item of its index.
    Each composite node at depth [depth] binds the pith variable of that
    depth in its first test, and its children read that variable. *)
Fixpoint pep_code_check_hint (h : hint) (pith_curr_expr : expr) (depth : nat)
  {struct h} : result expr :=
  let pith_curr_var_name := VarPith depth in
  let pith_curr_assign_expr := PEP_CODE_PITH_ASSIGN_EXPR pith_curr_var_name pith_curr_expr in
  match h with
  | HintInstance origin =>
      Ok (PEP484_CODE_HINT_INSTANCE pith_curr_expr (Const (PType origin)))
  | HintUnion children =>
      let hint_childs_nonpep := plain_types children in
      pep <- union_childs (fun c e => pep_code_check_hint c e (S depth))
               pith_curr_assign_expr pith_curr_var_name children
               (match hint_childs_nonpep with [] => true | _ :: _ => false end) ;;
      match hint_childs_nonpep, pep with
      | [], [] => Raise MalformedHint
      | [], code :: codes => Ok (disj code codes)
      | _ :: _, [] =>
          Ok (PEP484_CODE_HINT_UNION_CHILD_NONPEP pith_curr_expr
                (Const (PTuple hint_childs_nonpep)))
      | _ :: _, _ :: _ =>
          Ok (disj (PEP484_CODE_HINT_UNION_CHILD_NONPEP pith_curr_assign_expr
                      (Const (PTuple hint_childs_nonpep))) pep)
      end
  | HintSequence origin child =>
      code <- pep_code_check_hint child
                (PEP484585_CODE_HINT_SEQUENCE_ARGS_1_PITH_CHILD_EXPR pith_curr_var_name)
                (S depth) ;;
      Ok (PEP484585_CODE_HINT_SEQUENCE_ARGS_1 pith_curr_assign_expr
            (Const (PType origin)) pith_curr_var_name code)
  | HintTupleFixed children =>
      codes <- tuple_childs (fun c e => pep_code_check_hint c e (S depth))
                 pith_curr_var_name children 0%nat ;;
      Ok (conj (PEP484585_CODE_HINT_TUPLE_FIXED_PREFIX pith_curr_assign_expr)
               (PEP484585_CODE_HINT_TUPLE_FIXED_LEN pith_curr_var_name (List.length children)
                :: match children with
                   | [] => [PEP484585_CODE_HINT_TUPLE_FIXED_EMPTY pith_curr_var_name]
                   | _ :: _ => codes
                   end))
  end.

(** Local scope of a call checking the root pith [v] with the random integer
    [random_int] of that call. *)
Definition scope (v : pyobj) (random_int : Z) : env :=
  assign (assign (fun _ => None) VAR_NAME_RANDOM_INT (PInt random_int)) VAR_NAME_PITH_ROOT v.

(** The generated check of a hint applied to a value: the truth value of the
    code generated for the root pith, as tested by the [if not] of
    [PEP_CODE_HINT_ROOT_PREFIX]. *)
Definition check (h : hint) (v : pyobj) (random_int : Z) : result bool :=
  code <- pep_code_check_hint h (Name VAR_NAME_PITH_ROOT) 1%nat ;;
  r <- eval code (scope v random_int) ;;
  Ok (truthy (fst r)).

(** Classes all of whose instances are sequences. *)
Definition is_sequence_type (t : pytype) : bool :=
  (__name__ t =? "str")%string || (__name__ t =? "tuple")%string
  || (__name__ t =? "list")%string.

Definition value_types : list pytype :=
  [int_t; bool_t; str_t; NoneType_t; tuple_t; list_t; type_t; object_t].

Definition sequence_origin (origin : pytype) : bool :=
  forallb (fun t => implb (type_issubclass t origin) (is_sequence_type t)) value_types.

(** Hint trees as the collaborators hand them over: a union has children, the
    origin of a sequence hint is a sequence type. *)
Fixpoint wf_hint (h : hint) : bool :=
  match h with
  | HintInstance _ => true
  | HintUnion children =>
      match children with [] => false | _ :: _ => true end
      && forallb wf_hint children
  | HintSequence origin child => sequence_origin origin && wf_hint child
  | HintTupleFixed children => forallb wf_hint children
  end.

(** Each hint of [cs] against the item of [l] of the same index. *)
Fixpoint all_conform (conforms : hint -> pyobj -> bool) (cs : list hint) (l : list pyobj)
  : bool :=
  match cs, l with
  | c :: cs', x :: l' => conforms c x && all_conform conforms cs' l'
  | _, _ => true
  end.

(** What a hint asks of a value, read off section 4.1 of the specification:
    the reference the generated code is compared with. *)
Fixpoint conforms (h : hint) (v : pyobj) (random_int : Z) {struct h} : bool :=
  match h with
  | HintInstance origin => type_issubclass (type_of v) origin
  | HintUnion children => existsb (fun c => conforms c v random_int) children
  | HintSequence origin child =>
      type_issubclass (type_of v) origin &&
      match seq_items v with
      | Some [] => true
      | Some (x :: l) =>
          conforms child
            (nth (Z.to_nat (random_int mod Z.of_nat (List.length (x :: l)))) (x :: l) PNone)
            random_int
      | None => false
      end
  | HintTupleFixed children =>
      type_issubclass (type_of v) tuple_t &&
      match seq_items v with
      | Some l =>
          (List.length l =? List.length children)%nat &&
          all_conform (fun c x => conforms c x random_int) children l
      | None => false
      end
  end.

(** The variables a node at depth [depth] leaves alone: the random integer
    and the pith variables of the depths above. *)
Definition below (depth : nat) (x : var) : bool :=
  match x with
  | VarPith k => (k <? depth)%nat
  | VarRandomInt => true
  end.

Definition agree (depth : nat) (rho1 rho2 : env) : Prop :=
  forall x, below depth x = true -> rho2 x = rho1 x.

(** The children of a union that are plain types, resp. the others, one of
    which the value conforms to. *)
Definition plain_conforms (conforms : hint -> bool) (cs : list hint) : bool :=
  existsb (fun c => is_plain c && conforms c) cs.

Definition pep_conforms (conforms : hint -> bool) (cs : list hint) : bool :=
  existsb (fun c => negb (is_plain c) && conforms c) cs.

(** The code generated for a well-formed hint, run where the pith expression
    yields [v], yields whether [v] conforms and leaves alone the variables of
    the depths above. *)
Definition generated_correct (h : hint) : Prop :=
  wf_hint h = true ->
  forall pith_curr_expr depth code rho v rho1 random_int,
    pep_code_check_hint h pith_curr_expr depth = Ok code ->
    eval pith_curr_expr rho = Ok (v, rho1) ->
    rho1 VAR_NAME_RANDOM_INT = Some (PInt random_int) ->
    exists rho2,
      eval code rho = Ok (PBool (conforms h v random_int), rho2) /\
      agree depth rho1 rho2.

End Snip.

(** ** Uses of the LRU cache *)

Module LRUOps.

Import LRU.

Section Ops.

Variable K V : Type.
Variable K_eq_dec : forall a b : K, {a = b} + {a <> b}.

(** A use of the cache by a caller: [cache[key]] or [cache[key] = value]. *)
Inductive op :=
| Get (key : K)
| Put (key : K) (value : V).

Definition op_key (o : op) : K :=
  match o with
  | Get key => key
  | Put key _ => key
  end.

(** One use.  [__getitem__] raises [KeyError] from [dict.__getitem__], its
    first statement, before it touches the cache: a caller catching it goes
    on with the cache as it was. *)
Definition step (self : LRUCacheStrong K V) (o : op) : result (LRUCacheStrong K V) :=
  match o with
  | Get key =>
      match __getitem__ K_eq_dec self key with
      | Ok (_, self') => Ok self'
      | Raise KeyError => Ok self
      | Raise e => Raise e
      end
  | Put key value => __setitem__ K_eq_dec self key value
  end.

Fixpoint run (self : LRUCacheStrong K V) (ops : list op) : result (LRUCacheStrong K V) :=
  match ops with
  | [] => Ok self
  | o :: ops' => c <- step self o ;; run c ops'
  end.

(** The entries a sequence of puts leaves in a dictionary without bound that
    moves each written key to its tail: the keys in the order of their last
    write, each with the value last written. *)
Fixpoint last_writes (acc : dict K V) (kvs : list (K * V)) : dict K V :=
  match kvs with
  | [] => acc
  | (k, v) :: kvs' => last_writes (dict_remove K_eq_dec acc k ++ [(k, v)]) kvs'
  end.

(** The last [n] entries of a list. *)
Definition lastn {A : Type} (n : nat) (l : list A) : list A :=
  skipn (List.length l - n) l.

End Ops.

Arguments Get {K V} key.
Arguments Put {K V} key value.
Arguments op_key {K V} o.
Arguments step {K V} K_eq_dec self o.
Arguments run {K V} K_eq_dec self ops.
Arguments last_writes {K V} K_eq_dec acc kvs.

End LRUOps.

(** ** beartype/_decor/_code/_pep/_pepsnip.py: further snippets *)

Module SnipMore.

Import Snip.

(** [( isinstance({pith_curr_assign_expr}, type) and
       issubclass({pith_curr_var_name}, {hint_curr_expr}) )]
    The builtin [issubclass] is no constructor of [expr]: the snippet is
    given by its evaluation, operand by operand as [eval] does for [and]. *)
Definition PEP484585_CODE_HINT_SUBCLASS (pith_curr_assign_expr : expr)
  (pith_curr_var_name : var) (hint_curr_expr : expr) (rho : env)
  : result (pyobj * env) :=
  r1 <- eval (Isinstance pith_curr_assign_expr (Const (PType type_t))) rho ;;
  if truthy (fst r1)
  then
    r2 <- eval (Name pith_curr_var_name) (snd r1) ;;
    r3 <- eval hint_curr_expr (snd r2) ;;
    b <- issubclass (fst r2) (fst r3) ;;
    Ok (PBool b, snd r3)
  else Ok r1.

(** [( isinstance({pith_curr_assign_expr}, {hint_child_types_expr}) and (] *)
Definition PEP586_CODE_HINT_PREFIX (pith_curr_assign_expr hint_child_types_expr : expr)
  : expr :=
  Isinstance pith_curr_assign_expr hint_child_types_expr.

(** [{pith_curr_var_name} == {hint_child_expr} or] *)
Definition PEP586_CODE_HINT_LITERAL (pith_curr_var_name : var) (hint_child_expr : expr)
  : expr :=
  CompareEq (Name pith_curr_var_name) hint_child_expr.

(** Modelled from the spec: the part of the generator for a literal hint is
    outside this module.  Following section 4.1 of the specification and the
    parentheses of the snippets, the code is the prefix, one literal snippet
    per literal object, in order, the operator sliced off the last one, and
    the suffix: [( isinstance(pith, types) and ( pith == l1 or ... ) )]. *)
Definition pep586_code (pith_curr_assign_expr : expr) (pith_curr_var_name : var)
  (hint_child_types_expr : expr) (hint_child_expr : expr) (hint_child_exprs : list expr)
  : expr :=
  BoolAnd (PEP586_CODE_HINT_PREFIX pith_curr_assign_expr hint_child_types_expr)
          (disj (PEP586_CODE_HINT_LITERAL pith_curr_var_name hint_child_expr)
                (map (PEP586_CODE_HINT_LITERAL pith_curr_var_name) hint_child_exprs)).

End SnipMore.

(** * Theorems *)

(** ** The LRU cache *)

Import LRU.

Section LRUFacts.

Variable K V : Type.
Variable K_eq_dec : forall a b : K, {a = b} + {a <> b}.

Local Abbreviation hasitem := (dict_hasitem K_eq_dec).
Local Abbreviation getitem := (dict_getitem K_eq_dec).
Local Abbreviation remove := (dict_remove K_eq_dec).
Local Abbreviation delitem := (dict_delitem K_eq_dec).
Local Abbreviation setitem := (dict_setitem K_eq_dec).
Local Abbreviation cache := (@LRUCacheStrong K V).

Lemma hasitem_In (d : list (K * V)) k : hasitem d k = true <-> In k (keys d).
Proof.
  induction d as [|[k' v'] d IH]; simpl.
  - split; [discriminate | tauto].
  - destruct (K_eq_dec k k') as [->|Hne].
    + split; auto.
    + rewrite IH. split; [auto | intros [H|H]; [congruence | assumption]].
Qed.

Lemma hasitem_false (d : list (K * V)) k : hasitem d k = false <-> ~ In k (keys d).
Proof.
  rewrite <- hasitem_In. destruct (hasitem d k); split; congruence.
Qed.

Lemma hasitem_app (d1 d2 : list (K * V)) k :
  hasitem (d1 ++ d2) k = hasitem d1 k || hasitem d2 k.
Proof.
  induction d1 as [|[k' v'] d1 IH]; simpl; [reflexivity|].
  destruct (K_eq_dec k k'); auto.
Qed.

Lemma setitem_absent (d : list (K * V)) k v :
  hasitem d k = false -> setitem d k v = d ++ [(k, v)].
Proof.
  induction d as [|[k' v'] d IH]; simpl; [reflexivity|].
  destruct (K_eq_dec k k'); [discriminate|]. intros H. now rewrite IH.
Qed.

Lemma keys_remove_incl (d : list (K * V)) k x :
  In x (keys (remove d k)) -> In x (keys d).
Proof.
  induction d as [|[k' v'] d IH]; simpl; [tauto|].
  destruct (K_eq_dec k k'); simpl; tauto.
Qed.

Lemma NoDup_remove (d : list (K * V)) k :
  NoDup (keys d) -> NoDup (keys (remove d k)) /\ ~ In k (keys (remove d k)).
Proof.
  induction d as [|[k' v'] d IH]; simpl; intros H.
  - split; [constructor | tauto].
  - inversion H as [|? ? Hnotin Hnd]; subst.
    destruct (K_eq_dec k k') as [->|Hne]; simpl.
    + split; assumption.
    + destruct (IH Hnd) as [H1 H2]. split.
      * constructor; [|assumption]. intros Hin. apply Hnotin.
        now apply keys_remove_incl in Hin.
      * intros [E|Hin]; [congruence | tauto].
Qed.

Lemma length_remove (d : list (K * V)) k :
  hasitem d k = true -> S (List.length (remove d k)) = List.length d.
Proof.
  induction d as [|[k' v'] d IH]; simpl; [discriminate|].
  destruct (K_eq_dec k k'); simpl; [reflexivity|]. intros H. now rewrite IH.
Qed.

Lemma getitem_present (d : list (K * V)) k :
  hasitem d k = true -> exists v, getitem d k = Ok v /\ In (k, v) d.
Proof.
  induction d as [|[k' v'] d IH]; simpl; [discriminate|].
  destruct (K_eq_dec k k') as [->|Hne].
  - intros _. exists v'. auto.
  - intros H. destruct (IH H) as [v [H1 H2]]. exists v. auto.
Qed.

Lemma getitem_In (d : list (K * V)) k v :
  NoDup (keys d) -> In (k, v) d -> getitem d k = Ok v.
Proof.
  induction d as [|[k' v'] d IH]; simpl; [tauto|].
  intros Hnd [E|Hin]; inversion Hnd as [|? ? Hnotin Hnd']; subst.
  - inversion E; subst. destruct (K_eq_dec k k); [reflexivity | congruence].
  - destruct (K_eq_dec k k') as [->|Hne]; [|auto].
    exfalso. apply Hnotin. change k' with (fst (k', v)). now apply in_map.
Qed.

(** [cache[key] = value] for a key the cache does not hold: the entry goes to
    the tail, and the head goes when the cache was full. *)
Lemma setitem_new (c : cache) k v :
  hasitem (items c) k = false ->
  __setitem__ K_eq_dec c k v =
  Ok (MkCache (if dict_len (items c ++ [(k, v)]) >? _size c
               then tl (items c ++ [(k, v)]) else items c ++ [(k, v)]) (_size c)).
Proof.
  intros H. unfold __setitem__. rewrite H. simpl.
  rewrite (setitem_absent _ _ _ H).
  destruct (dict_len (items c ++ [(k, v)]) >? _size c); [|reflexivity].
  destruct (items c) as [|[k' v'] d]; simpl.
  - unfold dict_delitem. simpl. destruct (K_eq_dec k k); [reflexivity | congruence].
  - unfold dict_delitem. simpl. destruct (K_eq_dec k' k'); [reflexivity | congruence].
Qed.

(** [cache[key] = value] for a key the cache holds: the entry moves to the
    tail with the new value and nothing is evicted. *)
Lemma setitem_present (c : cache) k v :
  lru_inv c -> hasitem (items c) k = true ->
  __setitem__ K_eq_dec c k v = Ok (MkCache (remove (items c) k ++ [(k, v)]) (_size c)).
Proof.
  intros (Hnd & Hlen & Hpos) H. unfold __setitem__, dict_delitem. rewrite H. simpl.
  destruct (NoDup_remove _ k Hnd) as [_ Hnotin].
  apply hasitem_false in Hnotin. rewrite (setitem_absent _ _ _ Hnotin).
  assert (Hl : dict_len (remove (items c) k ++ [(k, v)]) = dict_len (items c)).
  { unfold dict_len. rewrite length_app. simpl.
    rewrite <- (length_remove _ _ H). f_equal. lia. }
  rewrite Hl. destruct (dict_len (items c) >? _size c) eqn:E; [|reflexivity].
  apply Z.gtb_lt in E. lia.
Qed.

(** [cache[key]] for a key the cache holds: its value, and the entry moves
    to the tail. *)
Lemma getitem_moves (c : cache) k :
  lru_inv c -> hasitem (items c) k = true ->
  exists v, getitem (items c) k = Ok v /\
    __getitem__ K_eq_dec c k = Ok (v, MkCache (remove (items c) k ++ [(k, v)]) (_size c)).
Proof.
  intros (Hnd & _) H. destruct (getitem_present _ _ H) as [v [Hv _]].
  exists v. split; [assumption|].
  unfold __getitem__, dict_delitem. rewrite Hv, H. simpl.
  destruct (NoDup_remove _ k Hnd) as [_ Hnotin].
  apply hasitem_false in Hnotin. now rewrite (setitem_absent _ _ _ Hnotin).
Qed.

Lemma keys_app (d1 d2 : list (K * V)) : keys (d1 ++ d2) = keys d1 ++ keys d2.
Proof. apply map_app. Qed.

Lemma NoDup_tl (A : Type) (l : list A) : NoDup l -> NoDup (tl l).
Proof. destruct l; simpl; [auto|]. now inversion 1. Qed.

Lemma NoDup_snoc (A : Type) (l : list A) (x : A) :
  NoDup l -> ~ In x l -> NoDup (l ++ [x]).
Proof.
  intros Hnd Hx. induction Hnd as [|y l Hy Hnd IH]; simpl.
  - constructor; [tauto | constructor].
  - constructor.
    + rewrite in_app_iff. simpl. intros [H|[H|[]]]; [tauto|]. subst. apply Hx. now left.
    + apply IH. intros H. apply Hx. now right.
Qed.

Lemma in_tl (A : Type) (l : list A) (x : A) : In x (tl l) -> In x l.
Proof. destruct l; simpl; auto. Qed.

Lemma setitem_new_inv (c c' : cache) k v :
  lru_inv c -> hasitem (items c) k = false ->
  __setitem__ K_eq_dec c k v = Ok c' -> lru_inv c'.
Proof.
  intros (Hnd & Hlen & Hpos) H. rewrite (setitem_new _ _ _ H). intros E.
  inversion E; subst; clear E. unfold lru_inv; simpl.
  assert (Hnd2 : NoDup (keys (items c ++ [(k, v)]))).
  { rewrite keys_app. simpl. apply NoDup_snoc; [assumption|]. now apply hasitem_false. }
  assert (Hl : dict_len (items c ++ [(k, v)]) = dict_len (items c) + 1).
  { unfold dict_len. rewrite length_app. simpl. lia. }
  destruct (dict_len (items c ++ [(k, v)]) >? _size c) eqn:E.
  - split; [|split; [|assumption]].
    + replace (keys (tl (items c ++ [(k, v)]))) with (tl (keys (items c ++ [(k, v)])))
        by (destruct (items c ++ [(k, v)]); reflexivity).
      now apply NoDup_tl.
    + unfold dict_len in *. destruct (items c ++ [(k, v)]); simpl in *; lia.
  - split; [assumption|]. split; [|assumption].
    destruct (Z.gtb_spec (dict_len (items c ++ [(k, v)])) (_size c)); [discriminate | lia].
Qed.


Lemma moved_inv (c : cache) k v :
  lru_inv c -> hasitem (items c) k = true ->
  lru_inv (MkCache (remove (items c) k ++ [(k, v)]) (_size c)).
Proof.
  intros (Hnd & Hlen & Hpos) Hk. destruct (NoDup_remove _ k Hnd) as [Hnd' Hnotin].
  unfold lru_inv. cbn [items _size]. split; [|split; [|assumption]].
  - rewrite keys_app. now apply NoDup_snoc.
  - unfold dict_len in *. rewrite length_app. cbn [List.length].
    rewrite <- (length_remove _ _ Hk) in Hlen. lia.
Qed.

(** Every state reached from a constructed cache by [cache[k]] and
    [cache[k] = v] satisfies the invariant. *)
Lemma lru_inv_preserved (c c' : cache) k v :
  lru_inv c ->
  (exists w, __getitem__ K_eq_dec c k = Ok (w, c')) \/ __setitem__ K_eq_dec c k v = Ok c' ->
  lru_inv c'.
Proof.
  intros Hinv [[w Hget]|Hset].
  - destruct (hasitem (items c) k) eqn:Hk.
    + destruct (getitem_moves c k Hinv Hk) as (w' & _ & Hget').
      rewrite Hget' in Hget. inversion Hget; subst. now apply moved_inv.
    + unfold __getitem__, dict_delitem in Hget. rewrite Hk in Hget.
      destruct (getitem (items c) k); discriminate.
  - destruct (hasitem (items c) k) eqn:Hk.
    + rewrite (setitem_present c k v Hinv Hk) in Hset. inversion Hset; subst.
      now apply moved_inv.
    + now apply (setitem_new_inv c c' k v).
Qed.

Lemma put_all_app (c : cache) (l1 l2 : list (K * V)) :
  put_all K_eq_dec c (l1 ++ l2) = (c1 <- put_all K_eq_dec c l1 ;; put_all K_eq_dec c1 l2).
Proof.
  revert c. induction l1 as [|[k v] l1 IH]; intros c; simpl; [reflexivity|].
  destruct (__setitem__ K_eq_dec c k v); simpl; auto.
Qed.

(** Inserting distinct new keys one after the other keeps the last
    [_size] entries of the insertion order. *)
Lemma put_all_new (kvs : list (K * V)) : forall (c : cache),
  lru_inv c -> NoDup (keys kvs) ->
  (forall k, In k (keys kvs) -> hasitem (items c) k = false) ->
  exists c', put_all K_eq_dec c kvs = Ok c' /\ lru_inv c' /\ _size c' = _size c /\
    items c' = skipn (List.length (items c ++ kvs) - Z.to_nat (_size c)) (items c ++ kvs).
Proof.
  induction kvs as [|[k v] kvs IH]; intros c Hinv Hnd Habs.
  - exists c. simpl. rewrite app_nil_r. split; [reflexivity|].
    split; [assumption|]. split; [reflexivity|].
    destruct Hinv as (_ & Hlen & _). unfold dict_len in Hlen.
    replace (List.length (items c) - Z.to_nat (_size c))%nat with 0%nat by lia.
    reflexivity.
  - simpl in Hnd. inversion Hnd as [|? ? Hk Hnd']; subst.
    assert (Hk0 : hasitem (items c) k = false) by (apply Habs; now left).
    pose proof (setitem_new c k v Hk0) as Hset.
    set (c1 := MkCache _ _) in Hset.
    pose proof (setitem_new_inv _ _ _ _ Hinv Hk0 Hset) as Hinv1.
    assert (Hsz : _size c1 = _size c) by reflexivity.
    assert (Hit : items c1 = if dict_len (items c ++ [(k, v)]) >? _size c
                             then tl (items c ++ [(k, v)]) else items c ++ [(k, v)])
      by reflexivity.
    clearbody c1.
    destruct (IH c1 Hinv1 Hnd') as (c' & Hput & Hinv' & Hsz' & Hitems).
    { intros k' Hk'. apply hasitem_false. intros Hin.
      assert (Hin' : In k' (keys (items c ++ [(k, v)]))).
      { rewrite Hit in Hin. destruct (dict_len (items c ++ [(k, v)]) >? _size c); [|assumption].
        unfold keys in *. destruct (items c ++ [(k, v)]); simpl in *; auto. }
      rewrite keys_app, in_app_iff in Hin'. simpl in Hin'.
      destruct Hin' as [Hin'|[->|[]]]; [|tauto].
      apply hasitem_In in Hin'. rewrite Habs in Hin'; [discriminate | now right]. }
    exists c'. simpl. rewrite Hset. simpl. rewrite Hput. split; [reflexivity|]. split; [assumption|].
    split; [congruence|]. rewrite Hitems, Hsz, Hit. clear Hitems Hit.
    destruct Hinv as (_ & Hlen & Hpos). unfold dict_len in *.
    destruct (Z.gtb_spec (Z.of_nat (List.length (items c ++ [(k, v)]))) (_size c)) as [Hgt|Hle];
      rewrite length_app in *; cbn [List.length] in *.
    + destruct (items c) as [|e d]; cbn [List.length] in *; [lia|].
      cbn [app tl]. rewrite <- app_assoc. cbn [app].
      cbn [List.length]. rewrite !length_app. cbn [List.length].
      replace (List.length d + 1 + List.length kvs - Z.to_nat (_size c))%nat
        with (List.length kvs) by lia.
      replace (S (List.length d + S (List.length kvs)) - Z.to_nat (_size c))%nat
        with (S (List.length kvs)) by lia.
      reflexivity.
    + rewrite <- app_assoc. cbn [app]. rewrite !length_app. cbn [List.length].
      f_equal. lia.
Qed.


Lemma skipn_length_app (A : Type) (l1 l2 : list A) n :
  n = List.length l1 -> skipn n (l1 ++ l2) = l2.
Proof.
  intros ->. induction l1; simpl; auto.
Qed.

Lemma init_inv (z : Z) : 1 <= z -> lru_inv (@MkCache K V [] z).
Proof.
  intros H. unfold lru_inv, dict_len. simpl. split; [constructor | lia].
Qed.

(** C1.  In a cache of capacity [C] (an integer at least 1, by [lru_inv]),
    in any state it can be in, put [C+1] distinct keys the cache does not
    hold, [first] and then the [C] entries of [rest], in this order.  Then
    the first key is absent, the cache holds exactly the [C] entries of
    [rest] in the order of their insertion (most recent last), each under
    its value, and the last put, which found the cache full ([c_full], with
    [first] at its head, the least recently used entry), appended its entry
    and evicted exactly that head. *)
Theorem lru_put_capacity_plus_one
  (c : cache) (C : nat) (first : K * V) (rest : list (K * V)) :
  lru_inv c -> _size c = Z.of_nat C ->
  NoDup (keys (first :: rest)) -> List.length rest = C ->
  (forall k, In k (keys (first :: rest)) -> hasitem (items c) k = false) ->
  exists c_full c_last,
    put_all K_eq_dec c (removelast (first :: rest)) = Ok c_full /\
    __setitem__ K_eq_dec c_full (fst (last rest first)) (snd (last rest first)) = Ok c_last /\
    put_all K_eq_dec c (first :: rest) = Ok c_last /\
    hasitem (items c_last) (fst first) = false /\
    items c_last = rest /\
    (forall k v, In (k, v) rest -> getitem (items c_last) k = Ok v) /\
    dict_len (items c_full) = _size c /\
    hd_error (items c_full) = Some first /\
    items c_last = tl (items c_full ++ [last rest first]).
Proof.
  intros Hinv Hsz Hnd Hlen Habs.
  assert (HC : (1 <= C)%nat) by (destruct Hinv as (_ & _ & ?); lia).
  set (kvs := first :: rest) in *.
  assert (Hsplit : kvs = removelast kvs ++ [last rest first]).
  { replace (last rest first) with (last kvs first).
    - apply app_removelast_last. discriminate.
    - unfold kvs. destruct rest; reflexivity. }
  assert (Hlen' : List.length (removelast kvs) = C).
  { assert (E : List.length kvs = S C) by (unfold kvs; simpl; lia).
    rewrite Hsplit, length_app in E. cbn [List.length] in E. lia. }
  assert (Hnd1 : NoDup (keys (removelast kvs))).
  { rewrite Hsplit, keys_app in Hnd. now apply NoDup_app_remove_r in Hnd. }
  destruct (put_all_new (removelast kvs) c Hinv Hnd1) as (c_full & Hput1 & Hinv1 & Hsz1 & Hit1).
  { intros k Hk. apply Habs. rewrite Hsplit, keys_app. apply in_or_app. now left. }
  destruct (put_all_new kvs c Hinv Hnd Habs) as (c_last & Hput & Hinv2 & Hsz2 & Hit2).
  assert (Hd : (List.length (items c) <= C)%nat).
  { destruct Hinv as (_ & H & _). unfold dict_len in H. lia. }
  assert (Hfull : items c_full = removelast kvs).
  { rewrite Hit1. apply skipn_length_app. rewrite length_app, Hsz, Hlen', Nat2Z.id. lia. }
  assert (Hlast : items c_last = rest).
  { rewrite Hit2. unfold kvs.
    replace (items c ++ first :: rest) with ((items c ++ [first]) ++ rest)
      by (now rewrite <- app_assoc).
    apply skipn_length_app. rewrite !length_app, Hsz, Nat2Z.id. simpl. lia. }
  exists c_full, c_last.
  split; [assumption|]. split.
  { rewrite Hsplit, put_all_app, Hput1 in Hput. simpl in Hput.
    destruct (last rest first) as [kl vl]. simpl in *.
    destruct (__setitem__ K_eq_dec c_full kl vl); simpl in Hput; congruence. }
  split; [assumption|]. split.
  { apply hasitem_false. rewrite Hlast. simpl in Hnd. now inversion Hnd. }
  split; [assumption|]. split.
  { intros k v Hin. apply getitem_In; rewrite Hlast; [|assumption].
    simpl in Hnd. now inversion Hnd. }
  split.
  { unfold dict_len. rewrite Hfull, Hlen'. congruence. }
  split.
  { rewrite Hfull. unfold kvs. destruct rest; [simpl in Hlen; lia | reflexivity]. }
  rewrite Hfull, <- Hsplit, Hlast. reflexivity.
Qed.

(** An access to the head of a full cache, then a put of a new key: the
    entry after the head goes, if there is one, and the head itself
    otherwise. *)
Lemma access_head_then_put (c c' : cache) k v rest knew vnew w :
  lru_inv c -> items c = (k, v) :: rest -> dict_len (items c) = _size c ->
  hasitem (items c) knew = false ->
  (w = v /\ __getitem__ K_eq_dec c k = Ok (v, c')) \/ __setitem__ K_eq_dec c k w = Ok c' ->
  __setitem__ K_eq_dec c' knew vnew
  = Ok (MkCache (tl ((rest ++ [(k, w)]) ++ [(knew, vnew)])) (_size c)).
Proof.
  intros Hinv Hitems Hfull Hnew Hacc.
  assert (Hk : hasitem (items c) k = true).
  { rewrite Hitems. simpl. destruct (K_eq_dec k k); [reflexivity | congruence]. }
  assert (Hrem : remove (items c) k = rest).
  { rewrite Hitems. simpl. destruct (K_eq_dec k k); [reflexivity | congruence]. }
  assert (Hc' : c' = MkCache (rest ++ [(k, w)]) (_size c)).
  { destruct Hacc as [[-> Hget]|Hset].
    - destruct (getitem_moves c k Hinv Hk) as (v0 & Hv0 & Hget').
      rewrite Hitems in Hv0. simpl in Hv0.
      destruct (K_eq_dec k k); [|congruence]. inversion Hv0; subst v0.
      rewrite Hget' in Hget. rewrite Hrem in Hget. congruence.
    - rewrite (setitem_present c k w Hinv Hk), Hrem in Hset. congruence. }
  assert (Hnew' : hasitem (items c') knew = false).
  { subst c'. cbn [items]. rewrite Hitems in Hnew. simpl in Hnew.
    destruct (K_eq_dec knew k) as [|Hne]; [discriminate|].
    rewrite hasitem_app. simpl. rewrite Hnew.
    destruct (K_eq_dec knew k); [contradiction | reflexivity]. }
  rewrite (setitem_new _ _ _ Hnew'). subst c'. cbn [items _size].
  assert (Hlen' : (dict_len ((rest ++ [(k, w)]) ++ [(knew, vnew)]) >? _size c) = true).
  { apply Z.gtb_lt. unfold dict_len in *. rewrite Hitems in Hfull.
    rewrite !length_app. simpl in *. lia. }
  now rewrite Hlen'.
Qed.

(** C2, amended.  For every cache state and every key [k] it holds:
    [cache[k]] returns the value and moves the entry to the tail (the most
    recently used position); [cache[k] = v'] removes the entry and appends
    it again with the new value; and, when the cache is full and holds at
    least two entries with [k] at its head, so that putting a new key would
    evict [k], the same put after one of these two accesses evicts the
    second entry [k2] and keeps [k].  When [k] is the only entry of a full
    cache, the put after the access evicts [k] all the same. *)
Theorem lru_access_refreshes (c : cache) (k : K) :
  lru_inv c -> hasitem (items c) k = true ->
  (exists v, getitem (items c) k = Ok v /\
     __getitem__ K_eq_dec c k = Ok (v, MkCache (remove (items c) k ++ [(k, v)]) (_size c))) /\
  (forall v', __setitem__ K_eq_dec c k v' =
              Ok (MkCache (remove (items c) k ++ [(k, v')]) (_size c))) /\
  (forall v k2 v2 rest knew vnew,
     items c = (k, v) :: (k2, v2) :: rest ->
     dict_len (items c) = _size c ->
     hasitem (items c) knew = false ->
     __setitem__ K_eq_dec c knew vnew =
       Ok (MkCache ((k2, v2) :: rest ++ [(knew, vnew)]) (_size c)) /\
     (forall w c', (w = v /\ __getitem__ K_eq_dec c k = Ok (v, c')) \/
                   __setitem__ K_eq_dec c k w = Ok c' ->
        __setitem__ K_eq_dec c' knew vnew =
          Ok (MkCache (rest ++ [(k, w); (knew, vnew)]) (_size c)))) /\
  (forall v knew vnew,
     items c = [(k, v)] ->
     dict_len (items c) = _size c ->
     hasitem (items c) knew = false ->
     forall w c', (w = v /\ __getitem__ K_eq_dec c k = Ok (v, c')) \/
                  __setitem__ K_eq_dec c k w = Ok c' ->
       __setitem__ K_eq_dec c' knew vnew = Ok (MkCache [(knew, vnew)] (_size c))).
Proof.
  intros Hinv Hk. split; [now apply getitem_moves|].
  split; [intros v'; now apply setitem_present|]. split.
  - intros v k2 v2 rest knew vnew Hitems Hfull Hnew. split.
    + assert (Hlen : (dict_len (items c ++ [(knew, vnew)]) >? _size c) = true).
      { apply Z.gtb_lt. unfold dict_len in *. rewrite length_app. simpl. lia. }
      rewrite (setitem_new _ _ _ Hnew), Hlen, Hitems. reflexivity.
    + intros w c' Hacc.
      rewrite (access_head_then_put c c' k v _ knew vnew w Hinv Hitems Hfull Hnew Hacc).
      simpl. now rewrite <- app_assoc.
  - intros v knew vnew Hitems Hfull Hnew w c' Hacc.
    now rewrite (access_head_then_put c c' k v _ knew vnew w Hinv Hitems Hfull Hnew Hacc).
Qed.

(** C3.  [LRUCacheStrong(size)] raises the exception of the cache when
    [size] is not an integer (as [isinstance] sees it: booleans are
    integers) or an integer that is not positive, and otherwise returns the
    empty cache of that capacity. *)
Theorem lru_init_capacity (size : pyobj) :
  (isinstance size (PType int_t) = Ok false ->
   @__init__ K V size = Raise _BeartypeUtilLRUCacheException) /\
  (forall z, int_value size = Some z -> z <= 0 ->
   @__init__ K V size = Raise _BeartypeUtilLRUCacheException) /\
  (forall z, int_value size = Some z -> 1 <= z ->
   @__init__ K V size = Ok (MkCache [] z) /\ lru_inv (@MkCache K V [] z)) /\
  (int_value size = None <-> isinstance size (PType int_t) = Ok false).
Proof.
  split; [|split; [|split]].
  - intros H. unfold __init__. now rewrite H.
  - intros z Hz Hle. unfold __init__.
    destruct size as [x|[|]| | | | | |]; simpl in *; try discriminate;
      inversion Hz; subst;
      try match goal with |- context [?a <=? 0] => destruct (Z.leb_spec a 0) end;
      try reflexivity; lia.
  - intros z Hz Hle. split; [|now apply init_inv]. unfold __init__.
    destruct size as [x|[|]| | | | | |]; simpl in *; try discriminate;
      inversion Hz; subst;
      try match goal with |- context [?a <=? 0] => destruct (Z.leb_spec a 0) end;
      try reflexivity; lia.
  - destruct size; simpl; split; intros; try reflexivity; discriminate.
Qed.

End LRUFacts.

(** C1 on a cache of capacity 2, as constructed, with the keys a, b, c. *)
Lemma lru_put_capacity_plus_one_witness :
  @__init__ string Z (PInt 2) = Ok (MkCache [] 2) /\
  exists c_full c_last,
    put_all string_dec (MkCache [] 2) (removelast [("a", 1); ("b", 2); ("c", 3)]) = Ok c_full /\
    __setitem__ string_dec c_full "c" 3 = Ok c_last /\
    put_all string_dec (MkCache [] 2) [("a", 1); ("b", 2); ("c", 3)] = Ok c_last /\
    dict_hasitem string_dec (items c_last) "a" = false /\
    items c_last = [("b", 2); ("c", 3)] /\
    (forall k v, In (k, v) [("b", 2); ("c", 3)] -> dict_getitem string_dec (items c_last) k = Ok v) /\
    dict_len (items c_full) = 2 /\
    hd_error (items c_full) = Some ("a", 1) /\
    items c_last = tl (items c_full ++ [("c", 3)]).
Proof.
  split; [reflexivity|].
  apply (lru_put_capacity_plus_one string Z string_dec (MkCache [] 2) 2
           ("a", 1) [("b", 2); ("c", 3)]).
  - apply init_inv. lia.
  - reflexivity.
  - repeat constructor; simpl; intuition discriminate.
  - reflexivity.
  - intros; reflexivity.
Defined.

(** C3 on the capacities 3, 0, -2, the string 3 and the booleans. *)
Lemma lru_init_capacity_witness :
  @__init__ string Z (PInt 3) = Ok (MkCache [] 3) /\
  @__init__ string Z (PInt 0) = Raise _BeartypeUtilLRUCacheException /\
  @__init__ string Z (PInt (-2)) = Raise _BeartypeUtilLRUCacheException /\
  @__init__ string Z (PStr "3") = Raise _BeartypeUtilLRUCacheException /\
  @__init__ string Z (PBool true) = Ok (MkCache [] 1) /\
  @__init__ string Z (PBool false) = Raise _BeartypeUtilLRUCacheException.
Proof.
  destruct (lru_init_capacity string Z (PInt 3)) as (_ & _ & H3 & _).
  destruct (lru_init_capacity string Z (PInt 0)) as (_ & H0 & _).
  destruct (lru_init_capacity string Z (PInt (-2))) as (_ & Hm & _).
  destruct (lru_init_capacity string Z (PStr "3")) as (Hs & _).
  destruct (lru_init_capacity string Z (PBool true)) as (_ & _ & Ht & _).
  destruct (lru_init_capacity string Z (PBool false)) as (_ & Hf & _).
  split; [apply (H3 3); [reflexivity | lia]|].
  split; [apply (H0 0); [reflexivity | lia]|].
  split; [apply (Hm (-2)); [reflexivity | lia]|].
  split; [apply Hs; reflexivity|].
  split; [apply (Ht 1); [reflexivity | lia]|].
  apply (Hf 0); [reflexivity | lia].
Defined.

(** C2, as stated, fails on a cache of capacity 1: the cache built by
    [LRUCacheStrong(1)] and [cache["a"] = 1] holds the key a; putting the new
    key b would evict a; after [cache["a"]], or after [cache["a"] = 5], the
    same put still evicts a, the only entry, and no other key is evicted in
    its place. *)
Lemma lru_capacity_one_access_still_evicted :
  (c0 <- @__init__ string Z (PInt 1) ;; __setitem__ string_dec c0 "a" 1)
    = Ok (MkCache [("a", 1)] 1) /\
  dict_hasitem string_dec [("a", 1)] "a" = true /\
  __setitem__ string_dec (MkCache [("a", 1)] 1) "b" 2 = Ok (MkCache [("b", 2)] 1) /\
  __getitem__ string_dec (MkCache [("a", 1)] 1) "a" = Ok (1, MkCache [("a", 1)] 1) /\
  __setitem__ string_dec (MkCache [("a", 1)] 1) "a" 5 = Ok (MkCache [("a", 5)] 1) /\
  __setitem__ string_dec (MkCache [("a", 5)] 1) "b" 2 = Ok (MkCache [("b", 2)] 1) /\
  dict_hasitem string_dec [("b", 2)] "a" = false.
Proof. repeat split. Qed.

(** C2, amended, on a full cache of capacity 2 holding a then b. *)
Lemma lru_access_refreshes_witness :
  __getitem__ string_dec (MkCache [("a", 1); ("b", 2)] 2) "a"
    = Ok (1, MkCache [("b", 2); ("a", 1)] 2) /\
  __setitem__ string_dec (MkCache [("a", 1); ("b", 2)] 2) "c" 3
    = Ok (MkCache [("b", 2); ("c", 3)] 2) /\
  __setitem__ string_dec (MkCache [("b", 2); ("a", 1)] 2) "c" 3
    = Ok (MkCache [("a", 1); ("c", 3)] 2).
Proof.
  assert (Hinv : lru_inv (MkCache [("a", 1); ("b", 2)] 2)).
  { unfold lru_inv, dict_len. simpl. split; [|lia].
    repeat constructor; simpl; intuition discriminate. }
  destruct (lru_access_refreshes string Z string_dec
              (MkCache [("a", 1); ("b", 2)] 2) "a" Hinv eq_refl)
    as (_ & _ & H & _).
  destruct (H 1 "b" 2 [] "c" 3 eq_refl eq_refl eq_refl) as [H1 H2].
  split; [reflexivity|]. split; [exact H1|].
  apply (H2 1). left. split; reflexivity.
Defined.

(** ** Placeholders and string replacement *)

Import Str.

Section Strings.

Local Open Scope string_scope.

Lemma prefix_split (p s : string) :
  prefix p s = true <-> exists r, s = p ++ r.
Proof.
  revert s. induction p as [|a p IH]; intros s; simpl.
  - split; [intros _; now exists s | intros _; destruct s; reflexivity].
  - destruct s as [|b s]; simpl.
    + split; [discriminate | intros [r Hr]; discriminate].
    + destruct (ascii_dec a b) as [->|Hne].
      * rewrite IH. split; intros [r Hr]; exists r; congruence.
      * split; [discriminate | intros [r Hr]; congruence].
Qed.

Lemma prefix_app (p s : string) : prefix p (p ++ s) = true.
Proof. apply prefix_split. now exists s. Qed.

Lemma append_assoc (a b c : string) : (a ++ b) ++ c = a ++ (b ++ c).
Proof. induction a; simpl; congruence. Qed.

Lemma length_append (a b : string) :
  String.length (a ++ b) = (String.length a + String.length b)%nat.
Proof. induction a; simpl; congruence. Qed.

Lemma append_nil_r (a : string) : a ++ "" = a.
Proof. induction a; simpl; congruence. Qed.

Lemma drop_app (p s : string) : drop (String.length p) (p ++ s) = s.
Proof. induction p; simpl; auto. Qed.

(** A prefix of a concatenation lies within the first part or covers it. *)
Lemma prefix_app_cases (p a b : string) :
  prefix p (a ++ b) = true -> prefix p a = true \/ exists q, p = a ++ q.
Proof.
  revert a. induction p as [|c p IH]; intros a H; [left; destruct a; reflexivity|].
  destruct a as [|d a]; [right; now exists (String c p)|].
  simpl in *. destruct (ascii_dec c d) as [->|]; [|discriminate].
  destruct (IH a H) as [Hl|[q Hq]]; [now left|].
  right. exists q. now rewrite Hq.
Qed.

Lemma is_substring_prefix_true (old s : string) :
  prefix old s = true -> is_substring old s = true.
Proof. intros H. destruct s; simpl in *; now rewrite H. Qed.

Lemma is_substring_app (old a b : string) :
  is_substring old (a ++ old ++ b) = true.
Proof.
  induction a as [|c a IH]; simpl.
  - apply is_substring_prefix_true, prefix_app.
  - rewrite IH. apply orb_true_r.
Qed.

Lemma is_substring_cons (old : string) (c : ascii) (s : string) :
  is_substring old (String c s) = prefix old (String c s) || is_substring old s.
Proof. reflexivity. Qed.

Lemma is_substring_prefix (old s : string) :
  is_substring old s = false -> prefix old s = false.
Proof. destruct s; simpl; intros H; now apply orb_false_elim in H. Qed.

(** *** The scan of [str.replace] *)

Lemma replace_scan_skip (old new : string) (s : string) : forall k,
  replace_scan old new k s = replace_scan old new 0 (drop k s).
Proof.
  induction s as [|c s IH]; intros [|k]; try reflexivity.
  simpl replace_scan at 1. rewrite IH. reflexivity.
Qed.

Lemma replace_scan_match (a : ascii) (m new r : string) :
  replace_scan (String a m) new 0 (String a m ++ r)
  = new ++ replace_scan (String a m) new 0 r.
Proof.
  change (String a m ++ r) with (String a (m ++ r)).
  cbn [replace_scan].
  change (String a (m ++ r)) with (String a m ++ r). rewrite prefix_app.
  rewrite replace_scan_skip.
  replace (String.length (String a m) - 1)%nat with (String.length m)
    by (cbn [String.length]; lia).
  now rewrite drop_app.
Qed.

Lemma replace_scan_nomatch (old new : string) (c : ascii) (s : string) :
  prefix old (String c s) = false ->
  replace_scan old new 0 (String c s) = String c (replace_scan old new 0 s).
Proof. intros H. cbn [replace_scan]. now rewrite H. Qed.

Lemma replace_scan_absent (old new s : string) :
  is_substring old s = false -> replace_scan old new 0 s = s.
Proof.
  induction s as [|c s IH]; [reflexivity|]. rewrite is_substring_cons.
  intros H. apply orb_false_elim in H. destruct H as [H1 H2].
  rewrite (replace_scan_nomatch _ _ _ _ H1), (IH H2). reflexivity.
Qed.

(** Where nothing matches, [str.replace] returns the string as it is. *)
Lemma str_replace_absent (s old new : string) :
  is_substring old s = false -> str_replace s old new = s.
Proof.
  destruct old as [|a m]; [destruct s; discriminate|].
  apply replace_scan_absent.
Qed.


Lemma has_char_app (c : ascii) (a b : string) :
  has_char c (a ++ b) = has_char c a || has_char c b.
Proof. induction a; simpl; [reflexivity|]. now rewrite IHa, orb_assoc. Qed.

Lemma append_last_split (p1 p2 body : string) (z : ascii) :
  p1 ++ p2 = body ++ String z "" -> p2 <> "" -> exists q, p2 = q ++ String z "".
Proof.
  revert body. induction p1 as [|c p1 IH]; intros body H Hp2; simpl in H.
  - now exists body.
  - destruct body as [|d body]; simpl in H.
    + inversion H as [[Hc H']]. destruct p1; [simpl in H'; contradiction | discriminate].
    + inversion H. eauto.
Qed.

(** *** Idempotence of a replacement

    [old] starts with [a] and ends with [z]; [new] holds neither character
    and does not occur in [old]. *)

Section Idempotence.

Variables (a z : ascii) (m body new : string).
Let old := String a m.
Hypothesis old_last : old = body ++ String z "".
Hypothesis new_first : has_char a new = false.
Hypothesis new_last : has_char z new = false.
Hypothesis new_outside : is_substring new old = false.

Local Abbreviation R := (replace_scan old new 0).

(** No non-empty suffix of [old] starts at an inserted [new]. *)
Lemma suffix_not_at_new (p1 p2 x : string) :
  old = p1 ++ p2 -> p2 <> "" -> prefix p2 (new ++ x) = false.
Proof.
  intros Hsplit Hp2. destruct (prefix p2 (new ++ x)) eqn:E; [exfalso | reflexivity].
  destruct (prefix_app_cases _ _ _ E) as [H|[q Hq]].
  - destruct (append_last_split p1 p2 body z) as [q Hq]; [congruence | assumption |].
    apply prefix_split in H. destruct H as [r Hr].
    rewrite Hr, Hq, append_assoc, has_char_app in new_last. simpl in new_last.
    rewrite Ascii.eqb_refl, orb_true_r in new_last. discriminate.
  - rewrite Hsplit, Hq, is_substring_app in new_outside. discriminate.
Qed.

(** A suffix of [old] found at the head of the result was at the head of
    the scanned string, where it completes an occurrence of [old]. *)
Lemma suffix_at_head (s : string) : forall p1 p2,
  old = p1 ++ p2 -> p2 <> "" -> prefix p2 (R s) = true -> prefix old (p1 ++ s) = true.
Proof.
  induction s as [|c s IH]; intros p1 p2 Hsplit Hp2 H.
  - destruct p2; [contradiction | discriminate].
  - destruct (prefix old (String c s)) eqn:E.
    + apply prefix_split in E. destruct E as [r Hr]. rewrite Hr in H.
      unfold old in H. rewrite replace_scan_match in H.
      now rewrite (suffix_not_at_new p1 p2 _ Hsplit Hp2) in H.
    + rewrite (replace_scan_nomatch _ _ _ _ E) in H.
      destruct p2 as [|d p2]; [contradiction|]. simpl in H.
      destruct (ascii_dec d c) as [->|]; [|discriminate].
      replace (p1 ++ String c s) with ((p1 ++ String c "") ++ s)
        by (now rewrite append_assoc).
      destruct p2 as [|e p2].
      * rewrite Hsplit. apply prefix_app.
      * apply (IH _ (String e p2)); [|discriminate | assumption].
        now rewrite append_assoc.
Qed.

Lemma old_not_at_head (s : string) : prefix old (R s) = false.
Proof.
  destruct (prefix old (R s)) eqn:E; [exfalso | reflexivity].
  pose proof (suffix_at_head s "" old eq_refl ltac:(discriminate) E) as H.
  simpl in H. apply prefix_split in H. destruct H as [r Hr].
  rewrite Hr in E. unfold old in E. rewrite replace_scan_match in E.
  now rewrite (suffix_not_at_new "" old _ eq_refl ltac:(discriminate)) in E.
Qed.

Lemma absent_after_new (x : string) :
  is_substring old x = false -> forall n, has_char a n = false ->
  is_substring old (n ++ x) = false.
Proof.
  intros Hx n. induction n as [|c n IH]; intros Hn; [assumption|].
  simpl in Hn. apply orb_false_elim in Hn. destruct Hn as [Hc Hn].
  change (String c n ++ x) with (String c (n ++ x)).
  rewrite is_substring_cons, (IH Hn), orb_false_r.
  unfold old. simpl. destruct (ascii_dec a c) as [->|]; [|reflexivity].
  now rewrite Ascii.eqb_refl in Hc.
Qed.

(** The result of the replacement holds no occurrence of [old]. *)
Lemma replaced_absent (n : nat) : forall s,
  (String.length s <= n)%nat -> is_substring old (R s) = false.
Proof.
  induction n as [|n IH]; intros s Hlen.
  - destruct s; [reflexivity | simpl in Hlen; lia].
  - destruct s as [|c s]; [reflexivity|].
    destruct (prefix old (String c s)) eqn:E.
    + apply prefix_split in E. destruct E as [r Hr]. rewrite Hr.
      unfold old. rewrite replace_scan_match. apply absent_after_new; [|assumption].
      apply IH. apply (f_equal String.length) in Hr.
      unfold old in Hr. simpl in Hr, Hlen. rewrite length_append in Hr. lia.
    + rewrite (replace_scan_nomatch _ _ _ _ E), is_substring_cons.
      rewrite <- (replace_scan_nomatch _ _ _ _ E), old_not_at_head.
      apply IH. simpl in Hlen. lia.
Qed.

Lemma str_replace_idempotent (s : string) :
  str_replace (str_replace s old new) old new = str_replace s old new.
Proof.
  apply str_replace_absent. unfold str_replace, old.
  apply (replaced_absent (String.length s)). lia.
Qed.

End Idempotence.


Lemma all_chars_has_char (p : ascii -> bool) (c : ascii) (s : string) :
  all_chars p s = true -> p c = false -> has_char c s = false.
Proof.
  intros Hs Hc. induction s as [|d s IH]; [reflexivity|]. simpl in *.
  apply andb_prop in Hs. destruct Hs as [Hd Hs]. rewrite (IH Hs), orb_false_r.
  destruct (Ascii.eqb_spec c d) as [->|]; [congruence | reflexivity].
Qed.

Lemma identifier_chars (name : string) :
  is_identifier name = true -> all_chars is_identifier_continue name = true.
Proof.
  destruct name as [|c s]; [discriminate|]. simpl. intros H.
  apply andb_prop in H. destruct H as [Hc Hs].
  unfold is_identifier_continue at 1. now rewrite Hc, Hs.
Qed.

End Strings.

Import Template.

(** ** Templates and their placeholders *)

Section Templates.

Local Open Scope string_scope.

(** A string found in another has its first character there. *)
Lemma is_substring_first_char (c : ascii) (m s : string) :
  is_substring (String c m) s = true -> has_char c s = true.
Proof.
  induction s as [|d s IH]; [discriminate|].
  rewrite is_substring_cons. cbn [has_char]. intros H.
  apply orb_prop in H. destruct H as [H|H].
  - cbn [prefix] in H. destruct (ascii_dec c d) as [->|]; [|discriminate].
    now rewrite Ascii.eqb_refl.
  - rewrite (IH H). apply orb_true_r.
Qed.

Lemma prefix_app_cancel (a q b : string) : prefix (a ++ q) (a ++ b) = prefix q b.
Proof.
  induction a as [|c a IH]; [reflexivity|]. simpl.
  destruct (ascii_dec c c); [exact IH | contradiction].
Qed.

Lemma prefix_first_char (a c : ascii) (m s : string) :
  a <> c -> prefix (String a m) (String c s) = false.
Proof. intros H. simpl. destruct (ascii_dec a c); [contradiction | reflexivity]. Qed.

Lemma has_char_false_neq (a c : ascii) (s : string) :
  has_char a (String c s) = false -> a <> c /\ has_char a s = false.
Proof.
  simpl. intros H. apply orb_false_elim in H. destruct H as [H1 H2].
  split; [|exact H2]. intros ->. now rewrite Ascii.eqb_refl in H1.
Qed.

(** The scan copies a text that does not hold the first character of [old]. *)
Lemma replace_scan_no_first_char (a : ascii) (m new x rest : string) :
  has_char a x = false ->
  replace_scan (String a m) new 0 (x ++ rest)
  = x ++ replace_scan (String a m) new 0 rest.
Proof.
  induction x as [|c x IH]; intros H; [reflexivity|].
  apply has_char_false_neq in H. destruct H as [Hne Hx].
  change (String c x ++ rest) with (String c (x ++ rest)).
  rewrite replace_scan_nomatch by now apply prefix_first_char.
  now rewrite (IH Hx).
Qed.

(** The text between the delimiters decides which placeholder it is. *)
Lemma prefix_content (d : ascii) (u u' : string) :
  is_identifier_continue d = false ->
  forall c c' : string,
    all_chars is_identifier_continue c = true ->
    all_chars is_identifier_continue c' = true ->
    prefix (c ++ String d u) (c' ++ String d u') = true -> c = c'.
Proof.
  intros Hd. induction c as [|e c IH]; intros [|e' c'] Hc Hc' H; simpl in *.
  - reflexivity.
  - apply andb_prop in Hc'. destruct Hc' as [He' _].
    destruct (ascii_dec d e') as [->|]; [congruence | discriminate].
  - apply andb_prop in Hc. destruct Hc as [He _].
    destruct (ascii_dec e d) as [->|]; [congruence | discriminate].
  - apply andb_prop in Hc. destruct Hc as [_ Hc].
    apply andb_prop in Hc'. destruct Hc' as [_ Hc'].
    destruct (ascii_dec e e') as [->|]; [|discriminate].
    f_equal. now apply IH.
Qed.

Lemma placeholder_eqb_eq (p q : placeholder) : placeholder_eqb p q = true <-> p = q.
Proof.
  destruct p, q; simpl; try (split; [discriminate | intros H; discriminate H]).
  - rewrite String.eqb_eq. split; congruence.
  - rewrite String.eqb_eq. split; congruence.
  - split; reflexivity.
Qed.

(** No text that holds a backtick, and none of the characters a placeholder
    starts with, is found at the head of a template. *)
Lemma tail_not_at_template (t : list piece) : forall w : string,
  wf_template RootName t = true ->
  has_char "`" w = true -> has_char "@" w = false ->
  has_char "$" w = false -> has_char "?" w = false ->
  prefix w (render t) = false.
Proof.
  induction t as [|x t IH]; intros w Hwf Hb Ha Hd Hq.
  - destruct w; [discriminate Hb | reflexivity].
  - cbn [wf_template forallb] in Hwf. apply andb_prop in Hwf. destruct Hwf as [Hx Hwf].
    cbn [render]. destruct x as [s|q]; cbn [piece_text].
    + cbn [wf_piece marker] in Hx. apply negb_true_iff in Hx.
      destruct (prefix w (s ++ render t)) eqn:E; [exfalso | reflexivity].
      destruct (prefix_app_cases _ _ _ E) as [H|[r Hr]].
      * apply prefix_split in H. destruct H as [r Hr].
        rewrite Hr, has_char_app, Hb in Hx. discriminate Hx.
      * subst w. rewrite prefix_app_cancel in E.
        rewrite has_char_app in Hb, Ha, Hd, Hq. rewrite Hx in Hb.
        apply orb_false_elim in Ha, Hd, Hq.
        rewrite (IH r Hwf Hb (proj2 Ha) (proj2 Hd) (proj2 Hq)) in E. discriminate E.
    + destruct w as [|c w]; [discriminate Hb|].
      apply has_char_false_neq in Ha, Hd, Hq.
      destruct q; apply prefix_first_char; intros E; symmetry in E;
        [now apply Ha | now apply Hd | now apply Hq].
Qed.

(** The root-name placeholder less its first character. *)
Lemma root_tail_not_at_template (x : string) (t : list piece) :
  has_char "`" x = false -> wf_template RootName t = true ->
  prefix "|PITH_ROOT_NAME`^" (x ++ render t) = false.
Proof.
  intros Hx Hwf.
  destruct (prefix "|PITH_ROOT_NAME`^" (x ++ render t)) eqn:E; [exfalso | reflexivity].
  destruct (prefix_app_cases _ _ _ E) as [H|[r Hr]].
  - apply prefix_split in H. destruct H as [r Hr].
    rewrite Hr in Hx. discriminate Hx.
  - rewrite Hr, prefix_app_cancel in E.
    assert (Hb : has_char "`" r = true).
    { apply (f_equal (has_char "`")) in Hr. rewrite has_char_app, Hx in Hr.
      simpl in Hr. now rewrite <- Hr. }
    assert (Hn : forall c, has_char c "|PITH_ROOT_NAME`^" = false -> has_char c r = false).
    { intros c Hc. rewrite Hr, has_char_app in Hc. now apply orb_false_elim in Hc. }
    rewrite (tail_not_at_template t r Hwf Hb (Hn "@"%char eq_refl) (Hn "$"%char eq_refl)
               (Hn "?"%char eq_refl)) in E.
    discriminate E.
Qed.

(** The scan for the root-name placeholder copies a text without backtick
    that a template follows. *)
Lemma replace_scan_root_text (new : string) (t : list piece) : forall x : string,
  has_char "`" x = false -> wf_template RootName t = true ->
  replace_scan PEP_CODE_PITH_ROOT_PARAM_NAME_PLACEHOLDER new 0 (x ++ render t)
  = x ++ replace_scan PEP_CODE_PITH_ROOT_PARAM_NAME_PLACEHOLDER new 0 (render t).
Proof.
  induction x as [|c x IH]; intros Hx Hwf; [reflexivity|].
  apply has_char_false_neq in Hx. destruct Hx as [_ Hx].
  change (String c x ++ render t) with (String c (x ++ render t)).
  rewrite replace_scan_nomatch.
  - now rewrite (IH Hx Hwf).
  - unfold PEP_CODE_PITH_ROOT_PARAM_NAME_PLACEHOLDER.
    cbn [prefix]. destruct (ascii_dec "?" c); [|reflexivity].
    now apply root_tail_not_at_template.
Qed.


(** A character that is no letter, digit or underscore occurs in a
    delimited text only within the delimiters. *)
Lemma has_char_delimited (c : ascii) (pre mid suf : string) :
  all_chars is_identifier_continue mid = true -> is_identifier_continue c = false ->
  has_char c (pre ++ mid ++ suf) = has_char c pre || has_char c suf.
Proof.
  intros Hmid Hc. rewrite !has_char_app.
  now rewrite (all_chars_has_char _ _ _ Hmid Hc).
Qed.

(** [str.replace] of a placeholder on a template replaces the placeholder in
    its slots and nothing else. *)
Lemma replace_scan_template (p : placeholder) (new : string) :
  wf_placeholder p = true ->
  forall t : list piece,
    wf_template (family_of p) t = true ->
    replace_scan (placeholder_text p) new 0 (render t) = render (splice p new t).
Proof.
  intros Hp. induction t as [|x t IH]; intros Hwf; [reflexivity|].
  cbn [wf_template forallb] in Hwf. apply andb_prop in Hwf. destruct Hwf as [Hx Hwf].
  specialize (IH Hwf). cbn [render splice map]. fold (splice p new t).
  destruct x as [s|q]; cbn [piece_text].
  - (* text *)
    cbn [wf_piece] in Hx. apply negb_true_iff in Hx. rewrite <- IH.
    destruct p; cbn [family_of marker] in Hx.
    + now apply replace_scan_no_first_char.
    + now apply replace_scan_no_first_char.
    + now apply replace_scan_root_text.
  - (* a slot *)
    cbn [wf_piece] in Hx.
    destruct (placeholder_eqb q p) eqn:E.
    + apply placeholder_eqb_eq in E. subst q. cbn [render piece_text]. rewrite <- IH.
      destruct p; apply replace_scan_match.
    + cbn [render piece_text]. rewrite <- IH.
      assert (Hne : q <> p) by (intros ->; now rewrite (proj2 (placeholder_eqb_eq p p) eq_refl) in E).
      destruct p as [id|c|], q as [id'|c'|]; cbn [wf_placeholder] in Hp, Hx;
        try (now contradiction Hne).
      * (* child, child *)
        cbn [placeholder_text]. unfold PEP_CODE_HINT_CHILD_PLACEHOLDER_PREFIX,
          PEP_CODE_HINT_CHILD_PLACEHOLDER_SUFFIX.
        change (("@[" ++ id' ++ ")!") ++ render t)
          with (String "@" (("[" ++ id' ++ ")!") ++ render t)).
        rewrite replace_scan_nomatch.
        -- assert (Hno : has_char "@" ("[" ++ id' ++ ")!") = false)
             by (rewrite (has_char_delimited "@" "[" id' ")!" Hx eq_refl); reflexivity).
           exact (f_equal (String "@")
                    (replace_scan_no_first_char "@" _ new ("[" ++ id' ++ ")!") (render t) Hno)).
        -- destruct (prefix ("@[" ++ id ++ ")!") (String "@" (("[" ++ id' ++ ")!") ++ render t)))
             eqn:F; [exfalso | reflexivity].
           cbn [append prefix] in F.
           destruct (ascii_dec "@" "@"); [|discriminate F].
           destruct (ascii_dec "[" "["); [|discriminate F].
           rewrite append_assoc in F.
           apply (prefix_content ")" "!" ("!" ++ render t) eq_refl id id' Hp Hx) in F.
           congruence.
      * (* child, forward *)
        apply replace_scan_no_first_char. cbn [placeholder_text].
        rewrite (has_char_delimited "@" _ c' _ Hx eq_refl). reflexivity.
      * (* child, root *)
        now apply replace_scan_no_first_char.
      * (* forward, child *)
        apply replace_scan_no_first_char. cbn [placeholder_text].
        rewrite (has_char_delimited "$" _ id' _ Hx eq_refl). reflexivity.
      * (* forward, forward *)
        cbn [placeholder_text]. unfold PEP_CODE_HINT_FORWARDREF_UNQUALIFIED_PLACEHOLDER_PREFIX,
          PEP_CODE_HINT_FORWARDREF_UNQUALIFIED_PLACEHOLDER_SUFFIX.
        change (("${FORWARDREF:" ++ c' ++ "]?") ++ render t)
          with (String "$" (("{FORWARDREF:" ++ c' ++ "]?") ++ render t)).
        rewrite replace_scan_nomatch.
        -- assert (Hno : has_char "$" ("{FORWARDREF:" ++ c' ++ "]?") = false)
             by (rewrite (has_char_delimited "$" "{FORWARDREF:" c' "]?" Hx eq_refl); reflexivity).
           exact (f_equal (String "$")
                    (replace_scan_no_first_char "$" _ new ("{FORWARDREF:" ++ c' ++ "]?")
                       (render t) Hno)).
        -- destruct (prefix ("${FORWARDREF:" ++ c ++ "]?")
                       (String "$" (("{FORWARDREF:" ++ c' ++ "]?") ++ render t)))
             eqn:F; [exfalso | reflexivity].
           change ("${FORWARDREF:" ++ c ++ "]?") with ("${FORWARDREF:" ++ (c ++ "]?")) in F.
           change (String "$" (("{FORWARDREF:" ++ c' ++ "]?") ++ render t))
             with ("${FORWARDREF:" ++ ((c' ++ "]?") ++ render t)) in F.
           rewrite prefix_app_cancel, append_assoc in F.
           apply (prefix_content "]" "?" ("?" ++ render t) eq_refl c c' Hp Hx) in F.
           congruence.
      * (* forward, root *)
        now apply replace_scan_no_first_char.
      * (* root, child *)
        apply replace_scan_no_first_char. cbn [placeholder_text].
        rewrite (has_char_delimited "?" _ id' _ Hx eq_refl). reflexivity.
      * (* root, forward: the reference ends with the character the root-name
           placeholder starts with *)
        cbn [placeholder_text]. unfold PEP_CODE_HINT_FORWARDREF_UNQUALIFIED_PLACEHOLDER_PREFIX,
          PEP_CODE_HINT_FORWARDREF_UNQUALIFIED_PLACEHOLDER_SUFFIX.
        replace (("${FORWARDREF:" ++ c' ++ "]?") ++ render t)
          with (("${FORWARDREF:" ++ c' ++ "]") ++ String "?" (render t))
          by (rewrite !append_assoc; reflexivity).
        replace (("${FORWARDREF:" ++ c' ++ "]?")
                 ++ replace_scan PEP_CODE_PITH_ROOT_PARAM_NAME_PLACEHOLDER new 0 (render t))
          with (("${FORWARDREF:" ++ c' ++ "]")
                ++ String "?" (replace_scan PEP_CODE_PITH_ROOT_PARAM_NAME_PLACEHOLDER new 0
                                 (render t)))
          by (rewrite !append_assoc; reflexivity).
        unfold PEP_CODE_PITH_ROOT_PARAM_NAME_PLACEHOLDER.
        rewrite replace_scan_no_first_char
          by (rewrite (has_char_delimited "?" _ c' _ Hx eq_refl); reflexivity).
        f_equal. apply replace_scan_nomatch.
        cbn [prefix]. destruct (ascii_dec "?" "?"); [|reflexivity].
        apply (root_tail_not_at_template "" t eq_refl Hwf).
Qed.

(** The same of [str.replace]. *)
Lemma str_replace_template (p : placeholder) (new : string) (t : list piece) :
  wf_placeholder p = true -> wf_template (family_of p) t = true ->
  str_replace (render t) (placeholder_text p) new = render (splice p new t).
Proof.
  intros Hp Hwf. rewrite <- (replace_scan_template p new Hp t Hwf).
  destruct p; reflexivity.
Qed.


Lemma splice_twice (p : placeholder) (new : string) (t : list piece) :
  splice p new (splice p new t) = splice p new t.
Proof.
  unfold splice. rewrite map_map. apply map_ext. intros [s|q]; [reflexivity|].
  destruct (placeholder_eqb q p) eqn:E; [reflexivity | now rewrite E].
Qed.

Lemma splice_wf (f : family) (p : placeholder) (new : string) (t : list piece) :
  has_char (marker f) new = false -> wf_template f t = true ->
  wf_template f (splice p new t) = true.
Proof.
  intros Hnew. unfold wf_template, splice. rewrite !forallb_forall. intros Hwf x Hx.
  apply in_map_iff in Hx. destruct Hx as ([s|q] & <- & Hin); [now apply Hwf|].
  destruct (placeholder_eqb q p); [|now apply Hwf].
  cbn [wf_piece]. now rewrite Hnew.
Qed.

Lemma splice_other_family (p q : placeholder) (new : string) (t : list piece) (i : nat) :
  family_eqb (family_of q) (family_of p) = false ->
  nth_error t i = Some (Slot q) -> nth_error (splice p new t) i = Some (Slot q).
Proof.
  intros Hf Hi. unfold splice. rewrite nth_error_map, Hi. cbn [option_map].
  destruct p, q; try discriminate Hf; reflexivity.
Qed.

End Templates.

(** C7.  The five delimiters of the three placeholder families are pairwise
    distinct, and for two delimiters [d] and [e] of different families
    neither is a substring of the other, so that replacing the occurrences
    of [d] in [e] by any string leaves [e] as it is.  Hence, on a template
    whose text between the placeholders is free of the marker of a family,
    the global replacement of a placeholder of that family by any string
    changes the slots of that placeholder and nothing else: the text and
    every other placeholder are in the result as they were, each slot of
    another family at its place. *)
Theorem placeholder_delimiters_collision_free :
  NoDup (flat_map delimiters families) /\
  (forall f g d e,
     family_eqb f g = false -> In d (delimiters f) -> In e (delimiters g) ->
     d <> e /\ is_substring d e = false /\ is_substring e d = false /\
     forall new, str_replace e d new = e) /\
  (forall (p : placeholder) (new : string) (t : list piece),
     wf_placeholder p = true -> wf_template (family_of p) t = true ->
     str_replace (render t) (placeholder_text p) new = render (splice p new t) /\
     forall (i : nat) (q : placeholder),
       family_eqb (family_of q) (family_of p) = false ->
       nth_error t i = Some (Slot q) ->
       nth_error (splice p new t) i = Some (Slot q)).
Proof.
  split; [|split].
  - repeat constructor; simpl; intuition discriminate.
  - intros f g d e Hfg Hd He.
    destruct f, g; try discriminate Hfg; simpl in Hd, He;
      repeat match goal with
             | H : _ \/ _ |- _ => destruct H as [H|H]
             | H : False |- _ => destruct H
             end; subst d e;
      (split; [discriminate|]); (split; [reflexivity|]); (split; [reflexivity|]);
      intros new; apply str_replace_absent; reflexivity.
  - intros p new t Hp Hwf. split; [now apply str_replace_template|].
    intros i q Hf Hi. now apply splice_other_family.
Qed.

(** C7 on the prefix of the child-slot family and the root-name placeholder,
    and on a template holding a placeholder of each family, the forward
    reference right before the root-name placeholder. *)
Lemma placeholder_delimiters_collision_free_witness :
  is_substring PEP_CODE_HINT_CHILD_PLACEHOLDER_PREFIX PEP_CODE_PITH_ROOT_PARAM_NAME_PLACEHOLDER = false /\
  is_substring PEP_CODE_PITH_ROOT_PARAM_NAME_PLACEHOLDER PEP_CODE_HINT_CHILD_PLACEHOLDER_PREFIX = false /\
  str_replace PEP_CODE_PITH_ROOT_PARAM_NAME_PLACEHOLDER PEP_CODE_HINT_CHILD_PLACEHOLDER_PREFIX "x"
    = PEP_CODE_PITH_ROOT_PARAM_NAME_PLACEHOLDER /\
  str_replace
    (render [Text "(isinstance(pith, "; Slot (Forward "Cls"); Slot Root;
             Text ") and "; Slot (Child "1"); Text ")"])
    PEP_CODE_PITH_ROOT_PARAM_NAME_PLACEHOLDER "arg"
  = "(isinstance(pith, ${FORWARDREF:Cls]?arg) and @[1)!)"%string /\
  str_replace
    (render [Text "(isinstance(pith, "; Slot (Forward "Cls"); Slot Root;
             Text ") and "; Slot (Child "1"); Text ")"])
    (placeholder_text (Forward "Cls")) "Cls"
  = "(isinstance(pith, Cls?|PITH_ROOT_NAME`^) and @[1)!)"%string.
Proof.
  destruct placeholder_delimiters_collision_free as (_ & H & Ht).
  destruct (H ChildSlot RootName PEP_CODE_HINT_CHILD_PLACEHOLDER_PREFIX
              PEP_CODE_PITH_ROOT_PARAM_NAME_PLACEHOLDER eq_refl
              (or_introl eq_refl) (or_introl eq_refl)) as (_ & H1 & H2 & H3).
  split; [exact H1|]. split; [exact H2|]. split; [apply H3|]. split.
  - exact (proj1 (Ht Root "arg"%string
                    [Text "(isinstance(pith, "; Slot (Forward "Cls"); Slot Root;
                     Text ") and "; Slot (Child "1"); Text ")"] eq_refl eq_refl)).
  - exact (proj1 (Ht (Forward "Cls") "Cls"%string
                    [Text "(isinstance(pith, "; Slot (Forward "Cls"); Slot Root;
                     Text ") and "; Slot (Child "1"); Text ")"] eq_refl eq_refl)).
Defined.

(** The text between the placeholders matters.  Right after a forward
    reference, the text [|PITH_ROOT_NAME`^] completes the root-name
    placeholder with the question mark that ends the reference; and around
    a slot of the root-name placeholder, the text [?|] and [_ROOT_NAME`^]
    rebuilds the placeholder from the name PITH.  Both texts hold the
    backtick. *)
Remark markers_in_text :
  str_replace "${FORWARDREF:Cls]?|PITH_ROOT_NAME`^" PEP_CODE_PITH_ROOT_PARAM_NAME_PLACEHOLDER "arg"
    = "${FORWARDREF:Cls]arg"%string /\
  wf_template RootName [Slot (Forward "Cls"); Text "|PITH_ROOT_NAME`^"] = false /\
  substitute_root_name (render [Text "?|"; Slot Root; Text "_ROOT_NAME`^"]) "PITH"
    = PEP_CODE_PITH_ROOT_PARAM_NAME_PLACEHOLDER /\
  wf_template RootName [Text "?|"; Slot Root; Text "_ROOT_NAME`^"] = false.
Proof. repeat split. Qed.

(** C8.  For every code template whose text between the placeholders holds
    no backtick (as the text of every snippet, name and expression of the
    generated code) and every identifier, whether it is part of the text of
    the placeholder or not: the substitution of the root pith name puts
    the name in every slot of the placeholder and leaves the rest as it is,
    and substituting twice yields the same string as substituting once.
    Spliced in as a string literal, [repr(name)], the same holds on every
    string whatever; and spliced in as it is, on every string when the name
    is not part of the text of the placeholder.  (The substitution is a
    function of the template and the name alone.) *)
Theorem root_name_substitution_idempotent (t : list piece) (name : string) :
  is_identifier name = true ->
  wf_template RootName t = true ->
  substitute_root_name (render t) name = render (splice Root name t) /\
  substitute_root_name (substitute_root_name (render t) name) name
    = substitute_root_name (render t) name /\
  (forall text : string,
     substitute_root_name (substitute_root_name text (repr name)) (repr name)
     = substitute_root_name text (repr name)) /\
  (forall text : string,
     is_substring name PEP_CODE_PITH_ROOT_PARAM_NAME_PLACEHOLDER = false ->
     substitute_root_name (substitute_root_name text name) name
     = substitute_root_name text name).
Proof.
  intros Hid Hwf. apply identifier_chars in Hid.
  assert (Hname : forall c, is_identifier_continue c = false -> has_char c name = false)
    by (intros c; apply (all_chars_has_char _ _ _ Hid)).
  assert (H1 : substitute_root_name (render t) name = render (splice Root name t))
    by (apply (str_replace_template Root name t eq_refl Hwf)).
  split; [exact H1|]. split; [|split].
  - rewrite H1.
    assert (H2 : substitute_root_name (render (splice Root name t)) name
                 = render (splice Root name (splice Root name t))).
    { apply (str_replace_template Root name _ eq_refl).
      apply splice_wf; [|exact Hwf]. now apply Hname. }
    rewrite H2. now rewrite splice_twice.
  - intros text. unfold substitute_root_name.
    apply (str_replace_idempotent "?"%char "^"%char "|PITH_ROOT_NAME`^" "?|PITH_ROOT_NAME`"
             (repr name)).
    + reflexivity.
    + unfold repr. now rewrite (has_char_delimited "?" "'" name "'" Hid eq_refl).
    + unfold repr. now rewrite (has_char_delimited "^" "'" name "'" Hid eq_refl).
    + destruct (is_substring (repr name) "?|PITH_ROOT_NAME`^") eqn:E; [|reflexivity].
      apply (is_substring_first_char "'" (name ++ "'")) in E. discriminate E.
  - intros text Hout. unfold substitute_root_name.
    apply (str_replace_idempotent "?"%char "^"%char "|PITH_ROOT_NAME`^" "?|PITH_ROOT_NAME`" name).
    + reflexivity.
    + now apply Hname.
    + now apply Hname.
    + exact Hout.
Qed.

(** C8 on the snippet naming the root pith and the name PITH, which is part
    of the text of the placeholder. *)
Lemma root_name_substitution_idempotent_witness :
  is_substring "PITH" PEP_CODE_PITH_ROOT_PARAM_NAME_PLACEHOLDER = true /\
  substitute_root_name
    (render (PEP_CODE_HINT_ROOT_SUFFIX "__beartype_raise_exception" "__beartype_func"
               "__beartype_pith_0" ""))
    "PITH"
  = render (splice Root "PITH"
              (PEP_CODE_HINT_ROOT_SUFFIX "__beartype_raise_exception" "__beartype_func"
                 "__beartype_pith_0" "")) /\
  substitute_root_name
    (substitute_root_name
       (render (PEP_CODE_HINT_ROOT_SUFFIX "__beartype_raise_exception" "__beartype_func"
                  "__beartype_pith_0" ""))
       "PITH")
    "PITH"
  = substitute_root_name
      (render (PEP_CODE_HINT_ROOT_SUFFIX "__beartype_raise_exception" "__beartype_func"
                 "__beartype_pith_0" ""))
      "PITH".
Proof.
  split; [reflexivity|].
  destruct (root_name_substitution_idempotent
              (PEP_CODE_HINT_ROOT_SUFFIX "__beartype_raise_exception" "__beartype_func"
                 "__beartype_pith_0" "")
              "PITH" eq_refl eq_refl) as (H1 & H2 & _).
  split; [exact H1 | exact H2].
Defined.

(** ** The class tester *)

Import ClsTest.

Lemma issubclass_classes (c : pytype) (l : list pyobj) :
  forallb is_class l = true ->
  issubclass (PType c) (PTuple l) = Ok (existsb (type_issubclass c) (classes_of (PTuple l))).
Proof.
  induction l as [|x l IH]; [reflexivity|]. simpl forallb. intros H.
  apply andb_prop in H. destruct H as [Hx Hl].
  destruct x; try discriminate Hx.
  change (issubclass (PType c) (PTuple (PType c0 :: l)))
    with (match issubclass (PType c) (PType c0) with
          | Ok true => Ok true
          | Ok false => issubclass (PType c) (PTuple l)
          | Raise e => Raise e
          end).
  simpl issubclass at 1. simpl classes_of in *. simpl existsb.
  destruct (type_issubclass c c0); [reflexivity|]. now rewrite IH.
Qed.

Lemma not_class_not_type (obj : pyobj) :
  is_class obj = false -> isinstance obj (PType type_t) = Ok false.
Proof. destruct obj; simpl; intros H; try reflexivity; discriminate. Qed.

(** C10.  For a valid [base_classes] (a class or a non-empty tuple of
    classes): on an object that is not a class, [is_type_subclass] returns
    [False] where the builtin [issubclass] raises [TypeError]; it never
    raises; and it returns [True] exactly when the object is a class that
    is a subclass of the class, or of one of the classes of the tuple. *)
Theorem is_type_subclass_safe (obj base_classes : pyobj) :
  valid_base_classes base_classes = true ->
  (is_class obj = false ->
     is_type_subclass obj base_classes = Ok false /\
     issubclass obj base_classes = Raise TypeError) /\
  (exists b, is_type_subclass obj base_classes = Ok b) /\
  (is_type_subclass obj base_classes = Ok true <->
     exists c b, obj = PType c /\ In b (classes_of base_classes) /\
                 type_issubclass c b = true).
Proof.
  intros Hvalid.
  assert (Hassert : isinstance base_classes TestableTypesTuple = Ok true).
  { destruct base_classes; try discriminate Hvalid; reflexivity. }
  assert (Hnot : is_class obj = false ->
            is_type_subclass obj base_classes = Ok false /\
            issubclass obj base_classes = Raise TypeError).
  { intros Hobj. split.
    - unfold is_type_subclass. rewrite Hassert. cbn [bind negb].
      now rewrite (not_class_not_type _ Hobj).
    - destruct base_classes as [| | | |[|x l]| | |]; try discriminate Hvalid.
      + simpl in Hvalid. apply andb_prop in Hvalid. destruct Hvalid as [Hx _].
        destruct x; try discriminate Hx. destruct obj; try discriminate Hobj; reflexivity.
      + destruct obj; try discriminate Hobj; reflexivity. }
  assert (Hcls : forall c, is_type_subclass (PType c) base_classes
                 = Ok (existsb (type_issubclass c) (classes_of base_classes))).
  { intros c. unfold is_type_subclass. rewrite Hassert.
    cbn [bind negb]. change (isinstance (PType c) (PType type_t)) with (@Ok bool true).
    cbn [bind].
    destruct base_classes as [| | | |[|x l]| | |]; try discriminate Hvalid.
    - now apply issubclass_classes.
    - simpl. now rewrite orb_false_r. }
  split; [exact Hnot|]. split.
  - destruct (is_class obj) eqn:E.
    + destruct obj; try discriminate E. rewrite Hcls. eauto.
    + destruct (Hnot eq_refl) as [H _]. eauto.
  - split.
    + intros H. destruct (is_class obj) eqn:E.
      * destruct obj as [| | | | | |c|]; try discriminate E.
        rewrite Hcls in H. injection H as H'.
        apply existsb_exists in H'. destruct H' as (b & Hin & Hb).
        exists c, b. split; [reflexivity | split; assumption].
      * destruct (Hnot eq_refl) as [H' _]. congruence.
    + intros (c & b & -> & Hin & Hb). rewrite Hcls. f_equal.
      apply existsb_exists. exists b. split; assumption.
Qed.

(** C10 on the integer 3 and the tuple of the classes [str] and [int]. *)
Lemma is_type_subclass_safe_witness :
  is_type_subclass (PInt 3) (PTuple [PType str_t; PType int_t]) = Ok false /\
  issubclass (PInt 3) (PTuple [PType str_t; PType int_t]) = Raise TypeError.
Proof.
  apply (is_type_subclass_safe (PInt 3) (PTuple [PType str_t; PType int_t]) eq_refl);
    reflexivity.
Defined.

(** ** The generated checks *)

Import Snip.

Lemma hint_nested_ind (P : hint -> Prop) :
  (forall origin, P (HintInstance origin)) ->
  (forall children, Forall P children -> P (HintUnion children)) ->
  (forall origin child, P child -> P (HintSequence origin child)) ->
  (forall children, Forall P children -> P (HintTupleFixed children)) ->
  forall h, P h.
Proof.
  intros HI HU HS HT.
  fix IH 1. intros [origin|children|origin child|children].
  - apply HI.
  - apply HU. induction children as [|c cs IHcs]; constructor; [apply IH | exact IHcs].
  - apply HS, IH.
  - apply HT. induction children as [|c cs IHcs]; constructor; [apply IH | exact IHcs].
Qed.

(** *** Local scopes *)

Lemma var_eqb_refl (x : var) : var_eqb x x = true.
Proof. destruct x; simpl; [apply Nat.eqb_refl | reflexivity]. Qed.

Lemma assign_same (rho : env) (x : var) (v : pyobj) : assign rho x v x = Some v.
Proof. unfold assign. now rewrite var_eqb_refl. Qed.

Lemma agree_refl (d : nat) (rho : env) : agree d rho rho.
Proof. intros x _. reflexivity. Qed.

Lemma agree_trans (d : nat) (rho1 rho2 rho3 : env) :
  agree d rho1 rho2 -> agree d rho2 rho3 -> agree d rho1 rho3.
Proof. intros H1 H2 x Hx. now rewrite (H2 x Hx), (H1 x Hx). Qed.

Lemma agree_weaken (d : nat) (rho1 rho2 : env) :
  agree (S d) rho1 rho2 -> agree d rho1 rho2.
Proof.
  intros H x Hx. apply H. destruct x as [k|]; simpl in *; [|reflexivity].
  apply Nat.ltb_lt in Hx. apply Nat.ltb_lt. lia.
Qed.

Lemma agree_assign (d : nat) (rho : env) (v : pyobj) :
  agree d rho (assign rho (VarPith d) v).
Proof.
  intros x Hx. unfold assign. destruct x as [k|]; simpl in *; [|reflexivity].
  apply Nat.ltb_lt in Hx. destruct (Nat.eqb_spec d k); [lia | reflexivity].
Qed.

Lemma agree_pith (d : nat) (rho1 rho2 : env) :
  agree (S d) rho1 rho2 -> rho2 (VarPith d) = rho1 (VarPith d).
Proof. intros H. apply H. simpl. apply Nat.ltb_lt. lia. Qed.

Lemma agree_random_int (d : nat) (rho1 rho2 : env) :
  agree d rho1 rho2 -> rho2 VAR_NAME_RANDOM_INT = rho1 VAR_NAME_RANDOM_INT.
Proof. intros H. now apply H. Qed.

(** *** Values *)

Lemma length_list_ascii (s : string) :
  List.length (list_ascii_of_string s) = String.length s.
Proof. induction s; simpl; congruence. Qed.

Lemma seq_items_truthy (v : pyobj) (l : list pyobj) :
  seq_items v = Some l -> truthy v = negb (List.length l =? 0)%nat.
Proof.
  destruct v; simpl; intros H; inversion H; subst; try reflexivity.
  now rewrite length_map, length_list_ascii.
Qed.

Lemma sequence_origin_items (origin : pytype) (v : pyobj) :
  sequence_origin origin = true -> type_issubclass (type_of v) origin = true ->
  exists l, seq_items v = Some l.
Proof.
  unfold sequence_origin, value_types. cbn [forallb]. intros H Hv.
  repeat (apply andb_prop in H; destruct H as [?H H]).
  destruct v; cbn [type_of] in Hv; simpl seq_items; eauto;
    match goal with
    | H : implb (type_issubclass ?t origin) _ = true |- _ =>
        rewrite Hv in H; discriminate H
    end.
Qed.

Lemma tuple_instance (v : pyobj) :
  type_issubclass (type_of v) tuple_t = true -> exists l, v = PTuple l.
Proof. destruct v; simpl; intros H; try discriminate H. eauto. Qed.

Lemma getitem_nth_error (v : pyobj) (l : list pyobj) (i : nat) (x : pyobj) :
  seq_items v = Some l -> nth_error l i = Some x ->
  getitem v (PInt (Z.of_nat i)) = Ok x.
Proof.
  intros Hl Hx. unfold getitem. rewrite Hl. cbn [int_value].
  assert (Hi : (i < List.length l)%nat) by (apply nth_error_Some; congruence).
  assert (E1 : (Z.of_nat i <? 0) = false) by (apply Z.ltb_ge; lia).
  assert (E2 : (Z.of_nat (List.length l) <=? Z.of_nat i) = false) by (apply Z.leb_gt; lia).
  cbv zeta. rewrite E1. cbv iota. rewrite E1, E2. cbn [orb].
  now rewrite Nat2Z.id, Hx.
Qed.

(** The item at the random index: the remainder is a valid index of a
    non-empty sequence, whatever the random integer. *)
Lemma getitem_random (v : pyobj) (l : list pyobj) (r : Z) :
  seq_items v = Some l -> l <> [] ->
  0 <= r mod Z.of_nat (List.length l) < Z.of_nat (List.length l) /\
  mod_ (PInt r) (PInt (Z.of_nat (List.length l)))
    = Ok (PInt (r mod Z.of_nat (List.length l))) /\
  getitem v (PInt (r mod Z.of_nat (List.length l)))
    = Ok (nth (Z.to_nat (r mod Z.of_nat (List.length l))) l PNone).
Proof.
  intros Hl Hne.
  assert (Hn : 0 < Z.of_nat (List.length l)) by (destruct l; [contradiction | simpl; lia]).
  pose proof (Z.mod_pos_bound r _ Hn) as Hb. split; [exact Hb|]. split.
  - unfold mod_. cbn [int_value]. destruct (Z.eqb_spec (Z.of_nat (List.length l)) 0); [lia | reflexivity].
  - rewrite <- (Z2Nat.id (r mod Z.of_nat (List.length l))) at 1 by lia.
    apply (getitem_nth_error v l); [assumption|].
    apply nth_error_nth'. lia.
Qed.

Lemma skipn_cons_nth_error (A : Type) (l : list A) : forall i x rest,
  skipn i l = x :: rest -> nth_error l i = Some x /\ skipn (S i) l = rest.
Proof.
  induction l as [|y l IH]; intros [|i] x rest H; simpl in *; try discriminate.
  - inversion H. auto.
  - now apply IH.
Qed.

(** *** Evaluation of the connectives on boolean operands *)

Lemma eval_BoolAnd (e1 e2 : expr) (rho rho1 : env) (b : bool) :
  eval e1 rho = Ok (PBool b, rho1) ->
  eval (BoolAnd e1 e2) rho = if b then eval e2 rho1 else Ok (PBool false, rho1).
Proof. intros H. cbn [eval]. rewrite H. destruct b; reflexivity. Qed.

Lemma eval_BoolOr (e1 e2 : expr) (rho rho1 : env) (b : bool) :
  eval e1 rho = Ok (PBool b, rho1) ->
  eval (BoolOr e1 e2) rho = if b then Ok (PBool true, rho1) else eval e2 rho1.
Proof. intros H. cbn [eval]. rewrite H. destruct b; reflexivity. Qed.

Lemma eval_UnaryNot_Name (x : var) (rho : env) (v : pyobj) :
  rho x = Some v -> eval (UnaryNot (Name x)) rho = Ok (PBool (negb (truthy v)), rho).
Proof. intros H. cbn [eval]. now rewrite H. Qed.

Lemma eval_Isinstance_type (e : expr) (t : pytype) (rho rho1 : env) (v : pyobj) :
  eval e rho = Ok (v, rho1) ->
  eval (Isinstance e (Const (PType t))) rho
  = Ok (PBool (type_issubclass (type_of v) t), rho1).
Proof. intros H. cbn [eval]. now rewrite H. Qed.

Lemma eval_NamedExpr (x : var) (e : expr) (rho rho1 : env) (v : pyobj) :
  eval e rho = Ok (v, rho1) ->
  eval (NamedExpr x e) rho = Ok (v, assign rho1 x v).
Proof. intros H. cbn [eval]. now rewrite H. Qed.

Lemma eval_Len_CompareEq (x : var) (rho : env) (v : pyobj) (l : list pyobj) (n : nat) :
  rho x = Some v -> seq_items v = Some l ->
  eval (CompareEq (Len (Name x)) (Const (PInt (Z.of_nat n)))) rho
  = Ok (PBool (List.length l =? n)%nat, rho).
Proof.
  intros Hx Hl. cbn [eval]. rewrite Hx. cbn [bind fst snd]. unfold lift, len.
  rewrite Hl. cbn [bind fst snd __eq__]. do 3 f_equal.
  destruct (Nat.eqb_spec (List.length l) n) as [->|Hne];
    [apply Z.eqb_refl | apply Z.eqb_neq; lia].
Qed.

(** The item expression of a sequence, where the pith variable holds a
    non-empty sequence. *)
Lemma eval_sequence_item (d : nat) (rho : env) (v : pyobj) (l : list pyobj) (r : Z) :
  rho (VarPith d) = Some v -> rho VAR_NAME_RANDOM_INT = Some (PInt r) ->
  seq_items v = Some l -> l <> [] ->
  eval (PEP484585_CODE_HINT_SEQUENCE_ARGS_1_PITH_CHILD_EXPR (VarPith d)) rho
  = Ok (nth (Z.to_nat (r mod Z.of_nat (List.length l))) l PNone, rho).
Proof.
  intros Hpith Hrand Hl Hne.
  destruct (getitem_random v l r Hl Hne) as (_ & Hmod & Hget).
  unfold PEP484585_CODE_HINT_SEQUENCE_ARGS_1_PITH_CHILD_EXPR. cbn [eval].
  rewrite Hpith. cbn [bind fst snd]. rewrite Hrand. cbn [bind fst snd].
  rewrite Hpith. cbn [bind fst snd]. unfold lift, len. rewrite Hl.
  cbn [bind fst snd]. rewrite Hmod. cbn [bind fst snd]. now rewrite Hget.
Qed.

(** The item expression of a fixed-length tuple at a valid index. *)
Lemma eval_tuple_item (d : nat) (rho : env) (l : list pyobj) (i : nat) (x : pyobj) :
  rho (VarPith d) = Some (PTuple l) -> nth_error l i = Some x ->
  eval (PEP484585_CODE_HINT_TUPLE_FIXED_NONEMPTY_PITH_CHILD_EXPR (VarPith d) i) rho
  = Ok (x, rho).
Proof.
  intros Hpith Hx. unfold PEP484585_CODE_HINT_TUPLE_FIXED_NONEMPTY_PITH_CHILD_EXPR.
  cbn [eval]. rewrite Hpith. cbn [bind fst snd lift].
  now rewrite (getitem_nth_error (PTuple l) l i x eq_refl Hx).
Qed.

(** *** The children of a node *)

Lemma plain_conforms_isinstance (v : pyobj) (r : Z) (cs : list hint) :
  isinstance v (PTuple (plain_types cs))
  = Ok (plain_conforms (fun c => conforms c v r) cs).
Proof.
  induction cs as [|c cs IH]; [reflexivity|].
  destruct c as [origin| | |]; try exact IH.
  cbn [plain_types].
  change (isinstance v (PTuple (PType origin :: plain_types cs)))
    with (match isinstance v (PType origin) with
          | Ok true => Ok true
          | Ok false => isinstance v (PTuple (plain_types cs))
          | Raise e => Raise e
          end).
  rewrite IH. unfold plain_conforms. cbn [existsb is_plain conforms isinstance andb].
  destruct (type_issubclass (type_of v) origin); reflexivity.
Qed.

Lemma conforms_union_split (f : hint -> bool) (cs : list hint) :
  existsb f cs = plain_conforms f cs || pep_conforms f cs.
Proof.
  unfold plain_conforms, pep_conforms.
  induction cs as [|c cs IH]; [reflexivity|]. cbn [existsb]. rewrite IH.
  destruct (is_plain c), (f c); cbn [negb andb orb]; try reflexivity.
  now rewrite orb_true_r.
Qed.

Lemma plain_types_nil (cs : list hint) :
  plain_types cs = [] -> forallb (fun c => negb (is_plain c)) cs = true.
Proof.
  induction cs as [|c cs IH]; [reflexivity|].
  destruct c; cbn [plain_types forallb is_plain negb andb]; try exact IH. discriminate.
Qed.

Lemma tuple_childs_correct (d : nat) (l : list pyobj) (r : Z) : forall cs,
  Forall generated_correct cs -> forallb wf_hint cs = true ->
  forall i codes lsuf rho,
    tuple_childs (fun c e => pep_code_check_hint c e (S d)) (VarPith d) cs i = Ok codes ->
    rho (VarPith d) = Some (PTuple l) -> rho VAR_NAME_RANDOM_INT = Some (PInt r) ->
    skipn i l = lsuf -> List.length lsuf = List.length cs ->
    match codes with
    | [] => cs = []
    | code :: codes' =>
        exists rho',
          eval (conj code codes') rho
          = Ok (PBool (all_conform (fun c x => conforms c x r) cs lsuf), rho') /\
          agree (S d) rho rho'
    end.
Proof.
  induction cs as [|c cs IH]; intros HF Hwf i codes lsuf rho Hgen Hpith Hrand Hskip Hlen.
  - simpl in Hgen. inversion Hgen. reflexivity.
  - cbn [tuple_childs] in Hgen.
    destruct (pep_code_check_hint c _ (S d)) as [code|] eqn:Ec; [|discriminate].
    cbn [bind] in Hgen.
    destruct (tuple_childs _ _ cs (S i)) as [codes'|] eqn:Ecs; [|discriminate].
    cbn [bind] in Hgen. inversion Hgen; subst codes; clear Hgen.
    destruct lsuf as [|x lsuf']; [discriminate|].
    destruct (skipn_cons_nth_error _ _ _ _ _ Hskip) as [Hx Hskip'].
    apply Forall_cons_iff in HF. destruct HF as [Hc HF'].
    cbn [forallb] in Hwf. apply andb_prop in Hwf. destruct Hwf as [Hwfc Hwfcs].
    pose proof (eval_tuple_item d rho l i x Hpith Hx) as Hpe.
    destruct (Hc Hwfc _ _ _ _ _ _ _ Ec Hpe Hrand) as (rho2 & Hev & Hag).
    assert (Hpith2 : rho2 (VarPith d) = Some (PTuple l))
      by (now rewrite (agree_pith _ _ _ Hag)).
    assert (Hrand2 : rho2 VAR_NAME_RANDOM_INT = Some (PInt r))
      by (now rewrite (agree_random_int _ _ _ Hag)).
    cbn [List.length] in Hlen.
    specialize (IH HF' Hwfcs (S i) codes' lsuf' rho2 Ecs Hpith2 Hrand2 Hskip' ltac:(lia)).
    unfold PEP484585_CODE_HINT_TUPLE_FIXED_NONEMPTY_CHILD.
    destruct codes' as [|code' codes''].
    + subst cs. exists rho2. cbn [conj all_conform]. rewrite Hev.
      split; [now rewrite andb_true_r | assumption].
    + destruct IH as (rho3 & Hev3 & Hag3). cbn [conj eval all_conform].
      rewrite Hev. cbn [bind fst snd truthy].
      destruct (conforms c x r).
      * exists rho3. split; [exact Hev3 | now apply (agree_trans _ _ rho2)].
      * exists rho2. split; [reflexivity | assumption].
Qed.

Lemma union_childs_correct (d : nat) (assign_expr : expr) (v : pyobj) (r : Z) : forall cs,
  Forall generated_correct cs -> forallb wf_hint cs = true ->
  forall codes rho,
    union_childs (fun c e => pep_code_check_hint c e (S d)) assign_expr (VarPith d) cs false
    = Ok codes ->
    rho (VarPith d) = Some v -> rho VAR_NAME_RANDOM_INT = Some (PInt r) ->
    match codes with
    | [] => pep_conforms (fun c => conforms c v r) cs = false
    | code :: codes' =>
        exists rho',
          eval (disj code codes') rho
          = Ok (PBool (pep_conforms (fun c => conforms c v r) cs), rho') /\
          agree (S d) rho rho'
    end.
Proof.
  induction cs as [|c cs IH]; intros HF Hwf codes rho Hgen Hpith Hrand.
  - simpl in Hgen. inversion Hgen. reflexivity.
  - apply Forall_cons_iff in HF. destruct HF as [Hc HF'].
    cbn [forallb] in Hwf. apply andb_prop in Hwf. destruct Hwf as [Hwfc Hwfcs].
    cbn [union_childs] in Hgen. unfold pep_conforms. cbn [existsb].
    fold (pep_conforms (fun c => conforms c v r) cs).
    destruct (is_plain c) eqn:Eplain.
    + cbn [negb andb orb]. now apply IH.
    + destruct (pep_code_check_hint c _ (S d)) as [code|] eqn:Ec; [|discriminate].
      cbn [bind] in Hgen.
      destruct (union_childs _ _ _ cs false) as [codes'|] eqn:Ecs; [|discriminate].
      cbn [bind] in Hgen. inversion Hgen; subst codes; clear Hgen.
      assert (Hpe : eval (Name (VarPith d)) rho = Ok (v, rho))
        by (cbn [eval]; now rewrite Hpith).
      destruct (Hc Hwfc _ _ _ _ _ _ _ Ec Hpe Hrand) as (rho2 & Hev & Hag).
      assert (Hpith2 : rho2 (VarPith d) = Some v)
        by (now rewrite (agree_pith _ _ _ Hag)).
      assert (Hrand2 : rho2 VAR_NAME_RANDOM_INT = Some (PInt r))
        by (now rewrite (agree_random_int _ _ _ Hag)).
      specialize (IH HF' Hwfcs codes' rho2 eq_refl Hpith2 Hrand2).
      unfold PEP484_CODE_HINT_UNION_CHILD_PEP. cbn [negb andb].
      destruct codes' as [|code' codes''].
      * exists rho2. cbn [disj]. rewrite Hev, IH.
        split; [now rewrite orb_false_r | assumption].
      * destruct IH as (rho3 & Hev3 & Hag3). cbn [disj eval].
        rewrite Hev. cbn [bind fst snd truthy].
        destruct (conforms c v r).
        -- exists rho2. split; [reflexivity | assumption].
        -- exists rho3. split; [exact Hev3 | now apply (agree_trans _ _ rho2)].
Qed.

(** *** The generator *)

Theorem pep_code_check_hint_correct (h : hint) : generated_correct h.
Proof.
  induction h as [origin|children IH|origin child IH|children IH] using hint_nested_ind;
    intros Hwf pe d code rho v rho1 r Hgen Hpe Hrand.
  - (* instance check *)
    cbn [pep_code_check_hint] in Hgen. inversion Hgen; subst code; clear Hgen.
    exists rho1. unfold PEP484_CODE_HINT_INSTANCE. cbn [eval]. rewrite Hpe.
    cbn [bind fst snd isinstance conforms]. split; [reflexivity | apply agree_refl].
  - (* union *)
    cbn [wf_hint] in Hwf. apply andb_prop in Hwf. destruct Hwf as [Hne Hwf].
    cbn [pep_code_check_hint] in Hgen. cbn [conforms].
    rewrite conforms_union_split.
    pose proof (plain_conforms_isinstance v r children) as Hplain.
    assert (Hassign : eval (PEP_CODE_PITH_ASSIGN_EXPR (VarPith d) pe) rho
                      = Ok (v, assign rho1 (VarPith d) v)).
    { unfold PEP_CODE_PITH_ASSIGN_EXPR. cbn [eval]. now rewrite Hpe. }
    assert (Hpith' : assign rho1 (VarPith d) v (VarPith d) = Some v) by apply assign_same.
    assert (Hrand' : assign rho1 (VarPith d) v VAR_NAME_RANDOM_INT = Some (PInt r))
      by exact Hrand.
    destruct (plain_types children) as [|p ps] eqn:Eplain.
    + (* no plain child: the first child binds the pith variable *)
      pose proof (plain_types_nil _ Eplain) as Hpep.
      injection Hplain as Hplain. rewrite <- Hplain. cbn [orb]. clear Hplain.
      destruct children as [|c cs]; [discriminate Hne|].
      cbn [forallb] in Hpep, Hwf.
      apply andb_prop in Hpep. destruct Hpep as [Hc Hcs].
      apply andb_prop in Hwf. destruct Hwf as [Hwfc Hwfcs].
      apply Forall_cons_iff in IH. destruct IH as [IHc IHcs].
      apply negb_true_iff in Hc.
      cbn [union_childs] in Hgen. rewrite Hc in Hgen.
      destruct (pep_code_check_hint c _ (S d)) as [code0|] eqn:Ec; [|discriminate].
      cbn [bind] in Hgen.
      destruct (union_childs _ _ _ cs false) as [codes|] eqn:Ecs; [|discriminate].
      cbn [bind] in Hgen. inversion Hgen; subst code; clear Hgen.
      destruct (IHc Hwfc _ _ _ _ _ _ _ Ec Hassign Hrand') as (rho2 & Hev & Hag).
      assert (Hpith2 : rho2 (VarPith d) = Some v)
        by (now rewrite (agree_pith _ _ _ Hag)).
      assert (Hrand2 : rho2 VAR_NAME_RANDOM_INT = Some (PInt r))
        by (now rewrite (agree_random_int _ _ _ Hag)).
      pose proof (union_childs_correct d _ v r cs IHcs Hwfcs codes rho2 Ecs Hpith2 Hrand2) as Hrest.
      unfold pep_conforms. cbn [existsb]. rewrite Hc. cbn [negb andb].
      fold (pep_conforms (fun c => conforms c v r) cs).
      unfold PEP484_CODE_HINT_UNION_CHILD_PEP.
      assert (Hag1 : agree d rho1 rho2).
      { apply (agree_trans _ _ (assign rho1 (VarPith d) v));
          [apply agree_assign | now apply agree_weaken]. }
      destruct codes as [|code' codes'].
      * exists rho2. cbn [disj]. rewrite Hev, Hrest.
        split; [now rewrite orb_false_r | assumption].
      * destruct Hrest as (rho3 & Hev3 & Hag3). cbn [disj eval].
        rewrite Hev. cbn [bind fst snd truthy].
        destruct (conforms c v r).
        -- exists rho2. split; [reflexivity | assumption].
        -- exists rho3. split; [exact Hev3|].
           apply (agree_trans _ _ rho2); [assumption | now apply agree_weaken].
    + (* plain children: one isinstance against the tuple of them, first *)
      destruct (union_childs _ _ _ children false) as [codes|] eqn:Ecs; [|discriminate].
      cbn [bind] in Hgen.
      pose proof (union_childs_correct d _ v r children IH Hwf codes
                    (assign rho1 (VarPith d) v) Ecs Hpith' Hrand') as Hrest.
      unfold PEP484_CODE_HINT_UNION_CHILD_NONPEP in Hgen.
      destruct codes as [|code' codes'].
      * inversion Hgen; subst code; clear Hgen.
        exists rho1. cbn [eval]. rewrite Hpe. cbn [bind fst snd].
        rewrite Hplain. cbn [bind]. rewrite Hrest, orb_false_r.
        split; [reflexivity | apply agree_refl].
      * inversion Hgen; subst code; clear Hgen.
        destruct Hrest as (rho3 & Hev3 & Hag3).
        cbn [disj eval]. rewrite Hassign. cbn [bind fst snd eval].
        rewrite Hplain. cbn [bind fst snd truthy].
        destruct (plain_conforms (fun c => conforms c v r) children).
        -- exists (assign rho1 (VarPith d) v). split; [reflexivity | apply agree_assign].
        -- exists rho3. split; [exact Hev3|].
           apply (agree_trans _ _ (assign rho1 (VarPith d) v));
             [apply agree_assign | now apply agree_weaken].
  - (* sequence *)
    cbn [wf_hint] in Hwf. apply andb_prop in Hwf. destruct Hwf as [Horigin Hwf].
    cbn [pep_code_check_hint] in Hgen.
    destruct (pep_code_check_hint child _ (S d)) as [code0|] eqn:Ec; [|discriminate].
    cbn [bind] in Hgen. inversion Hgen; subst code; clear Hgen.
    unfold PEP484585_CODE_HINT_SEQUENCE_ARGS_1, PEP_CODE_PITH_ASSIGN_EXPR.
    set (rho' := assign rho1 (VarPith d) v).
    assert (Hpith' : rho' (VarPith d) = Some v) by apply assign_same.
    assert (Hrand' : rho' VAR_NAME_RANDOM_INT = Some (PInt r)) by exact Hrand.
    rewrite (eval_BoolAnd _ _ _ _ _
               (eval_Isinstance_type _ origin _ _ _ (eval_NamedExpr (VarPith d) _ _ _ _ Hpe))).
    fold rho'. cbn [conforms].
    destruct (type_issubclass (type_of v) origin) eqn:Einst; cbn [andb].
    2:{ exists rho'. split; [reflexivity | apply agree_assign]. }
    destruct (sequence_origin_items _ _ Horigin Einst) as [l Hl].
    rewrite (eval_BoolOr _ _ _ _ _ (eval_UnaryNot_Name _ _ _ Hpith')).
    rewrite (seq_items_truthy _ _ Hl), Hl.
    destruct l as [|x l].
    + exists rho'. split; [reflexivity | apply agree_assign].
    + cbn [List.length Nat.eqb negb].
      pose proof (eval_sequence_item d rho' v (x :: l) r Hpith' Hrand' Hl ltac:(discriminate))
        as Hitem.
      destruct (IH Hwf _ _ _ _ _ _ _ Ec Hitem Hrand') as (rho2 & Hev & Hag).
      exists rho2. split; [exact Hev|].
      apply (agree_trans _ _ rho'); [apply agree_assign | now apply agree_weaken].
  - (* fixed-length tuple *)
    cbn [wf_hint] in Hwf. cbn [pep_code_check_hint] in Hgen.
    destruct (tuple_childs _ _ children 0) as [codes|] eqn:Ecs; [|discriminate].
    cbn [bind] in Hgen. inversion Hgen; subst code; clear Hgen.
    unfold PEP484585_CODE_HINT_TUPLE_FIXED_PREFIX, PEP_CODE_PITH_ASSIGN_EXPR,
      PEP484585_CODE_HINT_TUPLE_FIXED_LEN, PEP484585_CODE_HINT_TUPLE_FIXED_EMPTY.
    set (rho' := assign rho1 (VarPith d) v).
    assert (Hpith' : rho' (VarPith d) = Some v) by apply assign_same.
    assert (Hrand' : rho' VAR_NAME_RANDOM_INT = Some (PInt r)) by exact Hrand.
    cbn [conj].
    rewrite (eval_BoolAnd _ _ _ _ _
               (eval_Isinstance_type _ tuple_t _ _ _ (eval_NamedExpr (VarPith d) _ _ _ _ Hpe))).
    fold rho'. cbn [conforms].
    destruct (type_issubclass (type_of v) tuple_t) eqn:Einst; cbn [andb].
    2:{ exists rho'. split; [reflexivity | apply agree_assign]. }
    destruct (tuple_instance _ Einst) as [l ->]. cbn [seq_items].
    pose proof (eval_Len_CompareEq (VarPith d) rho' (PTuple l) l (List.length children) Hpith' eq_refl)
      as Hlen.
    pose proof (tuple_childs_correct d l r children IH Hwf 0%nat codes l rho' Ecs
                  Hpith' Hrand' eq_refl) as Hrest.
    destruct children as [|c cs].
    + cbn [conj]. rewrite (eval_BoolAnd _ _ _ _ _ Hlen).
      rewrite (eval_UnaryNot_Name _ _ _ Hpith').
      exists rho'. split; [|apply agree_assign].
      destruct l; reflexivity.
    + destruct codes as [|code0 codes'].
      { cbn [tuple_childs] in Ecs.
        destruct (pep_code_check_hint c _ (S d)); [|discriminate]. cbn [bind] in Ecs.
        destruct (tuple_childs _ _ cs 1); discriminate. }
      cbn [conj]. rewrite (eval_BoolAnd _ _ _ _ _ Hlen).
      destruct (Nat.eqb_spec (List.length l) (List.length (c :: cs))) as [Hl|Hl]; cbn [andb].
      * destruct (Hrest Hl) as (rho2 & Hev & Hag).
        exists rho2. split; [exact Hev|].
        apply (agree_trans _ _ rho'); [apply agree_assign | now apply agree_weaken].
      * exists rho'. split; [reflexivity | apply agree_assign].
Qed.

(** The generator raises on no well-formed hint. *)
Theorem pep_code_check_hint_total (h : hint) :
  wf_hint h = true -> forall pe d, exists code, pep_code_check_hint h pe d = Ok code.
Proof.
  induction h as [origin|children IH|origin child IH|children IH] using hint_nested_ind;
    intros Hwf pe d; cbn [pep_code_check_hint].
  - eauto.
  - cbn [wf_hint] in Hwf. apply andb_prop in Hwf. destruct Hwf as [Hne Hwf].
    assert (Hchilds : forall e first, exists codes,
              union_childs (fun c e => pep_code_check_hint c e (S d)) e (VarPith d) children first
              = Ok codes /\ (codes = [] -> forallb is_plain children = true)).
    { clear Hne. intros e. induction children as [|c cs IHcs]; intros first.
      - exists []. split; reflexivity.
      - apply Forall_cons_iff in IH. destruct IH as [IHc IH].
        cbn [forallb] in Hwf. apply andb_prop in Hwf. destruct Hwf as [Hwfc Hwfcs].
        cbn [union_childs forallb]. destruct (is_plain c).
        + apply (IHcs IH Hwfcs).
        + destruct (IHc Hwfc (if first then e else Name (VarPith d)) (S d)) as [code Hcode].
          destruct (IHcs IH Hwfcs false) as (codes & Hcodes & _).
          rewrite Hcode, Hcodes. cbn [bind]. eexists. split; [reflexivity | discriminate]. }
    destruct (Hchilds (PEP_CODE_PITH_ASSIGN_EXPR (VarPith d) pe)
                (match plain_types children with [] => true | _ :: _ => false end))
      as (codes & Hcodes & Hnil).
    rewrite Hcodes. cbn [bind].
    destruct (plain_types children) eqn:Eplain, codes; eauto.
    exfalso. apply plain_types_nil in Eplain. specialize (Hnil eq_refl).
    destruct children as [|c cs]; [discriminate Hne|]. cbn [forallb] in *.
    destruct (is_plain c); discriminate.
  - cbn [wf_hint] in Hwf. apply andb_prop in Hwf. destruct Hwf as [_ Hwf].
    destruct (IH Hwf (PEP484585_CODE_HINT_SEQUENCE_ARGS_1_PITH_CHILD_EXPR (VarPith d)) (S d))
      as [code Hcode].
    rewrite Hcode. cbn [bind]. eauto.
  - cbn [wf_hint] in Hwf.
    assert (Hchilds : forall i, exists codes,
              tuple_childs (fun c e => pep_code_check_hint c e (S d)) (VarPith d) children i
              = Ok codes).
    { induction children as [|c cs IHcs]; intros i.
      - exists []. reflexivity.
      - apply Forall_cons_iff in IH. destruct IH as [IHc IH].
        cbn [forallb] in Hwf. apply andb_prop in Hwf. destruct Hwf as [Hwfc Hwfcs].
        cbn [tuple_childs].
        destruct (IHc Hwfc (PEP484585_CODE_HINT_TUPLE_FIXED_NONEMPTY_PITH_CHILD_EXPR (VarPith d) i) (S d))
          as [code Hcode].
        destruct (IHcs IH Hwfcs (S i)) as [codes Hcodes].
        rewrite Hcode, Hcodes. cbn [bind]. eauto. }
    destruct (Hchilds 0%nat) as [codes Hcodes]. rewrite Hcodes. cbn [bind]. eauto.
Qed.

(** The generated check of a well-formed hint never raises and decides
    whether the value conforms. *)
Theorem check_conforms (h : hint) (v : pyobj) (r : Z) :
  wf_hint h = true -> check h v r = Ok (conforms h v r).
Proof.
  intros Hwf. unfold check.
  destruct (pep_code_check_hint_total h Hwf (Name VAR_NAME_PITH_ROOT) 1%nat) as [code Hcode].
  rewrite Hcode. cbn [bind].
  destruct (pep_code_check_hint_correct h Hwf _ _ _ (scope v r) v (scope v r) r Hcode)
    as (rho2 & Hev & _); [reflexivity | reflexivity |].
  rewrite Hev. reflexivity.
Qed.


(** *** The checks of the kinds of hints *)

Lemma disj_short_circuit (first : expr) (rest : list expr) (rho rho1 : env) :
  eval first rho = Ok (PBool true, rho1) ->
  eval (disj first rest) rho = Ok (PBool true, rho1).
Proof.
  intros H. destruct rest as [|e rest]; [exact H|].
  cbn [disj]. now rewrite (eval_BoolOr _ _ _ _ _ H).
Qed.

Lemma union_childs_length (code_check : hint -> expr -> result expr)
  (e : expr) (x : var) (cs : list hint) : forall first codes,
  union_childs code_check e x cs first = Ok codes ->
  List.length codes = List.length (filter (fun c => negb (is_plain c)) cs).
Proof.
  induction cs as [|c cs IH]; intros first codes H; cbn [union_childs filter] in *.
  - now inversion H.
  - destruct (is_plain c); cbn [negb].
    + now apply (IH first).
    + destruct (code_check c _); [|discriminate]. cbn [bind] in H.
      destruct (union_childs code_check e x cs false) as [codes'|] eqn:E; [|discriminate].
      inversion H. cbn [List.length]. f_equal. now apply (IH false).
Qed.

(** C4.  For the union of the plain types [A] and [B], the generated code
    is the single test [isinstance(pith, (A, B))]; its check of a value is
    true exactly when the value is an instance of [A] or of [B], and false
    when it is an instance of neither.  In the code of any union with plain
    children, the first disjunct is one [isinstance] against the tuple of
    all of them, the other children follow one by one, and the disjunction
    stops at the first disjunct that holds. *)
Theorem union_plain_types_check (A B : pytype) :
  (forall pe d,
     pep_code_check_hint (HintUnion [HintInstance A; HintInstance B]) pe d
     = Ok (Isinstance pe (Const (PTuple [PType A; PType B])))) /\
  (forall v r,
     (check (HintUnion [HintInstance A; HintInstance B]) v r = Ok true <->
        isinstance v (PType A) = Ok true \/ isinstance v (PType B) = Ok true) /\
     (isinstance v (PType A) = Ok false -> isinstance v (PType B) = Ok false ->
        check (HintUnion [HintInstance A; HintInstance B]) v r = Ok false)) /\
  (forall cs pe d code,
     pep_code_check_hint (HintUnion cs) pe d = Ok code -> plain_types cs <> [] ->
     exists e rest,
       code = disj (Isinstance e (Const (PTuple (plain_types cs)))) rest /\
       List.length rest = List.length (filter (fun c => negb (is_plain c)) cs)) /\
  (forall first rest rho rho1,
     eval first rho = Ok (PBool true, rho1) ->
     eval (disj first rest) rho = Ok (PBool true, rho1)).
Proof.
  split; [reflexivity|]. split; [|split].
  - intros v r.
    assert (H : check (HintUnion [HintInstance A; HintInstance B]) v r
                = Ok (type_issubclass (type_of v) A || type_issubclass (type_of v) B)).
    { rewrite check_conforms by reflexivity. cbn [conforms existsb].
      now rewrite orb_false_r. }
    rewrite H. cbn [isinstance]. split; [split|].
    + intros Hab. injection Hab as Hab. apply orb_prop in Hab.
      destruct Hab as [-> | ->]; [left | right]; reflexivity.
    + intros [Ha|Hb]; [injection Ha as -> | injection Hb as ->];
        [reflexivity | now rewrite orb_true_r].
    + intros Ha Hb. injection Ha as ->. injection Hb as ->. reflexivity.
  - intros cs pe d code Hgen Hplain. cbn [pep_code_check_hint] in Hgen.
    destruct (union_childs _ _ _ cs _) as [codes|] eqn:Ecs; [|discriminate].
    cbn [bind] in Hgen. apply union_childs_length in Ecs.
    destruct (plain_types cs) as [|p ps]; [contradiction|].
    unfold PEP484_CODE_HINT_UNION_CHILD_NONPEP in Hgen.
    destruct codes as [|code0 codes]; inversion Hgen; subst code.
    + exists pe, []. split; [reflexivity | exact Ecs].
    + exists (PEP_CODE_PITH_ASSIGN_EXPR (VarPith d) pe), (code0 :: codes).
      split; [reflexivity | exact Ecs].
  - intros first rest rho rho1. apply disj_short_circuit.
Qed.

(** C4 on the union of [int] and [str]. *)
Lemma union_plain_types_check_witness :
  check (HintUnion [HintInstance int_t; HintInstance str_t]) (PStr "a") 0 = Ok true /\
  check (HintUnion [HintInstance int_t; HintInstance str_t]) PNone 0 = Ok false.
Proof.
  destruct (union_plain_types_check int_t str_t) as (_ & H & _).
  destruct (H (PStr "a") 0) as [H1 _]. destruct (H PNone 0) as [_ H2].
  split; [apply H1; right; reflexivity | apply H2; reflexivity].
Defined.

Lemma all_conform_nth (f : hint -> pyobj -> bool) : forall cs l,
  List.length l = List.length cs ->
  (all_conform f cs l = true <->
   forall i c x, nth_error cs i = Some c -> nth_error l i = Some x -> f c x = true).
Proof.
  induction cs as [|c cs IH]; intros [|y l] Hlen; try discriminate Hlen.
  - split; [intros _ [|i] ? ? H; discriminate H | reflexivity].
  - cbn [all_conform]. injection Hlen as Hlen. rewrite andb_true_iff, (IH l Hlen). split.
    + intros [Hy Hrest] [|i] c' x Hc Hx; cbn [nth_error] in *.
      * now inversion Hc; inversion Hx; subst.
      * now apply (Hrest i).
    + intros H. split; [now apply (H 0%nat) | intros i c' x Hc Hx; now apply (H (S i))].
Qed.

(** C6.  The check of a fixed-length tuple hint with the children [cs]
    never raises, and is true exactly when the value is a tuple, its length
    is the number of children and each child check holds of the item of its
    index; for the empty-tuple form, exactly when the value is a tuple of
    length 0.  For the hint of the children [int] and [str]: true on
    [(1, "x")], false on [(1, 2)], on [(1,)] and on [()]. *)
Theorem fixed_tuple_check :
  (forall cs v r, forallb wf_hint cs = true ->
     (exists b, check (HintTupleFixed cs) v r = Ok b) /\
     (check (HintTupleFixed cs) v r = Ok true <->
        isinstance v (PType tuple_t) = Ok true /\
        len v = Ok (PInt (Z.of_nat (List.length cs))) /\
        forall i c, nth_error cs i = Some c ->
          exists x, getitem v (PInt (Z.of_nat i)) = Ok x /\ check c x r = Ok true)) /\
  (forall v r,
     check (HintTupleFixed []) v r = Ok true <->
     isinstance v (PType tuple_t) = Ok true /\ len v = Ok (PInt 0)) /\
  (forall r,
     check (HintTupleFixed [HintInstance int_t; HintInstance str_t])
       (PTuple [PInt 1; PStr "x"]) r = Ok true /\
     check (HintTupleFixed [HintInstance int_t; HintInstance str_t])
       (PTuple [PInt 1; PInt 2]) r = Ok false /\
     check (HintTupleFixed [HintInstance int_t; HintInstance str_t])
       (PTuple [PInt 1]) r = Ok false /\
     check (HintTupleFixed [HintInstance int_t; HintInstance str_t])
       (PTuple []) r = Ok false).
Proof.
  assert (Hgen : forall cs v r, forallb wf_hint cs = true ->
     (exists b, check (HintTupleFixed cs) v r = Ok b) /\
     (check (HintTupleFixed cs) v r = Ok true <->
        isinstance v (PType tuple_t) = Ok true /\
        len v = Ok (PInt (Z.of_nat (List.length cs))) /\
        forall i c, nth_error cs i = Some c ->
          exists x, getitem v (PInt (Z.of_nat i)) = Ok x /\ check c x r = Ok true)).
  { intros cs v r Hwf. rewrite (check_conforms (HintTupleFixed cs) v r Hwf).
    split; [eauto|]. cbn [conforms isinstance].
    destruct (type_issubclass (type_of v) tuple_t) eqn:Einst; cbn [andb].
    2:{ split; [discriminate | intros [H _]; discriminate H]. }
    destruct (tuple_instance _ Einst) as [l ->]. cbn [seq_items]. unfold len. cbn [seq_items].
    destruct (Nat.eqb_spec (List.length l) (List.length cs)) as [Hlen|Hlen]; cbn [andb].
    2:{ split; [discriminate|]. intros (_ & H & _). inversion H. lia. }
    split.
    - intros H. injection H as H. split; [reflexivity|]. split; [now rewrite Hlen|].
      intros i c Hc.
      assert (Hi : (i < List.length l)%nat) by (rewrite Hlen; apply nth_error_Some; congruence).
      destruct (nth_error l i) as [x|] eqn:Hx; [|apply nth_error_None in Hx; lia].
      exists x. split; [now apply (getitem_nth_error (PTuple l) l)|].
      rewrite check_conforms.
      + f_equal. now apply (proj1 (all_conform_nth _ cs l Hlen) H i c x).
      + rewrite forallb_forall in Hwf. apply Hwf. now apply nth_error_In with i.
    - intros (_ & _ & H). f_equal. apply (all_conform_nth _ cs l Hlen).
      intros i c x Hc Hx. destruct (H i c Hc) as (y & Hy & Hcheck).
      rewrite (getitem_nth_error (PTuple l) l i x eq_refl Hx) in Hy. injection Hy as <-.
      rewrite check_conforms in Hcheck; [now injection Hcheck|].
      rewrite forallb_forall in Hwf. apply Hwf. now apply nth_error_In with i. }
  split; [exact Hgen|]. split.
  - intros v r. destruct (Hgen [] v r eq_refl) as [_ H]. rewrite H. cbn [List.length Z.of_nat].
    split; [intros (H1 & H2 & _); now split|].
    intros [H1 H2]. split; [assumption|]. split; [assumption|].
    intros [|i] c Hc; discriminate Hc.
  - intros r. repeat split.
Qed.

(** C6 on the hint of the children [int] and [str] and the tuple [(1, "x")]. *)
Lemma fixed_tuple_check_witness :
  check (HintTupleFixed [HintInstance int_t; HintInstance str_t]) (PTuple [PInt 1; PStr "x"]) 7
  = Ok true <->
  isinstance (PTuple [PInt 1; PStr "x"]) (PType tuple_t) = Ok true /\
  len (PTuple [PInt 1; PStr "x"]) = Ok (PInt 2) /\
  forall i c, nth_error [HintInstance int_t; HintInstance str_t] i = Some c ->
    exists x, getitem (PTuple [PInt 1; PStr "x"]) (PInt (Z.of_nat i)) = Ok x /\
              check c x 7 = Ok true.
Proof.
  destruct fixed_tuple_check as [H _].
  exact (proj2 (H [HintInstance int_t; HintInstance str_t] (PTuple [PInt 1; PStr "x"]) 7 eq_refl)).
Defined.

(** C5.  For a sequence hint of origin [origin] and child [T], the check of
    a sequence [v] of items [l] is: [isinstance(v, origin)] and ([v] is
    empty or the check of [T] holds of the item at the index
    [random_int % len(v)]).  Hence, for an instance of the origin and
    whatever the random integer: it is true on the empty sequence, true
    when every item satisfies [T], and false when no item of the sequence,
    which then is not the empty one, satisfies [T]. *)
Theorem sequence_check (origin : pytype) (T : hint) (v : pyobj) (l : list pyobj) (r : Z) :
  sequence_origin origin = true -> wf_hint T = true -> seq_items v = Some l ->
  check (HintSequence origin T) v r
    = (b <- isinstance v (PType origin) ;;
       if negb b then Ok false
       else if (List.length l =? 0)%nat then Ok true
       else check T (nth (Z.to_nat (r mod Z.of_nat (List.length l))) l PNone) r) /\
  (isinstance v (PType origin) = Ok true ->
     (l = [] -> check (HintSequence origin T) v r = Ok true) /\
     ((forall x, In x l -> check T x r = Ok true) ->
        check (HintSequence origin T) v r = Ok true) /\
     (l <> [] -> (forall x, In x l -> check T x r = Ok false) ->
        check (HintSequence origin T) v r = Ok false)).
Proof.
  intros Horigin Hwf Hl.
  assert (Hwf' : wf_hint (HintSequence origin T) = true)
    by (cbn [wf_hint]; now rewrite Horigin, Hwf).
  assert (Hcheck : check (HintSequence origin T) v r
    = (b <- isinstance v (PType origin) ;;
       if negb b then Ok false
       else if (List.length l =? 0)%nat then Ok true
       else check T (nth (Z.to_nat (r mod Z.of_nat (List.length l))) l PNone) r)).
  { rewrite (check_conforms _ v r Hwf'). cbn [conforms isinstance bind]. rewrite Hl.
    destruct (type_issubclass (type_of v) origin); cbn [andb negb]; [|reflexivity].
    destruct l as [|x l]; [reflexivity|]. cbn [List.length Nat.eqb].
    now rewrite (check_conforms T _ r Hwf). }
  split; [exact Hcheck|]. intros Hinst. rewrite Hcheck, Hinst. cbn [bind negb].
  split; [intros ->; reflexivity|]. split.
  - intros Hall. destruct l as [|x l]; [reflexivity|]. cbn [List.length Nat.eqb].
    apply Hall. apply nth_In.
    pose proof (Z.mod_pos_bound r (Z.of_nat (S (List.length l))) ltac:(lia)).
    cbn [List.length]. lia.
  - intros Hne Hnone. destruct l as [|x l]; [contradiction|]. cbn [List.length Nat.eqb].
    apply Hnone. apply nth_In.
    pose proof (Z.mod_pos_bound r (Z.of_nat (S (List.length l))) ltac:(lia)).
    cbn [List.length]. lia.
Qed.

(** C5 on lists of integers, of strings and the empty list,
    against the hint of the lists of integers. *)
Lemma sequence_check_witness :
  check (HintSequence list_t (HintInstance int_t)) (PList [PInt 1; PInt 2]) 5 = Ok true /\
  check (HintSequence list_t (HintInstance int_t)) (PList [PStr "x"; PStr "y"]) 5 = Ok false /\
  check (HintSequence list_t (HintInstance int_t)) (PList []) 5 = Ok true.
Proof.
  split; [|split].
  - destruct (sequence_check list_t (HintInstance int_t) (PList [PInt 1; PInt 2])
                [PInt 1; PInt 2] 5 eq_refl eq_refl eq_refl) as [_ H].
    destruct (H eq_refl) as (_ & Hall & _). apply Hall.
    intros x [<-|[<-|[]]]; reflexivity.
  - destruct (sequence_check list_t (HintInstance int_t) (PList [PStr "x"; PStr "y"])
                [PStr "x"; PStr "y"] 5 eq_refl eq_refl eq_refl) as [_ H].
    destruct (H eq_refl) as (_ & _ & Hnone). apply Hnone; [discriminate|].
    intros x [<-|[<-|[]]]; reflexivity.
  - destruct (sequence_check list_t (HintInstance int_t) (PList []) [] 5
                eq_refl eq_refl eq_refl) as [_ H].
    destruct (H eq_refl) as (Hempty & _). now apply Hempty.
Defined.

(** C9.  In the sequence snippet, run where the pith expression yields a
    sequence [v] of items [l]: when [v] is empty, or not of the origin
    type, the result does not depend on the child code, which is not
    evaluated; otherwise the child code is what is evaluated next, in the
    scope where the pith variable holds [v], and there the item expression
    [pith[random_int % len(pith)]] divides by the positive length, computes
    an index within the bounds and yields the item at this index.
    Unguarded, on an empty sequence, the same expression divides by zero. *)
Theorem sequence_item_access_guarded
  (depth : nat) (pith_curr_expr child : expr) (origin : pytype)
  (rho rho1 : env) (v : pyobj) (l : list pyobj) (random_int : Z) :
  eval pith_curr_expr rho = Ok (v, rho1) ->
  seq_items v = Some l ->
  rho1 VAR_NAME_RANDOM_INT = Some (PInt random_int) ->
  (l = [] \/ type_issubclass (type_of v) origin = false ->
     eval (PEP484585_CODE_HINT_SEQUENCE_ARGS_1
             (PEP_CODE_PITH_ASSIGN_EXPR (VarPith depth) pith_curr_expr)
             (Const (PType origin)) (VarPith depth) child) rho
     = Ok (PBool (type_issubclass (type_of v) origin), assign rho1 (VarPith depth) v)) /\
  (l <> [] -> type_issubclass (type_of v) origin = true ->
     eval (PEP484585_CODE_HINT_SEQUENCE_ARGS_1
             (PEP_CODE_PITH_ASSIGN_EXPR (VarPith depth) pith_curr_expr)
             (Const (PType origin)) (VarPith depth) child) rho
     = eval child (assign rho1 (VarPith depth) v)) /\
  (l <> [] ->
     0 <= random_int mod Z.of_nat (List.length l) < Z.of_nat (List.length l) /\
     mod_ (PInt random_int) (PInt (Z.of_nat (List.length l)))
       = Ok (PInt (random_int mod Z.of_nat (List.length l))) /\
     eval (PEP484585_CODE_HINT_SEQUENCE_ARGS_1_PITH_CHILD_EXPR (VarPith depth))
          (assign rho1 (VarPith depth) v)
     = Ok (nth (Z.to_nat (random_int mod Z.of_nat (List.length l))) l PNone,
           assign rho1 (VarPith depth) v)) /\
  (l = [] ->
     eval (PEP484585_CODE_HINT_SEQUENCE_ARGS_1_PITH_CHILD_EXPR (VarPith depth))
          (assign rho1 (VarPith depth) v)
     = Raise ZeroDivisionError).
Proof.
  intros Hpe Hl Hrand.
  set (rho' := assign rho1 (VarPith depth) v).
  assert (Hpith' : rho' (VarPith depth) = Some v) by apply assign_same.
  assert (Hrand' : rho' VAR_NAME_RANDOM_INT = Some (PInt random_int)) by exact Hrand.
  assert (Hcode : forall b, type_issubclass (type_of v) origin = b ->
    eval (PEP484585_CODE_HINT_SEQUENCE_ARGS_1
            (PEP_CODE_PITH_ASSIGN_EXPR (VarPith depth) pith_curr_expr)
            (Const (PType origin)) (VarPith depth) child) rho
    = if b then (if negb (List.length l =? 0)%nat then eval child rho' else Ok (PBool true, rho'))
      else Ok (PBool false, rho')).
  { intros b Hb. unfold PEP484585_CODE_HINT_SEQUENCE_ARGS_1, PEP_CODE_PITH_ASSIGN_EXPR.
    rewrite (eval_BoolAnd _ _ _ _ _
               (eval_Isinstance_type _ origin _ _ _ (eval_NamedExpr (VarPith depth) _ _ _ _ Hpe))).
    fold rho'. rewrite Hb. destruct b; [|reflexivity].
    rewrite (eval_BoolOr _ _ _ _ _ (eval_UnaryNot_Name _ _ _ Hpith')).
    rewrite (seq_items_truthy _ _ Hl).
    destruct (List.length l =? 0)%nat; reflexivity. }
  split; [|split; [|split]].
  - intros [-> | Hinst].
    + rewrite (Hcode _ eq_refl). now destruct (type_issubclass (type_of v) origin).
    + rewrite (Hcode _ Hinst). now rewrite Hinst.
  - intros Hne Hinst. rewrite (Hcode _ Hinst).
    destruct l; [contradiction | reflexivity].
  - intros Hne. destruct (getitem_random v l random_int Hl Hne) as (Hb & Hmod & _).
    split; [exact Hb|]. split; [exact Hmod|].
    now apply (eval_sequence_item depth rho' v l random_int).
  - intros ->. unfold PEP484585_CODE_HINT_SEQUENCE_ARGS_1_PITH_CHILD_EXPR. cbn [eval].
    rewrite Hpith'. cbn [bind fst snd]. rewrite Hrand'. cbn [bind fst snd].
    rewrite Hpith'. cbn [bind fst snd]. unfold lift, len. rewrite Hl. reflexivity.
Qed.

(** C9 on the list [[10; 20; 30]] and the random integer 7, at the root. *)
Lemma sequence_item_access_guarded_witness :
  0 <= 7 mod 3 < 3 /\
  mod_ (PInt 7) (PInt 3) = Ok (PInt 1) /\
  eval (PEP484585_CODE_HINT_SEQUENCE_ARGS_1_PITH_CHILD_EXPR (VarPith 1))
       (assign (scope (PList [PInt 10; PInt 20; PInt 30]) 7) (VarPith 1)
          (PList [PInt 10; PInt 20; PInt 30]))
  = Ok (PInt 20, assign (scope (PList [PInt 10; PInt 20; PInt 30]) 7) (VarPith 1)
                   (PList [PInt 10; PInt 20; PInt 30])).
Proof.
  apply (sequence_item_access_guarded 1 (Name VAR_NAME_PITH_ROOT) (Const PNone) list_t
           (scope (PList [PInt 10; PInt 20; PInt 30]) 7)
           (scope (PList [PInt 10; PInt 20; PInt 30]) 7)
           (PList [PInt 10; PInt 20; PInt 30]) [PInt 10; PInt 20; PInt 30] 7
           eq_refl eq_refl eq_refl).
  discriminate.
Defined.

(** * Further properties *)

(** ** More on the LRU cache *)

Import LRUOps.

Section LRUMore.

Variable K V : Type.
Variable K_eq_dec : forall a b : K, {a = b} + {a <> b}.

Local Abbreviation hasitem := (dict_hasitem K_eq_dec).
Local Abbreviation lookup := (dict_getitem K_eq_dec).
Local Abbreviation remove := (dict_remove K_eq_dec).
Local Abbreviation cache := (@LRUCacheStrong K V).
Local Abbreviation use := (op K V).

Lemma lookup_absent (d : list (K * V)) k :
  hasitem d k = false -> lookup d k = Raise KeyError.
Proof.
  induction d as [|[k' v'] d IH]; simpl; [reflexivity|].
  destruct (K_eq_dec k k'); [discriminate | exact IH].
Qed.

Lemma lookup_app (d1 d2 : list (K * V)) k :
  lookup (d1 ++ d2) k = if hasitem d1 k then lookup d1 k else lookup d2 k.
Proof.
  induction d1 as [|[k' v'] d1 IH]; simpl; [reflexivity|].
  destruct (K_eq_dec k k'); [reflexivity | exact IH].
Qed.

Lemma remove_absent (d : list (K * V)) k :
  hasitem d k = false -> remove d k = d.
Proof.
  induction d as [|[k' v'] d IH]; simpl; [reflexivity|].
  destruct (K_eq_dec k k'); [discriminate|]. intros H. now rewrite IH.
Qed.

Lemma remove_app (d1 d2 : list (K * V)) k :
  remove (d1 ++ d2) k = if hasitem d1 k then remove d1 k ++ d2 else d1 ++ remove d2 k.
Proof.
  induction d1 as [|[k' v'] d1 IH]; simpl; [reflexivity|].
  destruct (K_eq_dec k k'); [reflexivity|]. rewrite IH.
  destruct (hasitem d1 k); reflexivity.
Qed.

Lemma hasitem_remove_other (d : list (K * V)) k k' :
  k' <> k -> hasitem (remove d k) k' = hasitem d k'.
Proof.
  intros Hne. induction d as [|[k0 v0] d IH]; simpl; [reflexivity|].
  destruct (K_eq_dec k k0) as [->|]; simpl.
  - destruct (K_eq_dec k' k0); [contradiction | reflexivity].
  - destruct (K_eq_dec k' k0); [reflexivity | exact IH].
Qed.

Lemma lookup_remove_other (d : list (K * V)) k k' :
  k' <> k -> lookup (remove d k) k' = lookup d k'.
Proof.
  intros Hne. induction d as [|[k0 v0] d IH]; simpl; [reflexivity|].
  destruct (K_eq_dec k k0) as [->|]; simpl.
  - destruct (K_eq_dec k' k0); [contradiction | reflexivity].
  - destruct (K_eq_dec k' k0); [reflexivity | exact IH].
Qed.

Lemma hasitem_removed (d : list (K * V)) k :
  NoDup (keys d) -> hasitem (remove d k) k = false.
Proof.
  intros Hnd. apply (hasitem_false K V K_eq_dec).
  now apply (NoDup_remove K V K_eq_dec).
Qed.

(** Looking up any key in a dictionary whose entry of [k] moved to the
    tail. *)
Lemma lookup_moved (d : list (K * V)) k v k' :
  NoDup (keys d) ->
  lookup (remove d k ++ [(k, v)]) k' = if K_eq_dec k' k then Ok v else lookup d k'.
Proof.
  intros Hnd. rewrite lookup_app. destruct (K_eq_dec k' k) as [->|Hne].
  - rewrite (hasitem_removed _ _ Hnd). simpl.
    destruct (K_eq_dec k k); [reflexivity | congruence].
  - rewrite (hasitem_remove_other _ _ _ Hne), (lookup_remove_other _ _ _ Hne).
    destruct (hasitem d k') eqn:E; [reflexivity|]. simpl.
    destruct (K_eq_dec k' k); [contradiction|]. now rewrite (lookup_absent _ _ E).
Qed.

(** What [cache[k] = v] returns, in every state of the cache. *)
Lemma setitem_result (c : cache) k v :
  lru_inv c ->
  __setitem__ K_eq_dec c k v
  = Ok (MkCache
          (if hasitem (items c) k then remove (items c) k ++ [(k, v)]
           else if dict_len (items c) <? _size c then items c ++ [(k, v)]
           else tl (items c ++ [(k, v)]))
          (_size c)).
Proof.
  intros Hinv. destruct (hasitem (items c) k) eqn:Hk.
  - now apply setitem_present.
  - rewrite (setitem_new K V K_eq_dec c k v Hk). do 2 f_equal.
    unfold dict_len. rewrite length_app. cbn [List.length].
    destruct (Z.gtb_spec (Z.of_nat (List.length (items c) + 1)) (_size c));
      destruct (Z.ltb_spec (Z.of_nat (List.length (items c))) (_size c));
      try reflexivity; lia.
Qed.

Lemma setitem_total (c : cache) k v :
  lru_inv c -> exists c', __setitem__ K_eq_dec c k v = Ok c' /\ lru_inv c' /\ _size c' = _size c.
Proof.
  intros Hinv. rewrite (setitem_result c k v Hinv). eexists. split; [reflexivity|].
  split; [|reflexivity].
  apply (lru_inv_preserved K V K_eq_dec c _ k v Hinv). right.
  now rewrite (setitem_result c k v Hinv).
Qed.

Lemma step_total (c : cache) (o : use) :
  lru_inv c -> exists c', step K_eq_dec c o = Ok c' /\ lru_inv c' /\ _size c' = _size c.
Proof.
  intros Hinv. destruct o as [k|k v]; cbn [step]; [|now apply setitem_total].
  destruct (hasitem (items c) k) eqn:Hk.
  - destruct (getitem_moves K V K_eq_dec c k Hinv Hk) as (v & _ & Hget).
    rewrite Hget. eexists. split; [reflexivity|]. split; [|reflexivity].
    now apply (moved_inv K V K_eq_dec).
  - unfold __getitem__. rewrite (lookup_absent _ _ Hk). cbn [bind]. eauto.
Qed.

(** X1.  On keys that can be hashed: whatever gets and puts follow the
    construction of a cache, none of them raises (a [KeyError] of a get
    apart, which the caller catches), the keys stay distinct, the number of
    entries never exceeds the capacity and the capacity never changes. *)
Theorem lru_reachable_invariant (size : pyobj) (c0 : cache) (ops : list use) :
  __init__ size = Ok c0 ->
  exists c, run K_eq_dec c0 ops = Ok c /\
            NoDup (keys (items c)) /\
            dict_len (items c) <= _size c /\
            _size c = _size c0 /\ 1 <= _size c0.
Proof.
  intros Hinit.
  assert (Hinv0 : lru_inv c0).
  { unfold __init__ in Hinit.
    destruct (isinstance size (PType int_t)) as [[|]|]; try discriminate Hinit.
    cbn [bind negb] in Hinit. destruct (int_value size) as [z|]; [|discriminate].
    destruct (Z.leb_spec z 0); [discriminate|]. inversion Hinit.
    apply init_inv. lia. }
  assert (Hrun : forall (ops : list use) (c : cache), lru_inv c ->
            exists c', run K_eq_dec c ops = Ok c' /\ lru_inv c' /\ _size c' = _size c).
  { clear. induction ops as [|o ops IH]; intros c Hinv; cbn [run].
    - exists c. auto.
    - destruct (step_total c o Hinv) as (c1 & Hstep & Hinv1 & Hsz1).
      rewrite Hstep. cbn [bind].
      destruct (IH c1 Hinv1) as (c' & Hrun & Hinv' & Hsz').
      exists c'. split; [assumption|]. split; [assumption | congruence]. }
  destruct (Hrun ops c0 Hinv0) as (c & Hc & (Hnd & Hlen & Hpos) & Hsz).
  exists c. repeat split; try assumption. destruct Hinv0 as (_ & _ & ?). assumption.
Qed.


Lemma lookup_In (d : list (K * V)) k v : lookup d k = Ok v -> In (k, v) d.
Proof.
  induction d as [|[k' v'] d IH]; simpl; [discriminate|].
  destruct (K_eq_dec k k') as [->|]; [|auto]. intros H. inversion H. now left.
Qed.

Lemma lookup_hasitem (d : list (K * V)) k v : lookup d k = Ok v -> hasitem d k = true.
Proof.
  intros H. destruct (hasitem d k) eqn:E; [reflexivity|].
  rewrite (lookup_absent _ _ E) in H. discriminate.
Qed.

(** X2.  [cache[key]] raises [KeyError] on a key the cache does not hold,
    and otherwise returns the value stored under the key, no other. *)
Theorem lru_getitem_hit_or_keyerror (c : cache) (k : K) :
  lru_inv c ->
  (hasitem (items c) k = false -> __getitem__ K_eq_dec c k = Raise KeyError) /\
  (forall v, In (k, v) (items c) -> exists c', __getitem__ K_eq_dec c k = Ok (v, c')) /\
  (forall v c', __getitem__ K_eq_dec c k = Ok (v, c') -> In (k, v) (items c)).
Proof.
  intros Hinv. split; [|split].
  - intros Hk. unfold __getitem__. now rewrite (lookup_absent _ _ Hk).
  - intros v Hin. pose proof Hinv as (Hnd & Hrest).
    pose proof (getitem_In K V K_eq_dec _ _ _ Hnd Hin) as Hv.
    destruct (getitem_moves K V K_eq_dec c k Hinv (lookup_hasitem _ _ _ Hv))
      as (v' & Hv' & Hget).
    rewrite Hv in Hv'. inversion Hv'; subst v'. eauto.
  - intros v c' Hget. unfold __getitem__ in Hget.
    destruct (lookup (items c) k) as [v'|] eqn:Hv; [|discriminate].
    cbn [bind] in Hget. destruct (dict_delitem K_eq_dec (items c) k); [|discriminate].
    cbn [bind] in Hget. inversion Hget; subst. now apply lookup_In.
Qed.

(** After [cache[k] = v] the entry of [k] is the tail of the cache. *)
Lemma setitem_tail (c : cache) k v :
  lru_inv c ->
  exists d, __setitem__ K_eq_dec c k v = Ok (MkCache (d ++ [(k, v)]) (_size c)) /\
            hasitem d k = false.
Proof.
  intros Hinv. rewrite (setitem_result c k v Hinv).
  destruct (hasitem (items c) k) eqn:Hk.
  - exists (remove (items c) k). split; [reflexivity|].
    apply hasitem_removed. now destruct Hinv.
  - destruct (Z.ltb_spec (dict_len (items c)) (_size c)) as [Hlt|Hge].
    + exists (items c). now split.
    + destruct (items c) as [|[k0 v0] d] eqn:E.
      * destruct Hinv as (_ & _ & Hpos). unfold dict_len in Hge. simpl in Hge. lia.
      * exists d. split; [reflexivity|]. simpl in Hk.
        destruct (K_eq_dec k k0); [discriminate | assumption].
Qed.

Lemma getitem_at_tail (d : list (K * V)) k v sz :
  hasitem d k = false ->
  __getitem__ K_eq_dec (MkCache (d ++ [(k, v)]) sz) k = Ok (v, MkCache (d ++ [(k, v)]) sz).
Proof.
  intros Hk. unfold __getitem__, dict_delitem. cbn [items _size].
  rewrite lookup_app, Hk, (hasitem_app K V K_eq_dec), Hk, remove_app, Hk. simpl.
  destruct (K_eq_dec k k); [|congruence]. cbn [bind]. rewrite app_nil_r.
  now rewrite (setitem_absent K V K_eq_dec _ _ _ Hk).
Qed.

Lemma setitem_at_tail (d : list (K * V)) k v v' sz :
  lru_inv (MkCache (d ++ [(k, v)]) sz) -> hasitem d k = false ->
  __setitem__ K_eq_dec (MkCache (d ++ [(k, v)]) sz) k v' = Ok (MkCache (d ++ [(k, v')]) sz).
Proof.
  intros Hinv Hk. rewrite (setitem_result _ k v' Hinv). cbn [items _size].
  rewrite (hasitem_app K V K_eq_dec), Hk, remove_app, Hk. simpl.
  destruct (K_eq_dec k k); [|congruence]. now rewrite app_nil_r.
Qed.

(** X3.  On a key that can be hashed, [cache[k] = v] does not raise, and
    [cache[k]] right after it returns [v] and leaves the cache as the put
    left it. *)
Theorem lru_put_then_get (c : cache) (k : K) (v : V) :
  lru_inv c ->
  exists c', __setitem__ K_eq_dec c k v = Ok c' /\
             __getitem__ K_eq_dec c' k = Ok (v, c').
Proof.
  intros Hinv. destruct (setitem_tail c k v Hinv) as (d & Hset & Hk).
  eexists. split; [exact Hset|]. now apply getitem_at_tail.
Qed.

Lemma perm_remove (d : list (K * V)) k v :
  lookup d k = Ok v -> Permutation d (remove d k ++ [(k, v)]).
Proof.
  induction d as [|[k' v'] d IH]; simpl; [discriminate|].
  destruct (K_eq_dec k k') as [->|].
  - intros H. inversion H; subst. apply Permutation_cons_append.
  - intros H. simpl. apply perm_skip. now apply IH.
Qed.

(** X4.  A successful [cache[k]] changes the order of the entries only: the
    entry of [k] is the tail afterwards, the entries are the same, so is
    the capacity, and every key is looked up as before. *)
Theorem lru_getitem_preserves (c c' : cache) (k : K) (v : V) :
  lru_inv c -> __getitem__ K_eq_dec c k = Ok (v, c') ->
  (exists d, items c' = d ++ [(k, v)]) /\
  Permutation (items c) (items c') /\
  _size c' = _size c /\
  (forall k', lookup (items c') k' = lookup (items c) k').
Proof.
  intros Hinv Hget.
  assert (Hv : lookup (items c) k = Ok v).
  { unfold __getitem__ in Hget. destruct (lookup (items c) k) as [v'|]; [|discriminate].
    cbn [bind] in Hget. destruct (dict_delitem K_eq_dec (items c) k); [|discriminate].
    cbn [bind] in Hget. now inversion Hget. }
  destruct (getitem_moves K V K_eq_dec c k Hinv (lookup_hasitem _ _ _ Hv)) as (v' & Hv' & Hget').
  rewrite Hv in Hv'. inversion Hv'; subst v'. rewrite Hget' in Hget.
  inversion Hget; subst c'; clear Hget. cbn [items _size].
  split; [eauto|]. split; [now apply perm_remove|]. split; [reflexivity|].
  intros k'. destruct Hinv as (Hnd & _). rewrite (lookup_moved _ _ _ _ Hnd).
  destruct (K_eq_dec k' k) as [->|]; congruence.
Qed.

(** X5.  What [cache[k] = v] does to each key: [k] maps to [v]; when [k] is
    new and the cache is full, the key at the head is gone; every other key
    is looked up as before.  The number of entries grows by one for a new
    key, up to the capacity, and stays the same for a key already held. *)
Theorem lru_setitem_lookup (c c' : cache) (k : K) (v : V) :
  lru_inv c -> __setitem__ K_eq_dec c k v = Ok c' ->
  lookup (items c') k = Ok v /\
  (forall k', k' <> k ->
     lookup (items c') k' =
     if negb (hasitem (items c) k) && (dict_len (items c) =? _size c)
     then match dict_iter_next (items c) with
          | Ok k0 => if K_eq_dec k' k0 then Raise KeyError else lookup (items c) k'
          | Raise _ => lookup (items c) k'
          end
     else lookup (items c) k') /\
  dict_len (items c') =
    (if hasitem (items c) k then dict_len (items c)
     else Z.min (dict_len (items c) + 1) (_size c)) /\
  _size c' = _size c.
Proof.
  intros Hinv Hset. pose proof Hinv as (Hnd & Hlen & Hpos).
  rewrite (setitem_result c k v Hinv) in Hset. inversion Hset; subst c'; clear Hset.
  cbn [items _size]. destruct (hasitem (items c) k) eqn:Hk; cbn [negb andb].
  - split; [|split; [|split; [|reflexivity]]].
    + rewrite (lookup_moved _ _ _ _ Hnd). destruct (K_eq_dec k k); [reflexivity | congruence].
    + intros k' Hne. rewrite (lookup_moved _ _ _ _ Hnd).
      destruct (K_eq_dec k' k); [contradiction | reflexivity].
    + unfold dict_len. rewrite length_app. cbn [List.length].
      rewrite <- (length_remove K V K_eq_dec _ _ Hk). lia.
  - assert (Hnew : forall d, hasitem d k = false ->
              lookup (d ++ [(k, v)]) k = Ok v /\
              forall k', k' <> k -> lookup (d ++ [(k, v)]) k' = lookup d k').
    { intros d Hd. split.
      - rewrite lookup_app, Hd. simpl. destruct (K_eq_dec k k); [reflexivity | congruence].
      - intros k' Hne. rewrite lookup_app. destruct (hasitem d k') eqn:E; [reflexivity|].
        simpl. destruct (K_eq_dec k' k); [contradiction|]. now rewrite (lookup_absent _ _ E). }
    destruct (Z.ltb_spec (dict_len (items c)) (_size c)) as [Hlt|Hge].
    + replace (dict_len (items c) =? _size c) with false by (symmetry; apply Z.eqb_neq; lia).
      destruct (Hnew _ Hk) as [H1 H2]. split; [exact H1|]. split; [exact H2|].
      split; [|reflexivity]. unfold dict_len in *. rewrite length_app. cbn [List.length]. lia.
    + replace (dict_len (items c) =? _size c) with true by (symmetry; apply Z.eqb_eq; lia).
      destruct (items c) as [|[k0 v0] d] eqn:E.
      { unfold dict_len in Hge. simpl in Hge. lia. }
      cbn [app tl dict_iter_next]. simpl in Hk.
      destruct (K_eq_dec k k0) as [|Hk0]; [discriminate|].
      destruct (Hnew _ Hk) as [H1 H2]. split; [exact H1|]. split.
      * intros k' Hne. rewrite (H2 k' Hne). simpl.
        destruct (K_eq_dec k' k0) as [->|]; [|reflexivity].
        apply lookup_absent. apply (hasitem_false K V K_eq_dec).
        simpl in Hnd. now inversion Hnd.
      * split; [|reflexivity]. unfold dict_len in *. rewrite length_app.
        cbn [List.length] in *. lia.
Qed.

(** X6.  Repeating an access changes nothing more: a second [cache[k] = v]
    leaves the cache as the first left it, and so does a second [cache[k]]. *)
Theorem lru_access_idempotent (c : cache) (k : K) :
  lru_inv c ->
  (forall v, (c1 <- __setitem__ K_eq_dec c k v ;; __setitem__ K_eq_dec c1 k v)
             = __setitem__ K_eq_dec c k v) /\
  (forall v c1, __getitem__ K_eq_dec c k = Ok (v, c1) ->
                __getitem__ K_eq_dec c1 k = Ok (v, c1)).
Proof.
  intros Hinv. split.
  - intros v. destruct (setitem_tail c k v Hinv) as (d & Hset & Hk).
    rewrite Hset. cbn [bind]. apply setitem_at_tail; [|assumption].
    apply (lru_inv_preserved K V K_eq_dec c _ k v Hinv). now right.
  - intros v c1 Hget.
    destruct (hasitem (items c) k) eqn:Hk.
    + destruct (getitem_moves K V K_eq_dec c k Hinv Hk) as (v' & _ & Hget').
      rewrite Hget' in Hget. inversion Hget; subst.
      apply getitem_at_tail. apply hasitem_removed. now destruct Hinv.
    + unfold __getitem__ in Hget. rewrite (lookup_absent _ _ Hk) in Hget. discriminate.
Qed.


(** One use of another key than [k] leaves the entry of [k] in the cache,
    with at most one more entry behind it, as long as the entries behind it
    do not fill the cache. *)
Lemma step_keeps_entry (c : cache) (o : use) k v pre post :
  lru_inv c -> items c = pre ++ (k, v) :: post -> op_key o <> k ->
  Z.of_nat (List.length post) + 1 < _size c ->
  exists c' pre' post',
    step K_eq_dec c o = Ok c' /\ lru_inv c' /\ _size c' = _size c /\
    items c' = pre' ++ (k, v) :: post' /\
    (List.length post' <= S (List.length post))%nat.
Proof.
  intros Hinv Hitems Hne Hroom.
  assert (Hmoved : forall k' w, k' <> k -> hasitem (items c) k' = true ->
            exists pre' post',
              remove (items c) k' ++ [(k', w)] = pre' ++ (k, v) :: post' /\
              (List.length post' <= S (List.length post))%nat).
  { intros k' w Hk' Hin. rewrite Hitems, remove_app.
    destruct (hasitem pre k') eqn:Hpre.
    - exists (remove pre k'), (post ++ [(k', w)]).
      rewrite <- app_assoc. split; [reflexivity|]. rewrite length_app. simpl. lia.
    - exists pre, (remove post k' ++ [(k', w)]). simpl.
      destruct (K_eq_dec k' k); [contradiction|]. rewrite <- app_assoc. split; [reflexivity|].
      rewrite Hitems, (hasitem_app K V K_eq_dec), Hpre in Hin. simpl in Hin.
      destruct (K_eq_dec k' k); [contradiction|].
      rewrite length_app. simpl. rewrite <- (length_remove K V K_eq_dec _ _ Hin). lia. }
  destruct o as [k'|k' w]; cbn [op_key] in Hne; cbn [step].
  - destruct (hasitem (items c) k') eqn:Hk'.
    + destruct (getitem_moves K V K_eq_dec c k' Hinv Hk') as (w & _ & Hget).
      rewrite Hget. destruct (Hmoved k' w Hne Hk') as (pre' & post' & Heq & Hlen).
      eexists _, pre', post'. split; [reflexivity|].
      split; [now apply (moved_inv K V K_eq_dec)|]. split; [reflexivity|]. now split.
    + unfold __getitem__. rewrite (lookup_absent _ _ Hk'). cbn [bind].
      exists c, pre, post. split; [reflexivity|]. split; [exact Hinv|].
      split; [reflexivity|]. split; [exact Hitems | lia].
  - rewrite (setitem_result c k' w Hinv).
    assert (Hinv' : lru_inv (MkCache
              (if hasitem (items c) k' then remove (items c) k' ++ [(k', w)]
               else if dict_len (items c) <? _size c then items c ++ [(k', w)]
               else tl (items c ++ [(k', w)])) (_size c))).
    { apply (lru_inv_preserved K V K_eq_dec c _ k' w Hinv). right.
      now rewrite (setitem_result c k' w Hinv). }
    destruct (hasitem (items c) k') eqn:Hk'.
    + destruct (Hmoved k' w Hne Hk') as (pre' & post' & Heq & Hlen).
      eexists _, pre', post'. split; [reflexivity|]. split; [exact Hinv'|].
      split; [reflexivity|]. now split.
    + destruct (Z.ltb_spec (dict_len (items c)) (_size c)) as [Hlt|Hge].
      * eexists _, pre, (post ++ [(k', w)]). split; [reflexivity|]. split; [exact Hinv'|].
        split; [reflexivity|]. cbn [items]. rewrite Hitems, <- app_assoc.
        split; [reflexivity|]. rewrite length_app. simpl. lia.
      * destruct pre as [|e pre].
        { exfalso. unfold dict_len in Hge. rewrite Hitems in Hge. simpl in Hge. lia. }
        eexists _, pre, (post ++ [(k', w)]). split; [reflexivity|]. split; [exact Hinv'|].
        split; [reflexivity|]. cbn [items]. rewrite Hitems. simpl. rewrite <- app_assoc.
        split; [reflexivity|]. rewrite length_app. simpl. lia.
Qed.

Lemma run_keeps_entry (k : K) (v : V) : forall (ops : list use) (c : cache) pre post,
  lru_inv c -> items c = pre ++ (k, v) :: post ->
  Forall (fun o => op_key o <> k) ops ->
  Z.of_nat (List.length post) + Z.of_nat (List.length ops) < _size c ->
  exists c', run K_eq_dec c ops = Ok c' /\ lookup (items c') k = Ok v.
Proof.
  induction ops as [|o ops IH]; intros c pre post Hinv Hitems Hall Hroom.
  - exists c. split; [reflexivity|]. destruct Hinv as (Hnd & _).
    apply (getitem_In K V K_eq_dec); [assumption|]. rewrite Hitems.
    apply in_or_app. right. now left.
  - apply Forall_cons_iff in Hall. destruct Hall as [Hne Hall].
    cbn [List.length] in Hroom.
    destruct (step_keeps_entry c o k v pre post Hinv Hitems Hne ltac:(lia))
      as (c1 & pre1 & post1 & Hstep & Hinv1 & Hsz1 & Hitems1 & Hlen1).
    cbn [run]. rewrite Hstep. cbn [bind].
    apply (IH c1 pre1 post1 Hinv1 Hitems1 Hall). lia.
Qed.

(** X7.  A key just put or got stays in a cache of capacity [C], under its
    value, through any sequence of fewer than [C] gets and puts of other
    keys. *)
Theorem lru_recent_key_survives (c c1 : cache) (k : K) (v : V) (ops : list use) :
  lru_inv c ->
  __setitem__ K_eq_dec c k v = Ok c1 \/ __getitem__ K_eq_dec c k = Ok (v, c1) ->
  Forall (fun o => op_key o <> k) ops ->
  Z.of_nat (List.length ops) < _size c ->
  exists c', run K_eq_dec c1 ops = Ok c' /\ lookup (items c') k = Ok v.
Proof.
  intros Hinv Hacc Hall Hlen.
  assert (H1 : lru_inv c1 /\ _size c1 = _size c /\ exists d, items c1 = d ++ [(k, v)]).
  { destruct Hacc as [Hset|Hget].
    - destruct (setitem_tail c k v Hinv) as (d & Hset' & _).
      split; [apply (lru_inv_preserved K V K_eq_dec c c1 k v Hinv); now right|].
      rewrite Hset' in Hset. inversion Hset; subst c1.
      split; [reflexivity | now exists d].
    - split; [apply (lru_inv_preserved K V K_eq_dec c c1 k v Hinv); left; eauto|].
      destruct (hasitem (items c) k) eqn:Hk.
      + destruct (getitem_moves K V K_eq_dec c k Hinv Hk) as (v' & _ & Hget').
        rewrite Hget' in Hget. inversion Hget; subst.
        split; [reflexivity | now eexists].
      + unfold __getitem__ in Hget. rewrite (lookup_absent _ _ Hk) in Hget. discriminate. }
  destruct H1 as (Hinv1 & Hsz1 & d & Hd).
  apply (run_keeps_entry k v ops c1 d [] Hinv1 Hd Hall). simpl. lia.
Qed.

(** *** Puts only *)

Lemma skipn_app_length (A : Type) (a b : list A) (j : nat) :
  skipn (List.length a + j) (a ++ b) = skipn j b.
Proof. induction a; simpl; auto. Qed.

Lemma NoDup_app_absent (d1 d2 : list (K * V)) k :
  NoDup (keys (d1 ++ d2)) -> hasitem d2 k = true -> hasitem d1 k = false.
Proof.
  intros Hnd H2. apply (hasitem_false K V K_eq_dec). intros H1.
  apply (hasitem_In K V K_eq_dec) in H2.
  rewrite (keys_app K V) in Hnd. revert Hnd H1 H2. generalize (keys d1) (keys d2).
  intros l1 l2 Hnd H1 H2. induction l1 as [|x l1 IH]; [contradiction|].
  simpl in Hnd. inversion Hnd as [|? ? Hx Hnd']; subst. destruct H1 as [->|H1].
  - apply Hx. apply in_or_app. now right.
  - now apply IH.
Qed.

(** One put on the last entries of a dictionary without bound. *)
Lemma setitem_lastn (c : cache) (L : list (K * V)) k v :
  lru_inv c -> NoDup (keys L) -> items c = lastn (Z.to_nat (_size c)) L ->
  exists c', __setitem__ K_eq_dec c k v = Ok c' /\ lru_inv c' /\ _size c' = _size c /\
             NoDup (keys (remove L k ++ [(k, v)])) /\
             items c' = lastn (Z.to_nat (_size c)) (remove L k ++ [(k, v)]).
Proof.
  intros Hinv HndL Hitems. pose proof Hinv as (Hnd & Hlen & Hpos).
  destruct (setitem_total c k v Hinv) as (c' & Hset & Hinv' & Hsz').
  exists c'. split; [exact Hset|]. split; [exact Hinv'|]. split; [exact Hsz'|].
  destruct (NoDup_remove K V K_eq_dec L k HndL) as [HndR HnotinR].
  split; [rewrite (keys_app K V); now apply NoDup_snoc|].
  rewrite (setitem_result c k v Hinv) in Hset. inversion Hset; subst c'; clear Hset.
  cbn [items]. set (C := Z.to_nat (_size c)) in *.
  assert (HC : (1 <= C)%nat) by (unfold C; lia).
  set (m := (List.length L - C)%nat).
  assert (HL : L = firstn m L ++ items c).
  { rewrite Hitems. unfold lastn. fold m. symmetry. apply firstn_skipn. }
  assert (Hpre : List.length (firstn m L) = m).
  { rewrite length_firstn. unfold m. lia. }
  assert (Hd : (List.length (items c) = List.length L - m)%nat).
  { rewrite Hitems. unfold lastn. fold m. apply length_skipn. }
  unfold lastn. rewrite length_app. cbn [List.length].
  destruct (hasitem (items c) k) eqn:Hk.
  - assert (Hkpre : hasitem (firstn m L) k = false).
    { apply (NoDup_app_absent _ (items c)); [now rewrite <- HL | assumption]. }
    assert (HrL : remove L k = firstn m L ++ remove (items c) k).
    { rewrite HL at 1. now rewrite remove_app, Hkpre. }
    assert (HlenR : S (List.length (remove L k)) = List.length L).
    { apply (length_remove K V K_eq_dec). rewrite HL, (hasitem_app K V K_eq_dec), Hk.
      apply orb_true_r. }
    rewrite HrL at 2. rewrite <- app_assoc.
    replace (List.length (remove L k) + 1 - C)%nat with (List.length (firstn m L) + 0)%nat
      by (rewrite Hpre; unfold m; lia).
    now rewrite skipn_app_length.
  - destruct (Z.ltb_spec (dict_len (items c)) (_size c)) as [Hlt|Hge].
    + assert (Hm : m = 0%nat).
      { unfold dict_len in Hlt. unfold m. destruct (Nat.le_gt_cases (List.length L) C); lia. }
      assert (HLd : L = items c) by (rewrite HL at 1; now rewrite Hm).
      rewrite <- HLd in Hk |- *. rewrite (remove_absent _ _ Hk).
      replace (List.length L + 1 - C)%nat with 0%nat; [reflexivity|].
      unfold dict_len in Hlt. rewrite <- HLd in Hlt. lia.
    + assert (HdC : List.length (items c) = C) by (unfold dict_len in *; lia).
      destruct (hasitem (firstn m L) k) eqn:Hkpre.
      * assert (HrL : remove L k = remove (firstn m L) k ++ items c).
        { rewrite HL at 1. now rewrite remove_app, Hkpre. }
        assert (HlenP : S (List.length (remove (firstn m L) k)) = m).
        { rewrite (length_remove K V K_eq_dec _ _ Hkpre). exact Hpre. }
        rewrite HrL. rewrite <- app_assoc, length_app.
        replace (List.length (remove (firstn m L) k) + List.length (items c) + 1 - C)%nat
          with (List.length (remove (firstn m L) k) + 1)%nat by lia.
        rewrite skipn_app_length. reflexivity.
      * assert (HkL : hasitem L k = false).
        { rewrite HL, (hasitem_app K V K_eq_dec), Hkpre, Hk. reflexivity. }
        rewrite (remove_absent _ _ HkL). rewrite HL at 2. rewrite <- app_assoc.
        replace (List.length L + 1 - C)%nat with (List.length (firstn m L) + 1)%nat
          by (rewrite Hpre; lia).
        rewrite skipn_app_length. reflexivity.
Qed.

Lemma put_all_lastn (kvs : list (K * V)) : forall (c : cache) (L : list (K * V)),
  lru_inv c -> NoDup (keys L) -> items c = lastn (Z.to_nat (_size c)) L ->
  exists c', put_all K_eq_dec c kvs = Ok c' /\ _size c' = _size c /\
             items c' = lastn (Z.to_nat (_size c)) (last_writes K_eq_dec L kvs).
Proof.
  induction kvs as [|[k v] kvs IH]; intros c L Hinv HndL Hitems.
  - exists c. now repeat split.
  - destruct (setitem_lastn c L k v Hinv HndL Hitems)
      as (c1 & Hset & Hinv1 & Hsz1 & HndL1 & Hitems1).
    rewrite <- Hsz1 in Hitems1.
    destruct (IH c1 _ Hinv1 HndL1 Hitems1) as (c' & Hput & Hsz' & Hitems').
    exists c'. cbn [put_all last_writes]. rewrite Hset. cbn [bind].
    split; [exact Hput|]. split; [congruence|]. now rewrite <- Hsz1.
Qed.

(** X8.  After any sequence of puts into a cache constructed with capacity
    [C], the cache holds the [C] keys written last (all of them when fewer
    were written), in the order of their last write, each with the value
    last written. *)
Theorem lru_puts_keep_most_recent (size : pyobj) (c0 : cache) (kvs : list (K * V)) :
  __init__ size = Ok c0 ->
  exists c, put_all K_eq_dec c0 kvs = Ok c /\ _size c = _size c0 /\
            items c = lastn (Z.to_nat (_size c0)) (last_writes K_eq_dec [] kvs).
Proof.
  intros Hinit.
  assert (H0 : lru_inv c0 /\ items c0 = []).
  { unfold __init__ in Hinit.
    destruct (isinstance size (PType int_t)) as [[|]|]; try discriminate Hinit.
    cbn [bind negb] in Hinit. destruct (int_value size) as [z|]; [|discriminate].
    destruct (Z.leb_spec z 0); [discriminate|]. inversion Hinit.
    split; [apply init_inv; lia | reflexivity]. }
  destruct H0 as [Hinv0 Hempty].
  apply (put_all_lastn kvs c0 [] Hinv0); [constructor|]. now rewrite Hempty.
Qed.

End LRUMore.

(** The cache of capacity 2 holding a then b, used below. *)
Lemma lru_inv_ab : lru_inv (MkCache [("a", 1); ("b", 2)] 2).
Proof.
  unfold lru_inv, dict_len. simpl. split; [|lia].
  repeat constructor; simpl; intuition discriminate.
Qed.

(** X1 on the capacity 2 and the uses a = 1, b = 2, get a, c = 3, get b. *)
Lemma lru_reachable_invariant_witness :
  exists c,
    run string_dec (MkCache [] 2)
        [Put "a" 1; Put "b" 2; Get "a"; Put "c" 3; Get "b"] = Ok c /\
    NoDup (keys (items c)) /\ dict_len (items c) <= _size c /\
    _size c = 2 /\ 1 <= 2.
Proof.
  apply (lru_reachable_invariant string Z string_dec (PInt 2) (MkCache [] 2)
           [Put "a" 1; Put "b" 2; Get "a"; Put "c" 3; Get "b"]).
  reflexivity.
Defined.

(** X2 on the cache holding a then b: the keys c and a. *)
Lemma lru_getitem_hit_or_keyerror_witness :
  __getitem__ string_dec (MkCache [("a", 1); ("b", 2)] 2) "c" = Raise KeyError /\
  exists c', __getitem__ string_dec (MkCache [("a", 1); ("b", 2)] 2) "a" = Ok (1, c').
Proof.
  destruct (lru_getitem_hit_or_keyerror string Z string_dec _ "c" lru_inv_ab) as (Hc & _).
  destruct (lru_getitem_hit_or_keyerror string Z string_dec _ "a" lru_inv_ab) as (_ & Ha & _).
  split; [apply Hc; reflexivity|]. apply Ha. now left.
Defined.

(** X3 on the cache holding a then b and the put c = 3. *)
Lemma lru_put_then_get_witness :
  exists c', __setitem__ string_dec (MkCache [("a", 1); ("b", 2)] 2) "c" 3 = Ok c' /\
             __getitem__ string_dec c' "c" = Ok (3, c').
Proof. apply (lru_put_then_get string Z string_dec _ "c" 3 lru_inv_ab). Defined.

(** X4 on the cache holding a then b and the get of a. *)
Lemma lru_getitem_preserves_witness :
  (exists d, [("b", 2); ("a", 1)] = d ++ [("a", 1)]) /\
  Permutation [("a", 1); ("b", 2)] [("b", 2); ("a", 1)] /\
  2 = 2 /\
  (forall k', dict_getitem string_dec [("b", 2); ("a", 1)] k'
              = dict_getitem string_dec [("a", 1); ("b", 2)] k').
Proof.
  apply (lru_getitem_preserves string Z string_dec
           (MkCache [("a", 1); ("b", 2)] 2) (MkCache [("b", 2); ("a", 1)] 2) "a" 1
           lru_inv_ab eq_refl).
Defined.

(** X5 on the full cache holding a then b and the put c = 3: a is gone. *)
Lemma lru_setitem_lookup_witness :
  dict_getitem string_dec [("b", 2); ("c", 3)] "c" = Ok 3 /\
  dict_getitem string_dec [("b", 2); ("c", 3)] "a" = Raise KeyError /\
  dict_getitem string_dec [("b", 2); ("c", 3)] "b" = Ok 2 /\
  dict_len [("b", 2); ("c", 3)] = 2.
Proof.
  destruct (lru_setitem_lookup string Z string_dec
              (MkCache [("a", 1); ("b", 2)] 2) (MkCache [("b", 2); ("c", 3)] 2) "c" 3
              lru_inv_ab eq_refl) as (Hk & Hother & Hlen & _).
  split; [exact Hk|].
  split; [apply (Hother "a"); discriminate|].
  split; [apply (Hother "b"); discriminate | exact Hlen].
Defined.

(** X7 on the cache holding a then b: after the get of a, the put of c
    leaves a in the cache. *)
Lemma lru_recent_key_survives_witness :
  exists c', run string_dec (MkCache [("b", 2); ("a", 1)] 2) [Put "c" 3] = Ok c' /\
             dict_getitem string_dec (items c') "a" = Ok 1.
Proof.
  apply (lru_recent_key_survives string Z string_dec
           (MkCache [("a", 1); ("b", 2)] 2) (MkCache [("b", 2); ("a", 1)] 2) "a" 1
           [Put "c" 3] lru_inv_ab).
  - right. reflexivity.
  - repeat constructor. discriminate.
  - simpl. lia.
Defined.

(** X8 on the capacity 2 and the puts a = 1, b = 2, a = 3, c = 4. *)
Lemma lru_puts_keep_most_recent_witness :
  exists c,
    put_all string_dec (MkCache [] 2) [("a", 1); ("b", 2); ("a", 3); ("c", 4)] = Ok c /\
    _size c = 2 /\ items c = [("a", 3); ("c", 4)].
Proof.
  apply (lru_puts_keep_most_recent string Z string_dec (PInt 2) (MkCache [] 2)
           [("a", 1); ("b", 2); ("a", 3); ("c", 4)]).
  reflexivity.
Defined.

(** X6 on the cache holding a then b: a put and a get of a, twice. *)
Lemma lru_access_idempotent_witness :
  (c1 <- __setitem__ string_dec (MkCache [("a", 1); ("b", 2)] 2) "a" 5 ;;
   __setitem__ string_dec c1 "a" 5)
    = __setitem__ string_dec (MkCache [("a", 1); ("b", 2)] 2) "a" 5 /\
  __getitem__ string_dec (MkCache [("b", 2); ("a", 1)] 2) "a"
    = Ok (1, MkCache [("b", 2); ("a", 1)] 2).
Proof.
  destruct (lru_access_idempotent string Z string_dec _ "a" lru_inv_ab) as [Hput Hget].
  split; [apply Hput|]. apply (Hget 1). reflexivity.
Defined.

(** ** More on the class tester *)


(** [issubclass] against a tuple, element by element. *)
Lemma issubclass_cons (cls x : pyobj) (l : list pyobj) :
  issubclass cls (PTuple (x :: l))
  = match issubclass cls x with
    | Ok true => Ok true
    | Ok false => issubclass cls (PTuple l)
    | Raise e => Raise e
    end.
Proof. reflexivity. Qed.

(** X9.  Outside the documented domain of [base_classes]: the assertion
    raises on whatever is neither a class nor a tuple; an object that is not
    a class is answered [False] against any tuple, be it empty or holding
    objects that are no classes; against the empty tuple a class is
    answered [False] too; and a class tested against a tuple reaching an
    object that is neither a class nor a tuple before any superclass of it
    lets the [TypeError] of the builtin through. *)
Theorem is_type_subclass_outside_domain (cls : pyobj) :
  (forall base_classes,
     is_class base_classes = false ->
     type_issubclass (type_of base_classes) tuple_t = false ->
     is_type_subclass cls base_classes = Raise AssertionError) /\
  (forall l, is_class cls = false -> is_type_subclass cls (PTuple l) = Ok false) /\
  is_type_subclass cls (PTuple []) = Ok false /\
  (forall c pre x post,
     cls = PType c ->
     Forall (fun y => exists b, y = PType b /\ type_issubclass c b = false) pre ->
     is_class x = false -> type_issubclass (type_of x) tuple_t = false ->
     is_type_subclass cls (PTuple (pre ++ x :: post)) = Raise TypeError).
Proof.
  split; [|split; [|split]].
  - intros base_classes Hc Ht. unfold is_type_subclass.
    destruct base_classes; try discriminate Hc; try discriminate Ht; reflexivity.
  - intros l Hc. unfold is_type_subclass.
    change (isinstance (PTuple l) TestableTypesTuple) with (@Ok bool true).
    cbn [bind negb]. now rewrite (not_class_not_type _ Hc).
  - unfold is_type_subclass.
    change (isinstance (PTuple []) TestableTypesTuple) with (@Ok bool true).
    cbn [bind negb]. destruct (isinstance cls (PType type_t)) as [[|]|e] eqn:E; try reflexivity.
    destruct cls; discriminate E.
  - intros c pre x post -> Hpre Hx Ht. unfold is_type_subclass.
    change (isinstance (PTuple (pre ++ x :: post)) TestableTypesTuple) with (@Ok bool true).
    cbn [bind negb]. change (isinstance (PType c) (PType type_t)) with (@Ok bool true).
    cbn [bind]. induction Hpre as [|y pre (b & -> & Hb) _ IH].
    + cbn [app]. rewrite issubclass_cons.
      destruct x; try discriminate Hx; try discriminate Ht; reflexivity.
    + cbn [app]. rewrite issubclass_cons. cbn [issubclass]. rewrite Hb. exact IH.
Qed.

(** ** More on the placeholders *)

Section MoreStrings.

Local Open Scope string_scope.

(** X10.  No delimiter of a placeholder is an identifier or occurs in one:
    replacing a delimiter in a parameter name, a class name or a variable
    name of the generated code leaves the name as it is. *)
Theorem identifiers_hold_no_delimiter (name : string) :
  is_identifier name = true ->
  forall f d, In d (delimiters f) ->
    is_identifier d = false /\ is_substring d name = false /\
    forall new, str_replace name d new = name.
Proof.
  intros Hid f d Hd. apply identifier_chars in Hid.
  assert (H : is_identifier d = false /\ is_substring d name = false).
  { destruct f; simpl in Hd;
      repeat match goal with
             | H : _ \/ _ |- _ => destruct H as [H|H]
             | H : False |- _ => destruct H
             end; subst d; (split; [reflexivity|]);
      match goal with
      | |- is_substring ?d name = false =>
          destruct (is_substring d name) eqn:E; [|reflexivity];
          apply is_substring_first_char in E;
          rewrite (all_chars_has_char _ _ _ Hid) in E; [discriminate | reflexivity]
      end. }
  destruct H as [H1 H2]. split; [exact H1|]. split; [exact H2|].
  intros new. now apply str_replace_absent.
Qed.

(** X11.  The substitution of the root pith name is complete: for an
    identifier that does not occur within the text of the placeholder, the
    result holds no placeholder any more; and a template without placeholder
    is returned as it is. *)
Theorem root_name_substitution_complete (template name : string) :
  is_identifier name = true ->
  is_substring name PEP_CODE_PITH_ROOT_PARAM_NAME_PLACEHOLDER = false ->
  is_substring PEP_CODE_PITH_ROOT_PARAM_NAME_PLACEHOLDER
    (substitute_root_name template name) = false /\
  (is_substring PEP_CODE_PITH_ROOT_PARAM_NAME_PLACEHOLDER template = false ->
   substitute_root_name template name = template).
Proof.
  intros Hid Hout. apply identifier_chars in Hid. split.
  - unfold substitute_root_name, str_replace, PEP_CODE_PITH_ROOT_PARAM_NAME_PLACEHOLDER.
    apply (replaced_absent "?"%char "^"%char "|PITH_ROOT_NAME`^" "?|PITH_ROOT_NAME`" name)
      with (n := String.length template).
    + reflexivity.
    + now apply (all_chars_has_char _ _ _ Hid).
    + now apply (all_chars_has_char _ _ _ Hid).
    + exact Hout.
    + lia.
  - intros Habs. now apply str_replace_absent.
Qed.

End MoreStrings.

(** X10 on the name arg and the suffix of the forward references. *)
Lemma identifiers_hold_no_delimiter_witness :
  is_identifier PEP_CODE_HINT_FORWARDREF_UNQUALIFIED_PLACEHOLDER_SUFFIX = false /\
  is_substring PEP_CODE_HINT_FORWARDREF_UNQUALIFIED_PLACEHOLDER_SUFFIX "arg" = false /\
  forall new,
    str_replace "arg" PEP_CODE_HINT_FORWARDREF_UNQUALIFIED_PLACEHOLDER_SUFFIX new = "arg"%string.
Proof.
  apply (identifiers_hold_no_delimiter "arg" eq_refl ForwardRef).
  right. left. reflexivity.
Defined.

(** X11 on the snippet naming the root pith, twice, and the name arg. *)
Lemma root_name_substitution_complete_witness :
  is_substring PEP_CODE_PITH_ROOT_PARAM_NAME_PLACEHOLDER
    (substitute_root_name "?|PITH_ROOT_NAME`^=?|PITH_ROOT_NAME`^," "arg") = false /\
  substitute_root_name "?|PITH_ROOT_NAME`^=?|PITH_ROOT_NAME`^," "arg" = "arg=arg,"%string.
Proof.
  split; [|reflexivity].
  apply (root_name_substitution_complete "?|PITH_ROOT_NAME`^=?|PITH_ROOT_NAME`^," "arg"
           eq_refl eq_refl).
Defined.

(** ** More on the snippets *)

Import SnipMore.

(** X12.  The subclass snippet, run where the pith expression yields [v]:
    on a [v] that is no class it yields [False] without evaluating the
    superclass expression, whatever that is; and for a superclass that is a
    class or a tuple it yields what [is_type_subclass] returns. *)
Theorem subclass_snippet_is_type_subclass (depth : nat) (pith_curr_expr : expr)
  (rho rho1 : env) (v : pyobj) :
  eval pith_curr_expr rho = Ok (v, rho1) ->
  (forall hint_curr_expr,
     is_class v = false ->
     PEP484585_CODE_HINT_SUBCLASS
       (PEP_CODE_PITH_ASSIGN_EXPR (VarPith depth) pith_curr_expr) (VarPith depth)
       hint_curr_expr rho
     = Ok (PBool false, assign rho1 (VarPith depth) v)) /\
  (forall base_classes,
     isinstance base_classes TestableTypesTuple = Ok true ->
     PEP484585_CODE_HINT_SUBCLASS
       (PEP_CODE_PITH_ASSIGN_EXPR (VarPith depth) pith_curr_expr) (VarPith depth)
       (Const base_classes) rho
     = (b <- is_type_subclass v base_classes ;;
        Ok (PBool b, assign rho1 (VarPith depth) v))).
Proof.
  intros Hpith.
  assert (Hinst : eval (Isinstance (PEP_CODE_PITH_ASSIGN_EXPR (VarPith depth) pith_curr_expr)
                          (Const (PType type_t))) rho
                  = Ok (PBool (type_issubclass (type_of v) type_t),
                        assign rho1 (VarPith depth) v)).
  { apply eval_Isinstance_type. now apply eval_NamedExpr. }
  split.
  - intros hint_curr_expr Hc. unfold PEP484585_CODE_HINT_SUBCLASS. rewrite Hinst.
    cbn [bind fst snd truthy]. destruct v; try discriminate Hc; reflexivity.
  - intros base_classes Hbase. unfold PEP484585_CODE_HINT_SUBCLASS, is_type_subclass.
    rewrite Hinst, Hbase. cbn [bind fst snd truthy negb isinstance].
    destruct (type_issubclass (type_of v) type_t); [|reflexivity].
    cbn [eval]. rewrite assign_same. cbn [bind fst snd]. reflexivity.
Qed.

(** X12 on the class [bool] and the integer 3, against [int]. *)
Lemma subclass_snippet_is_type_subclass_witness :
  PEP484585_CODE_HINT_SUBCLASS
    (PEP_CODE_PITH_ASSIGN_EXPR (VarPith 1) (Name VAR_NAME_PITH_ROOT)) (VarPith 1)
    (Const (PType int_t)) (scope (PInt 3) 0)
  = Ok (PBool false, assign (scope (PInt 3) 0) (VarPith 1) (PInt 3)) /\
  PEP484585_CODE_HINT_SUBCLASS
    (PEP_CODE_PITH_ASSIGN_EXPR (VarPith 1) (Name VAR_NAME_PITH_ROOT)) (VarPith 1)
    (Const (PType int_t)) (scope (PType bool_t) 0)
  = Ok (PBool true, assign (scope (PType bool_t) 0) (VarPith 1) (PType bool_t)).
Proof.
  destruct (subclass_snippet_is_type_subclass 1 (Name VAR_NAME_PITH_ROOT)
              (scope (PInt 3) 0) (scope (PInt 3) 0) (PInt 3) eq_refl) as [H3 _].
  destruct (subclass_snippet_is_type_subclass 1 (Name VAR_NAME_PITH_ROOT)
              (scope (PType bool_t) 0) (scope (PType bool_t) 0) (PType bool_t) eq_refl)
    as [_ Hb].
  split; [apply H3; reflexivity|]. apply (Hb (PType int_t)). reflexivity.
Defined.

(** [isinstance] against a tuple of classes. *)
Lemma isinstance_classes (v : pyobj) (types : list pytype) :
  isinstance v (PTuple (map PType types))
  = Ok (existsb (type_issubclass (type_of v)) types).
Proof.
  induction types as [|t types IH]; [reflexivity|]. cbn [map].
  change (isinstance v (PTuple (PType t :: map PType types)))
    with (match isinstance v (PType t) with
          | Ok true => Ok true
          | Ok false => isinstance v (PTuple (map PType types))
          | Raise e => Raise e
          end).
  cbn [isinstance existsb]. destruct (type_issubclass (type_of v) t); [reflexivity | exact IH].
Qed.

(** The disjunction of the literal snippets, where the pith variable holds [v]. *)
Lemma eval_literals (x : var) (rho : env) (v : pyobj) : forall (lits : list pyobj) (lit : pyobj),
  rho x = Some v ->
  eval (disj (PEP586_CODE_HINT_LITERAL x (Const lit))
             (map (PEP586_CODE_HINT_LITERAL x) (map Const lits))) rho
  = Ok (PBool (existsb (__eq__ v) (lit :: lits)), rho).
Proof.
  assert (H1 : forall lit, rho x = Some v ->
            eval (PEP586_CODE_HINT_LITERAL x (Const lit)) rho = Ok (PBool (__eq__ v lit), rho)).
  { intros lit Hx. unfold PEP586_CODE_HINT_LITERAL. cbn [eval]. now rewrite Hx. }
  induction lits as [|l lits IH]; intros lit Hx.
  - cbn [map disj existsb]. rewrite (H1 lit Hx). now rewrite orb_false_r.
  - cbn [map disj]. rewrite (eval_BoolOr _ _ _ _ _ (H1 lit Hx)).
    change (existsb (__eq__ v) (lit :: l :: lits))
      with (__eq__ v lit || existsb (__eq__ v) (l :: lits)).
    destruct (__eq__ v lit); [reflexivity|]. now apply IH.
Qed.

(** X13.  The check of a literal hint, run where the pith expression yields
    [v]: true exactly when [v] is an instance of one of the types and equal
    to one of the literal objects; no operand raises.  With the types of
    the literal objects as types, the literal 1 accepts [True] and the
    literal [True] rejects 1. *)
Theorem literal_check (depth : nat) (pith_curr_expr : expr) (rho rho1 : env) (v : pyobj) :
  eval pith_curr_expr rho = Ok (v, rho1) ->
  (forall (types : list pytype) (lit : pyobj) (lits : list pyobj),
     eval (pep586_code (PEP_CODE_PITH_ASSIGN_EXPR (VarPith depth) pith_curr_expr)
             (VarPith depth) (Const (PTuple (map PType types)))
             (Const lit) (map Const lits)) rho
     = Ok (PBool (existsb (type_issubclass (type_of v)) types
                  && existsb (__eq__ v) (lit :: lits)),
           assign rho1 (VarPith depth) v)) /\
  (forall z b,
     v = PBool b ->
     eval (pep586_code (PEP_CODE_PITH_ASSIGN_EXPR (VarPith depth) pith_curr_expr)
             (VarPith depth) (Const (PTuple [PType (type_of (PInt z))]))
             (Const (PInt z)) []) rho
     = Ok (PBool ((if b then 1 else 0) =? z), assign rho1 (VarPith depth) v)) /\
  (forall z b,
     v = PInt z ->
     eval (pep586_code (PEP_CODE_PITH_ASSIGN_EXPR (VarPith depth) pith_curr_expr)
             (VarPith depth) (Const (PTuple [PType (type_of (PBool b))]))
             (Const (PBool b)) []) rho
     = Ok (PBool false, assign rho1 (VarPith depth) v)).
Proof.
  intros Hpith.
  assert (H : forall (types : list pytype) (lit : pyobj) (lits : list pyobj),
     eval (pep586_code (PEP_CODE_PITH_ASSIGN_EXPR (VarPith depth) pith_curr_expr)
             (VarPith depth) (Const (PTuple (map PType types)))
             (Const lit) (map Const lits)) rho
     = Ok (PBool (existsb (type_issubclass (type_of v)) types
                  && existsb (__eq__ v) (lit :: lits)),
           assign rho1 (VarPith depth) v)).
  { intros types lit lits. unfold pep586_code, PEP586_CODE_HINT_PREFIX.
    assert (Hinst : eval (Isinstance (PEP_CODE_PITH_ASSIGN_EXPR (VarPith depth) pith_curr_expr)
                            (Const (PTuple (map PType types)))) rho
                    = Ok (PBool (existsb (type_issubclass (type_of v)) types),
                          assign rho1 (VarPith depth) v)).
    { cbn [eval PEP_CODE_PITH_ASSIGN_EXPR]. rewrite Hpith. cbn [bind fst snd].
      now rewrite isinstance_classes. }
    rewrite (eval_BoolAnd _ _ _ _ _ Hinst).
    destruct (existsb (type_issubclass (type_of v)) types); [|reflexivity].
    apply eval_literals. apply assign_same. }
  split; [exact H|]. split.
  - intros z b ->. etransitivity; [exact (H [int_t] (PInt z) [])|].
    cbn [existsb __eq__ type_of]. rewrite !orb_false_r.
    change (type_issubclass bool_t int_t) with true. reflexivity.
  - intros z b ->. etransitivity; [exact (H [bool_t] (PBool b) [])|]. reflexivity.
Qed.

(** X13 on the literal objects 1 and a, and the values a, 2 and [True]. *)
Lemma literal_check_witness :
  eval (pep586_code (PEP_CODE_PITH_ASSIGN_EXPR (VarPith 1) (Name VAR_NAME_PITH_ROOT))
          (VarPith 1) (Const (PTuple [PType int_t; PType str_t]))
          (Const (PInt 1)) [Const (PStr "a")]) (scope (PStr "a") 0)
  = Ok (PBool true, assign (scope (PStr "a") 0) (VarPith 1) (PStr "a")) /\
  eval (pep586_code (PEP_CODE_PITH_ASSIGN_EXPR (VarPith 1) (Name VAR_NAME_PITH_ROOT))
          (VarPith 1) (Const (PTuple [PType int_t; PType str_t]))
          (Const (PInt 1)) [Const (PStr "a")]) (scope (PInt 2) 0)
  = Ok (PBool false, assign (scope (PInt 2) 0) (VarPith 1) (PInt 2)) /\
  eval (pep586_code (PEP_CODE_PITH_ASSIGN_EXPR (VarPith 1) (Name VAR_NAME_PITH_ROOT))
          (VarPith 1) (Const (PTuple [PType int_t]))
          (Const (PInt 1)) []) (scope (PBool true) 0)
  = Ok (PBool true, assign (scope (PBool true) 0) (VarPith 1) (PBool true)).
Proof.
  destruct (literal_check 1 (Name VAR_NAME_PITH_ROOT)
              (scope (PStr "a") 0) (scope (PStr "a") 0) (PStr "a") eq_refl) as [Ha _].
  destruct (literal_check 1 (Name VAR_NAME_PITH_ROOT)
              (scope (PInt 2) 0) (scope (PInt 2) 0) (PInt 2) eq_refl) as [H2 _].
  destruct (literal_check 1 (Name VAR_NAME_PITH_ROOT)
              (scope (PBool true) 0) (scope (PBool true) 0) (PBool true) eq_refl)
    as (_ & Ht & _).
  split; [exact (Ha [int_t; str_t] (PInt 1) [PStr "a"])|].
  split; [exact (H2 [int_t; str_t] (PInt 1) [PStr "a"])|].
  exact (Ht 1 true eq_refl).
Defined.

(** Subscription of a sequence at an index past its end. *)
Lemma getitem_past_end (v : pyobj) (l : list pyobj) (i : nat) :
  seq_items v = Some l -> (List.length l <= i)%nat ->
  getitem v (PInt (Z.of_nat i)) = Raise IndexError.
Proof.
  intros Hl Hi. unfold getitem. rewrite Hl. cbn [int_value].
  assert (E1 : (Z.of_nat i <? 0) = false) by (apply Z.ltb_ge; lia).
  assert (E2 : (Z.of_nat (List.length l) <=? Z.of_nat i) = true) by (apply Z.leb_le; lia).
  cbv zeta. rewrite E1. cbv iota. rewrite E1, E2. reflexivity.
Qed.

(** X14.  The item of a fixed-length tuple is read behind the test of the
    length: where the pith variable holds a sequence, the item expression
    of an index below the expected length, evaluated after the test, yields
    the item when the length is the expected one and is not evaluated
    otherwise; evaluated on its own it raises [IndexError] on every
    sequence of at most that many items. *)
Theorem tuple_item_access_guarded (depth : nat) (rho : env) (v : pyobj) (l : list pyobj)
  (hint_childs_len pith_child_index : nat) :
  rho (VarPith depth) = Some v -> seq_items v = Some l ->
  (pith_child_index < hint_childs_len)%nat ->
  eval (BoolAnd (PEP484585_CODE_HINT_TUPLE_FIXED_LEN (VarPith depth) hint_childs_len)
                (PEP484585_CODE_HINT_TUPLE_FIXED_NONEMPTY_PITH_CHILD_EXPR
                   (VarPith depth) pith_child_index)) rho
  = (if (List.length l =? hint_childs_len)%nat
     then Ok (nth pith_child_index l PNone, rho)
     else Ok (PBool false, rho)) /\
  ((List.length l <= pith_child_index)%nat ->
   eval (PEP484585_CODE_HINT_TUPLE_FIXED_NONEMPTY_PITH_CHILD_EXPR
           (VarPith depth) pith_child_index) rho
   = Raise IndexError).
Proof.
  intros Hpith Hl Hi. split.
  - unfold PEP484585_CODE_HINT_TUPLE_FIXED_LEN.
    rewrite (eval_BoolAnd _ _ _ _ _ (eval_Len_CompareEq _ _ _ _ hint_childs_len Hpith Hl)).
    destruct (Nat.eqb_spec (List.length l) hint_childs_len) as [E|]; [|reflexivity].
    unfold PEP484585_CODE_HINT_TUPLE_FIXED_NONEMPTY_PITH_CHILD_EXPR.
    cbn [eval]. rewrite Hpith. cbn [bind fst snd]. unfold lift.
    rewrite (getitem_nth_error v l pith_child_index (nth pith_child_index l PNone) Hl);
      [reflexivity|].
    apply nth_error_nth'. lia.
  - intros Hshort. unfold PEP484585_CODE_HINT_TUPLE_FIXED_NONEMPTY_PITH_CHILD_EXPR.
    cbn [eval]. rewrite Hpith. cbn [bind fst snd]. unfold lift.
    now rewrite (getitem_past_end v l pith_child_index Hl Hshort).
Qed.

(** X14 on the tuples [(1, 2)] and [(1,)], the expected length 2 and the
    index 1. *)
Lemma tuple_item_access_guarded_witness :
  eval (BoolAnd (PEP484585_CODE_HINT_TUPLE_FIXED_LEN (VarPith 0) 2)
                (PEP484585_CODE_HINT_TUPLE_FIXED_NONEMPTY_PITH_CHILD_EXPR (VarPith 0) 1))
       (scope (PTuple [PInt 1; PInt 2]) 0)
  = Ok (PInt 2, scope (PTuple [PInt 1; PInt 2]) 0) /\
  eval (BoolAnd (PEP484585_CODE_HINT_TUPLE_FIXED_LEN (VarPith 0) 2)
                (PEP484585_CODE_HINT_TUPLE_FIXED_NONEMPTY_PITH_CHILD_EXPR (VarPith 0) 1))
       (scope (PTuple [PInt 1]) 0)
  = Ok (PBool false, scope (PTuple [PInt 1]) 0) /\
  eval (PEP484585_CODE_HINT_TUPLE_FIXED_NONEMPTY_PITH_CHILD_EXPR (VarPith 0) 1)
       (scope (PTuple [PInt 1]) 0)
  = Raise IndexError.
Proof.
  destruct (tuple_item_access_guarded 0 (scope (PTuple [PInt 1; PInt 2]) 0)
              (PTuple [PInt 1; PInt 2]) [PInt 1; PInt 2] 2 1 eq_refl eq_refl ltac:(lia))
    as [H2 _].
  destruct (tuple_item_access_guarded 0 (scope (PTuple [PInt 1]) 0)
              (PTuple [PInt 1]) [PInt 1] 2 1 eq_refl eq_refl ltac:(lia))
    as [H1 Hraise].
  split; [exact H2|]. split; [exact H1|]. apply Hraise. simpl. lia.
Defined.
